(** * A shallow embedding of the RAG orchestration core

    The retrieval-augmented question answering service of this repository is
    written in Python.  This development embeds the parts of it that carry
    algorithmic content -- the text helpers, the text chunker, the batching
    of embeddings, the ids of the vector store, the keyword index,
    reciprocal rank fusion, the reranker adapter, the tool registry with its
    arithmetic evaluator, the tool executor, the LangGraph workflow and the
    pipeline around it -- as Rocq functions, and proves properties of them.

    Conventions of the embedding:
    - a Python [str] is a [string]; its characters are the code points below
      256, which is where the source's character tests ([strip], [lower],
      [\d], the evaluator's character filter) are decided for ASCII text;
    - a Python [int] is a [Z]; indices keep Python's meaning, negative ones
      included, through [PyStr.clamp] and [py_slice_stop];
    - a Python [float] is an IEEE 754 binary64 number and is kept as the
      rational it is; what the program computes with floats -- a sum, a
      quotient, [round] -- is rounded to the nearest float by [fl], which is
      binary64 rounding for magnitudes between [2^-1022] and [2^1024]; the
      floating-point arithmetic of the expression evaluator, which can also
      overflow, is a parameter ([Tools.Inexact]);
    - the limits of the interpreter are not part of the embedding: the
      conversion between [int] and [str] stops at 4300 digits, the parser at
      200 nested parentheses, and nested calls at the recursion limit;
      statements about evaluation that would reach them carry a bound;
    - what the repository imports and does not contain -- the ranking
      function, the vector store, the cross-encoder, the language model, the
      database, the clock -- is a parameter of the component that uses it;
    - an exception is a value: a function that can raise returns a
      [result], and every [try]/[except] of the source is a [match] on it;
    - a [dict] keyed by strings is a [gmap string _] where only lookups
      matter, and an association list where the insertion order is observed. *)

From Stdlib Require Import ZArith QArith Qround Lia Ascii String List Bool.
From Stdlib Require Import DecimalString Sorted Permutation Lqa Morphisms.
From Stdlib Require DecimalZ DecimalPos DecimalFacts.
From stdpp Require Import base option list gmap strings.

Import ListNotations.
Local Open Scope string_scope.
Local Open Scope list_scope.
Local Open Scope Z_scope.

(** ** Exceptions *)

(** The exception classes the embedded code raises or catches.  All of them
    derive from [Exception]; [IndentationError] is a [SyntaxError] and
    [RecursionError] a [RuntimeError], which [exn_isinstance] records. *)
Inductive exn_class : Type :=
  | SyntaxError
  | KeyError
  | TypeError
  | ZeroDivisionError
  | OverflowError
  | ValueError
  | RuntimeError
  | RecursionError
  | IndexError
  | OtherException.

Record exn : Type := Exn { exn_cls : exn_class; exn_msg : string }.

(** [str(e)] *)
Definition exn_str (e : exn) : string := exn_msg e.

Definition exn_class_eqb (a b : exn_class) : bool :=
  match a, b with
  | SyntaxError, SyntaxError | KeyError, KeyError | TypeError, TypeError
  | ZeroDivisionError, ZeroDivisionError | OverflowError, OverflowError
  | ValueError, ValueError | RuntimeError, RuntimeError
  | RecursionError, RecursionError | IndexError, IndexError
  | OtherException, OtherException => true
  | _, _ => false
  end.

(** [isinstance(e, cls)] for the classes an [except] clause of the source
    names. *)
Definition exn_isinstance (e : exn) (cls : exn_class) : bool :=
  exn_class_eqb (exn_cls e) cls
  || match exn_cls e, cls with
     | RecursionError, RuntimeError => true
     | _, _ => false
     end.

Inductive result (A : Type) : Type :=
  | Ok (a : A)
  | Raise (e : exn).
Arguments Ok {A} a.
Arguments Raise {A} e.

(** Sequencing: an exception raised by the first computation propagates.
    With these instances stdpp's [x ← r; k] reads as two Python statements. *)
#[export] Instance result_ret : MRet result := fun _ a => Ok a.
#[export] Instance result_bind : MBind result := fun _ _ k r =>
  match r with
  | Ok a => k a
  | Raise e => Raise e
  end.

(** ** Python values stored in dictionaries *)

Inductive pyval : Type :=
  | PNone
  | PInt (z : Z)
  | PStr (s : string).

(** ** Python built-ins on integers and lists *)

(** [str(n)] for an [int]. *)
Definition str_of_int (n : Z) : string := NilZero.string_of_int (Z.to_int n).

(** [x or default] for an optional integer: [None] and [0] are both falsy. *)
Definition int_or (x : option Z) (default : Z) : Z :=
  match x with
  | Some v => if v =? 0 then default else v
  | None => default
  end.

(** The number of elements [l[:k]] keeps: a negative [k] counts from the
    end. *)
Definition py_slice_stop (len : nat) (k : Z) : nat :=
  if k <? 0 then Z.to_nat (Z.of_nat len + k) else Nat.min (Z.to_nat k) len.

(** [l[:k]] *)
Definition py_take {A : Type} (k : Z) (l : list A) : list A :=
  take (py_slice_stop (length l) k) l.

(** [sorted(l, key=key, reverse=True)]: a stable sort, so elements with
    equal keys keep the order they had in [l]. *)
Fixpoint insert_desc {A : Type} (key : A -> Q) (x : A) (l : list A) : list A :=
  match l with
  | [] => [x]
  | y :: l' =>
      if Qle_bool (key y) (key x) then x :: l
      else y :: insert_desc key x l'
  end.

Definition sorted_desc {A : Type} (key : A -> Q) (l : list A) : list A :=
  fold_right (insert_desc key) [] l.

(** ** Python floats *)

(** [2^e] *)
Definition pow2 (e : Z) : Q :=
  if 0 <=? e then inject_Z (2 ^ e) else / inject_Z (2 ^ (- e)).

(** The integer nearest to [y], a tie going to the even one. *)
Definition round_half_even (y : Q) : Z :=
  let f := Qfloor y in
  match (y - inject_Z f ?= 1 # 2)%Q with
  | Lt => f
  | Gt => f + 1
  | Eq => if Z.even f then f else f + 1
  end.

(** [floor (log2 x)] for a positive [x]. *)
Definition ilog2 (x : Q) : Z :=
  if Qle_bool 1 x then Z.log2 (Qfloor x) else - Z.log2_up (Qceiling (/ x)).

(** The float nearest to a positive [x]: a significand of 53 bits, rounded
    to nearest, a tie going to the even significand. *)
Definition fl_pos (x : Q) : Q :=
  let e := ilog2 x - 52 in
  (inject_Z (round_half_even (x / pow2 e)) * pow2 e)%Q.

(** The float nearest to [x]. *)
Definition fl (x : Q) : Q :=
  match (x ?= 0)%Q with
  | Eq => 0%Q
  | Gt => fl_pos x
  | Lt => (- fl_pos (- x))%Q
  end.

(** [x + y] and [x / y] on floats, and [float(z)] for an [int].  Where the
    program divides, the divisor is a positive count or rank. *)
Definition fadd (x y : Q) : Q := fl (x + y).
Definition fdiv (x y : Q) : Q := fl (x / y).
Definition float_of_int (z : Z) : Q := fl (inject_Z z).

(** [round(x, ndigits)] for a float [x] and [ndigits >= 0]: the exact value
    of [x] is rounded to the nearest multiple of [10^-ndigits], a tie going
    to the even one, and the result is the float nearest to that decimal. *)
Definition py_round (x : Q) (ndigits : Z) : Q :=
  let scale := 10 ^ ndigits in
  fl (inject_Z (round_half_even (x * inject_Z scale)) / inject_Z scale).

Arguments fl : simpl never.
Arguments fadd : simpl never.
Arguments fdiv : simpl never.
Arguments float_of_int : simpl never.
Arguments py_round : simpl never.

(** ** Python string operations *)

Module PyStr.

Definition chars (s : string) : list ascii := list_ascii_of_string s.
Definition str (l : list ascii) : string := string_of_list_ascii l.

(** [len(s)] *)
Definition len (s : string) : Z := Z.of_nat (String.length s).

(** How a slice bound or a [find]/[rfind] bound is brought into
    [0 .. n]: a negative bound counts from the end. *)
Definition clamp (n i : Z) : Z :=
  if i <? 0 then Z.max 0 (i + n) else Z.min i n.

Definition lslice (l : list ascii) (i j : Z) : list ascii :=
  let n := Z.of_nat (length l) in
  take (Z.to_nat (clamp n j - clamp n i)) (drop (Z.to_nat (clamp n i)) l).

(** [s[i:j]] *)
Definition slice (s : string) (i j : Z) : string := str (lslice (chars s) i j).

(** [c.isspace()] on the code points below 256. *)
Definition isspace (c : ascii) : bool :=
  let n := nat_of_ascii c in
  ((9 <=? n) && (n <=? 13) || (28 <=? n) && (n <=? 32)
   || (n =? 133) || (n =? 160))%nat.

Fixpoint lstrip_chars (l : list ascii) : list ascii :=
  match l with
  | c :: l' => if isspace c then lstrip_chars l' else l
  | [] => []
  end.

(** [s.strip()] *)
Definition strip (s : string) : string :=
  str (rev (lstrip_chars (rev (lstrip_chars (chars s))))).

Fixpoint is_prefix (p l : list ascii) : bool :=
  match p, l with
  | [], _ => true
  | a :: p', b :: l' => Ascii.eqb a b && is_prefix p' l'
  | _ :: _, [] => false
  end.

(** Highest position among [a, a+1, ..., a+n-1] at which [sub] occurs. *)
Fixpoint rfind_from (l sub : list ascii) (a n : nat) : option nat :=
  match n with
  | O => None
  | S n' =>
      if is_prefix sub (drop (a + n') l) then Some (a + n')%nat
      else rfind_from l sub a n'
  end.

(** [s.rfind(sub, start, end)]: the highest index at which [sub] occurs
    inside [s[start:end]], or [-1]. *)
Definition rfind (s sub : string) (start stop : Z) : Z :=
  let n := len s in
  let m := len sub in
  let a := clamp n start in
  let b := clamp n stop in
  if b - a <? m then -1
  else match rfind_from (chars s) (chars sub) (Z.to_nat a)
               (Z.to_nat (b - m - a + 1)) with
       | Some i => Z.of_nat i
       | None => -1
       end.

(** Lowest position at which [sub] occurs in [l]. *)
Fixpoint contains_chars (sub l : list ascii) : bool :=
  is_prefix sub l
  || match l with
     | [] => false
     | _ :: l' => contains_chars sub l'
     end.

(** [sub in s] *)
Definition contains (sub s : string) : bool := contains_chars (chars sub) (chars s).

(** [s.split()]: the maximal runs of characters that are not white space.
    [cur] holds the run being read, reversed. *)
Fixpoint split_chars (cur : list ascii) (l : list ascii) : list string :=
  match l with
  | [] => match cur with [] => [] | _ => [str (rev cur)] end
  | c :: l' =>
      if isspace c
      then match cur with
           | [] => split_chars [] l'
           | _ => str (rev cur) :: split_chars [] l'
           end
      else split_chars (c :: cur) l'
  end.

Definition split (s : string) : list string := split_chars [] (chars s).

(** [re.findall(r"\d+", s)]: the maximal runs of decimal digits.  [cur]
    holds the run being read, reversed. *)
Fixpoint findall_digits_chars (cur : list ascii) (l : list ascii) : list string :=
  match l with
  | [] => match cur with [] => [] | _ => [str (rev cur)] end
  | c :: l' =>
      let n := nat_of_ascii c in
      if ((48 <=? n) && (n <=? 57))%nat then findall_digits_chars (c :: cur) l'
      else match cur with
           | [] => findall_digits_chars [] l'
           | _ => str (rev cur) :: findall_digits_chars [] l'
           end
  end.

Definition findall_digits (s : string) : list string :=
  findall_digits_chars [] (chars s).

Definition lower_char (c : ascii) : ascii :=
  let n := nat_of_ascii c in
  if ((65 <=? n) && (n <=? 90)
      || (192 <=? n) && (n <=? 222) && negb (n =? 215))%nat
  then ascii_of_nat (n + 32) else c.

(** [s.lower()]: the upper-case letters below 256 are [A-Z] and the
    code points 192 to 222 without the multiplication sign 215. *)
Definition lower (s : string) : string := str (map lower_char (chars s)).

End PyStr.

(** ** Text helpers ([app/utils/helpers.py]) *)

Module Helpers.
Import PyStr.

(** [truncate_text]; the default of [max_length] is 1000. *)
Definition truncate_text (text : string) (max_length : option Z) : string :=
  let max_length := default 1000 max_length in
  if len text <=? max_length then text
  else slice text 0 max_length +:+ "...".

Definition quote_char : ascii := ascii_of_nat 34.

(** The character class of the pattern of [sanitize_filename]: the
    backslash, the slash, [*], [?], the double quote, [<], [>] and [|]. *)
Definition unsafe_chars : list ascii := chars "\/*?" ++ [quote_char] ++ chars "<>|".

Definition is_unsafe (c : ascii) : bool := existsb (Ascii.eqb c) unsafe_chars.

(** [sanitize_filename]: [re.sub] with the empty replacement deletes every
    character of the class, and [replace] turns every space into [_]. *)
Definition sanitize_filename (filename : string) : string :=
  let filename := str (List.filter (fun c => negb (is_unsafe c)) (chars filename)) in
  str (map (fun c => if Ascii.eqb c " " then "_"%char else c) (chars filename)).
End Helpers.

(** ** The text chunker ([app/rag/processing/chunking.py]) *)

Module Chunking.
Import PyStr.

(** [settings.CHUNK_SIZE] and [settings.CHUNK_OVERLAP] of [app/config.py]. *)
Definition CHUNK_SIZE : Z := 1000.
Definition CHUNK_OVERLAP : Z := 200.

Record TextChunker : Type := {
  chunk_size : Z;
  chunk_overlap : Z
}.

(** [TextChunker.__init__] *)
Definition init (size overlap : option Z) : TextChunker :=
  {| chunk_size := int_or size CHUNK_SIZE;
     chunk_overlap := int_or overlap CHUNK_OVERLAP |}.

Record chunk : Type := {
  content : string;
  metadata : gmap string pyval;
  chunk_index : Z
}.

Definition meta_int (c : chunk) (key : string) : Z :=
  match metadata c !! key with
  | Some (PInt z) => z
  | _ => 0
  end.

Definition start_char (c : chunk) : Z := meta_int c "start_char".
Definition end_char (c : chunk) : Z := meta_int c "end_char".

Definition newline : string := String (ascii_of_nat 10) EmptyString.

(** The boundary markers, in the order the source tries them. *)
Definition boundaries : list string :=
  [". "; "? "; "! "; newline +:+ newline; newline].

(** The [for boundary in ...] loop: the first marker found inside the
    window moves the cut right after its last occurrence; [None] is the
    loop's [else] branch. *)
Fixpoint boundary_cut (text : string) (bs : list string) (start stop : Z)
  : option Z :=
  match bs with
  | [] => None
  | b :: bs' =>
      let boundary_pos := rfind text b start stop in
      if boundary_pos =? -1 then boundary_cut text bs' start stop
      else Some (boundary_pos + len b)
  end.

(** The value of [end] when the chunk is extracted. *)
Definition cut_point (self : TextChunker) (text : string) (start : Z) : Z :=
  let end0 := start + chunk_size self in
  let end1 :=
    if end0 <? len text then
      match boundary_cut text boundaries start end0 with
      | Some e => e
      | None =>
          let space_pos := rfind text " " start end0 in
          if space_pos =? -1 then end0 else space_pos + 1
      end
    else end0 in
  if end1 <=? start then Z.min (start + chunk_size self) (len text) else end1.

(** The value of [start] for the next iteration. *)
Definition next_start (self : TextChunker) (prev_start stop : Z) : Z :=
  let start := stop - chunk_overlap self in
  if start <=? prev_start
  then prev_start + Z.max 1 (chunk_size self - chunk_overlap self)
  else start.

Definition make_chunk (base : gmap string pyval) (text : string)
    (idx start stop : Z) : chunk :=
  {| content := strip (slice text start stop);
     metadata :=
       <["end_char" := PInt stop]>
         (<["start_char" := PInt start]>
            (<["chunk_index" := PInt idx]> base));
     chunk_index := idx |}.

(** The [while start < len(text)] loop.  [None] means that the loop was
    still running when the fuel ran out. *)
Fixpoint chunk_loop (fuel : nat) (self : TextChunker) (text : string)
    (base : gmap string pyval) (start idx : Z) : option (list chunk) :=
  if start <? len text then
    match fuel with
    | O => None
    | S fuel' =>
        let stop := cut_point self text start in
        match chunk_loop fuel' self text base
                (next_start self start stop) (idx + 1) with
        | Some rest => Some (make_chunk base text idx start stop :: rest)
        | None => None
        end
    end
  else Some [].

(** The chunks the loop appends when it is entered with [start] and
    [chunk_index], as a relation: one rule per way through the loop test. *)
Inductive chunks_from (self : TextChunker) (text : string)
    (base : gmap string pyval) : Z -> Z -> list chunk -> Prop :=
| chunks_done start idx :
    len text <= start -> chunks_from self text base start idx []
| chunks_step start idx rest :
    start < len text ->
    chunks_from self text base
      (next_start self start (cut_point self text start)) (idx + 1) rest ->
    chunks_from self text base start idx
      (make_chunk base text idx start (cut_point self text start) :: rest).

(** [not text or not text.strip()] *)
Definition is_blank (text : string) : bool :=
  match text with
  | EmptyString => true
  | _ => match strip text with EmptyString => true | _ => false end
  end.

(** [TextChunker.chunk_text]; [metadata or {}] is [base]. *)
Definition chunk_text (self : TextChunker) (text : string)
    (base : gmap string pyval) : option (list chunk) :=
  if is_blank text then Some []
  else chunk_loop (String.length text) self text base 0 0.

(** The characters of the source text a chunk spans, before stripping. *)
Definition raw_text (text : string) (c : chunk) : string :=
  slice text (start_char c) (end_char c).

(** [s[overlap:]]: a chunk's text without the region it shares with its
    predecessor. *)
Definition without_overlap (overlap : Z) (s : string) : string :=
  slice s overlap (len s).

Definition concat_str (l : list string) : string :=
  fold_right String.append EmptyString l.

(** Concatenation of the chunks' spans with the overlap regions removed. *)
Definition reconstruct (text : string) (overlap : Z) (cs : list chunk) : string :=
  match cs with
  | [] => EmptyString
  | c :: rest =>
      raw_text text c
      +:+ concat_str (map (fun c' => without_overlap overlap (raw_text text c')) rest)
  end.

(** The same with the chunks' stored contents, as the specification words
    it. *)
Definition reconstruct_contents (overlap : Z) (cs : list chunk) : string :=
  match cs with
  | [] => EmptyString
  | c :: rest =>
      content c +:+ concat_str (map (fun c' => without_overlap overlap (content c')) rest)
  end.

(** A chunk whose cut lies more than [overlap] characters after its start:
    the next window then starts at [end - overlap]. *)
Definition advances (overlap : Z) (c : chunk) : Prop :=
  overlap < end_char c - start_char c.

Definition ceil_div (a b : Z) : Z := (a + b - 1) / b.

Fixpoint increasing (l : list Z) : Prop :=
  match l with
  | a :: (b :: _) as l' => a < b /\ increasing l'
  | _ => True
  end.

(** [page_info.get("text", "")], as far as [.strip()] can be called on it:
    a value that is not a string has no such method. *)
Definition page_text (page_info : gmap string pyval) : result string :=
  match page_info !! "text" with
  | None => Ok ""
  | Some (PStr s) => Ok s
  | Some (PInt _) =>
      Raise (Exn OtherException "'int' object has no attribute 'strip'")
  | Some PNone =>
      Raise (Exn OtherException "'NoneType' object has no attribute 'strip'")
  end.

(** [chunk["chunk_index"] = i] followed by
    [chunk["metadata"]["chunk_index"] = i] *)
Definition set_chunk_index (c : chunk) (i : Z) : chunk :=
  {| content := content c;
     metadata := <["chunk_index" := PInt i]> (metadata c);
     chunk_index := i |}.

(** The loop [for chunk in page_chunks], entered with
    [global_chunk_index = i]. *)
Fixpoint reindex (page_chunks : list chunk) (i : Z) : list chunk :=
  match page_chunks with
  | [] => []
  | c :: rest => set_chunk_index c i :: reindex rest (i + 1)
  end.

(** The loop [for page_info in page_texts] of [chunk_text_by_pages], entered
    with the counter [global_chunk_index]; what it returns is what it
    appends to [all_chunks].  The outer [None] is that of [chunk_text]. *)
Fixpoint pages_loop (self : TextChunker) (page_texts : list (gmap string pyval))
    (base_metadata : option (gmap string pyval)) (global_chunk_index : Z)
  : option (result (list chunk)) :=
  match page_texts with
  | [] => Some (Ok [])
  | page_info :: rest =>
      let page_num := default PNone (page_info !! "page") in
      match page_text page_info with
      | Raise e => Some (Raise e)
      | Ok text =>
          if String.eqb (strip text) ""
          then pages_loop self rest base_metadata global_chunk_index
          else
            let page_metadata := <["page" := page_num]> (default ∅ base_metadata) in
            match chunk_text self text page_metadata with
            | None => None
            | Some page_chunks =>
                match pages_loop self rest base_metadata
                        (global_chunk_index + Z.of_nat (length page_chunks)) with
                | Some (Ok more) =>
                    Some (Ok (reindex page_chunks global_chunk_index ++ more))
                | other => other
                end
            end
      end
  end.

(** [TextChunker.chunk_text_by_pages] *)
Definition chunk_text_by_pages (self : TextChunker)
    (page_texts : list (gmap string pyval))
    (base_metadata : option (gmap string pyval)) : option (result (list chunk)) :=
  pages_loop self page_texts base_metadata 0.

(** Two pages with text and a blank one between them, cut by a chunker
    with windows of eight characters. *)
Definition example_pages : list (gmap string pyval) :=
  [ {[ "page" := PInt 1; "text" := PStr "One. Two. Three." ]};
    {[ "page" := PInt 2; "text" := PStr "   " ]};
    {[ "page" := PInt 3; "text" := PStr "Four." ]} ].

End Chunking.

(** ** Retrieval results *)

(** The dictionaries the retrievers exchange.  One record covers a stored
    chunk, a BM25 hit, a vector hit, a fused hit and a reranked hit: a key
    that a given dictionary does not have is [None]. *)
Record doc : Type := {
  doc_id : option string;
  doc_content : option string;
  doc_metadata : option (gmap string pyval);
  doc_score : option Q;
  doc_distance : option Q;
  doc_source : option string;
  doc_chunk_index : option Z;
  doc_rrf_score : option Q;
  doc_sources : option (list string);
  doc_rerank_score : option Q
}.

(** A dictionary with the keys ["id"] and ["source"] only. *)
Definition doc_with_id (i source : string) : doc :=
  {| doc_id := Some i; doc_content := None; doc_metadata := None;
     doc_score := None; doc_distance := None; doc_source := Some source;
     doc_chunk_index := None; doc_rrf_score := None; doc_sources := None;
     doc_rerank_score := None |}.

(** [d.get("id") or fallback]: a missing and an empty id are both falsy. *)
Definition id_or (d : doc) (fallback : string) : string :=
  match doc_id d with
  | Some i => if String.eqb i "" then fallback else i
  | None => fallback
  end.

(** ** Embeddings ([app/rag/processing/embedding.py]) *)

Module Embedding.

Section Generator.

(** The embedding service is outside the program: [generate_embedding] is
    the method of that name, which asks the service for the embedding of
    one text and raises when the request fails. *)
Variable generate_embedding : string -> result (list Q).

(** [[0.0] * 768] *)
Definition zero_vector : list Q := repeat 0%Q 768.

(** The [try] statement inside the loop over a batch: the embedding of the
    text, or the zero vector when the request raises. *)
Definition embed_or_zero (text : string) : list Q :=
  match generate_embedding text with
  | Ok embedding => embedding
  | Raise _ => zero_vector
  end.

Definition batch_size : nat := 10.

(** [range(0, n, batch_size)] *)
Definition batch_starts (n : nat) : list nat :=
  map (fun j => (batch_size * j)%nat) (seq 0 ((n + batch_size - 1) / batch_size)).

(** [EmbeddingGenerator.generate_embeddings]: for every start [i] of the
    range, the texts [texts[i : i + batch_size]] are embedded one by one. *)
Definition generate_embeddings (texts : list string) : list (list Q) :=
  flat_map (fun i => map embed_or_zero (take batch_size (drop i texts)))
    (batch_starts (length texts)).

End Generator.

End Embedding.

(** ** The vector store ([app/rag/retrieval/vector_retriever.py]) *)

Module Vector.
Import Chunking.

Definition underscore : ascii := "_"%char.

(** [f"doc_{document_id}_chunk_{chunk['chunk_index']}_user_{user_id}"] *)
Definition chroma_id (document_id chunk_index user_id : Z) : string :=
  "doc_" +:+ str_of_int document_id +:+ "_chunk_" +:+ str_of_int chunk_index
  +:+ "_user_" +:+ str_of_int user_id.

(** The arguments of one call of [collection.add]. *)
Record batch : Type := {
  ids : list string;
  documents : list string;
  metadatas : list (gmap string pyval);
  embeddings : list (list Q)
}.

(** [meta = chunk["metadata"].copy()] followed by [meta.update(...)] *)
Definition chunk_meta (document_id user_id : Z) (c : chunk) : gmap string pyval :=
  <["chunk_index" := PInt (chunk_index c)]>
    (<["user_id" := PInt user_id]>
       (<["document_id" := PInt document_id]> (metadata c))).

Section Store.

Variable generate_embedding : string -> result (list Q).

(** The collection is outside the program: [collection_add] is
    [self.collection.add], which raises when the store rejects the batch. *)
Variable collection_add : batch -> result unit.

(** What [add_documents] hands to the collection. *)
Definition add_batch (chunks : list chunk) (document_id user_id : Z) : batch :=
  {| ids := map (fun c => chroma_id document_id (chunk_index c) user_id) chunks;
     documents := map content chunks;
     metadatas := map (chunk_meta document_id user_id) chunks;
     embeddings :=
       Embedding.generate_embeddings generate_embedding (map content chunks) |}.

(** [VectorRetriever.add_documents] *)
Definition add_documents (chunks : list chunk) (document_id user_id : Z)
  : result (list string) :=
  let b := add_batch chunks document_id user_id in
  _ ← collection_add b;
  Ok (ids b).

End Store.

(** The dictionary [collection.query] returns: under each key a list with
    one row per query embedding; a field is [None] when the key is absent
    or holds [None].  The metadata of a stored chunk is the dictionary
    [add_documents] built for it. *)
Record QueryResult : Type := {
  qr_ids : option (list (list string));
  qr_documents : option (list (list string));
  qr_metadatas : option (list (list (gmap string pyval)));
  qr_distances : option (list (list Q))
}.

(** [results[key][0][i] if results.get(key) else default] *)
Definition entry {A : Type} (value : option (list (list A))) (i : nat) (default : A)
  : result A :=
  match value with
  | Some (row :: _) =>
      match row !! i with
      | Some v => Ok v
      | None => Raise (Exn IndexError "list index out of range")
      end
  | _ => Ok default
  end.

(** The loop [for i, doc in enumerate(results["documents"][0])], entered at
    the position [i]. *)
Fixpoint format_hits (results : QueryResult) (i : nat) (docs : list string)
  : result (list doc) :=
  match docs with
  | [] => Ok []
  | d :: rest =>
      id ← entry (qr_ids results) i ("vec_" +:+ str_of_int (Z.of_nat i));
      md ← entry (qr_metadatas results) i ∅;
      distance ← entry (qr_distances results) i 0%Q;
      more ← format_hits results (S i) rest;
      Ok ({| doc_id := Some id; doc_content := Some d; doc_metadata := Some md;
             doc_score := None; doc_distance := Some distance;
             doc_source := Some "vector"; doc_chunk_index := None;
             doc_rrf_score := None; doc_sources := None;
             doc_rerank_score := None |} :: more)
  end.

Section Search.

Variable generate_embedding : string -> result (list Q).

(** [collection_query query_embedding top_k user_id] is
    [self.collection.query(query_embeddings=[query_embedding],
    n_results=top_k, where={"user_id": user_id})]; [None] stands for a
    result that is falsy. *)
Variable collection_query : list Q -> Z -> Z -> result (option QueryResult).

(** [VectorRetriever.search] *)
Definition search (query : string) (user_id : Z) (top_k : Z) : result (list doc) :=
  query_embedding ← generate_embedding query;
  results ← collection_query query_embedding top_k user_id;
  match results with
  | Some r =>
      match qr_documents r with
      | Some ((_ :: _) as row :: _) => format_hits r 0 row
      | _ => Ok []
      end
  | None => Ok []
  end.

End Search.

(** A store with two chunks of one document, at increasing distance. *)
Definition example_query (embedding : list Q) (top_k user_id : Z)
  : result (option QueryResult) :=
  Ok (Some {| qr_ids := Some [["doc_1_chunk_0_user_1"; "doc_1_chunk_1_user_1"]];
              qr_documents := Some [["Paris is the capital of France.";
                                     "It has two million inhabitants."]];
              qr_metadatas := Some [[ {["document_id" := PInt 1]};
                                      {["document_id" := PInt 1]} ]];
              qr_distances := Some [[1 # 4; 3 # 4]%Q] |}).

End Vector.

(** ** The keyword index ([app/rag/retrieval/bm25_retriever.py]) *)

Module BM25.

(** [settings.BM25_TOP_K] *)
Definition BM25_TOP_K : Z := 10.

(** [BM25Retriever._tokenize] *)
Definition _tokenize (text : string) : list string := PyStr.split (PyStr.lower text).

Section Retriever.

(** The [rank_bm25] package is not part of the repository: the index object
    and its two entry points are parameters.  [bm25_new] is the constructor
    [BM25Okapi(tokenized_corpus)] and [get_scores] the method of that name,
    which returns one score per document of the corpus it was built from. *)
Variable BM25Okapi : Type.
Variable bm25_new : list (list string) -> result BM25Okapi.
Variable get_scores : BM25Okapi -> list string -> result (list Q).

Record BM25Retriever : Type := {
  corpus : list doc;
  tokenized_corpus : list (list string);
  bm25 : option BM25Okapi
}.

(** [BM25Retriever.__init__] *)
Definition init : BM25Retriever :=
  {| corpus := []; tokenized_corpus := []; bm25 := None |}.

(** The loop that checks every chunk for its ["content"] key. *)
Fixpoint check_content (chunks : list doc) : result unit :=
  match chunks with
  | [] => Ok tt
  | c :: rest =>
      match doc_content c with
      | None => Raise (Exn ValueError "Chunk missing required key: 'content'")
      | Some _ => check_content rest
      end
  end.

Definition content_tokens (c : doc) : list string :=
  match doc_content c with
  | Some text => _tokenize text
  | None => []
  end.

(** [BM25Retriever.build_index]: the retriever after the call and whether
    the call returned or raised.  Both [except] clauses re-raise, so the
    attributes assigned before the failure keep their new values. *)
Definition build_index (self : BM25Retriever) (chunks : list doc)
  : BM25Retriever * result unit :=
  match chunks with
  | [] => (self, Ok tt)
  | _ =>
      let self1 := {| corpus := chunks;
                      tokenized_corpus := tokenized_corpus self;
                      bm25 := bm25 self |} in
      match check_content chunks with
      | Raise e => (self1, Raise e)
      | Ok _ =>
          let self2 := {| corpus := chunks;
                          tokenized_corpus := map content_tokens chunks;
                          bm25 := bm25 self |} in
          match bm25_new (map content_tokens chunks) with
          | Raise e => (self2, Raise e)
          | Ok index =>
              ({| corpus := chunks;
                  tokenized_corpus := map content_tokens chunks;
                  bm25 := Some index |}, Ok tt)
          end
      end
  end.

Definition nth_score (scores : list Q) (i : nat) : Q := nth i scores 0%Q.

(** The dictionary appended for corpus position [idx]. *)
Definition hit (chunk : doc) (idx : nat) (score : Q) (text : string) : doc :=
  {| doc_id := Some (id_or chunk ("bm25_" +:+ str_of_int (Z.of_nat idx)));
     doc_content := Some text;
     doc_metadata := Some (default ∅ (doc_metadata chunk));
     doc_score := Some score;
     doc_distance := None;
     doc_source := Some "bm25";
     doc_chunk_index := Some (default (Z.of_nat idx) (doc_chunk_index chunk));
     doc_rrf_score := None;
     doc_sources := None;
     doc_rerank_score := None |}.

(** The [for idx in ranked_indices] loop. *)
Fixpoint collect (corpus : list doc) (scores : list Q) (ranked : list nat)
  : result (list doc) :=
  match ranked with
  | [] => Ok []
  | idx :: rest =>
      let score := nth_score scores idx in
      if Qle_bool score 0 then collect corpus scores rest
      else
        match corpus !! idx with
        | None => Raise (Exn IndexError "list index out of range")
        | Some chunk =>
            match doc_content chunk with
            | None => Raise (Exn KeyError "'content'")
            | Some text =>
                results ← collect corpus scores rest;
                Ok (hit chunk idx score text :: results)
            end
        end
  end.

(** The body of the [try] block of [search]. *)
Definition search_body (self : BM25Retriever) (index : BM25Okapi)
    (query : string) (top_k : Z) : result (list doc) :=
  let tokenized_query := _tokenize query in
  scores ← get_scores index tokenized_query;
  let ranked_indices :=
    py_take top_k (sorted_desc (nth_score scores) (seq 0 (length scores))) in
  collect (corpus self) scores ranked_indices.

(** [BM25Retriever.search]; both [except] clauses return the empty list. *)
Definition search (self : BM25Retriever) (query : string) (top_k : option Z)
  : result (list doc) :=
  let top_k := default BM25_TOP_K top_k in
  match bm25 self, corpus self with
  | None, _ | _, [] => Ok []
  | Some index, _ :: _ =>
      match search_body self index query top_k with
      | Ok results => Ok results
      | Raise _ => Ok []
      end
  end.

End Retriever.

(** A stand-in for the ranking function, to run the retriever on examples:
    the index is the tokenized corpus, and a document's score is the number
    of query tokens that occur in it. *)
Definition overlap_new (tokenized : list (list string)) : result (list (list string)) :=
  Ok tokenized.

Definition overlap_scores (index : list (list string)) (query : list string)
  : result (list Q) :=
  Ok (map (fun d => inject_Z (Z.of_nat (length
             (filter (fun t => existsb (String.eqb t) d) query)))) index).

(** A stored chunk as [RAGPipeline.build_user_index] formats it. *)
Definition stored_chunk (text : string) (idx : Z) : doc :=
  {| doc_id := None; doc_content := Some text; doc_metadata := Some ∅;
     doc_score := None; doc_distance := None; doc_source := None;
     doc_chunk_index := Some idx; doc_rrf_score := None; doc_sources := None;
     doc_rerank_score := None |}.

End BM25.

(** ** Reciprocal rank fusion ([app/rag/retrieval/hybrid_retriever.py]) *)

Module Hybrid.

(** [self.rrf_k] *)
Definition rrf_k : Z := 60.

(** [settings.VECTOR_TOP_K] and [settings.HYBRID_TOP_K] *)
Definition VECTOR_TOP_K : Z := 10.
Definition HYBRID_TOP_K : Z := 5.

(** A value of the [fused] dictionary. *)
Record fused_entry : Type := {
  fe_result : doc;
  fe_rrf_score : Q;
  fe_sources : list string
}.

(** [chunk_id = result.get("id") or f"{source}_{rank}"] *)
Definition chunk_id (source : string) (rank : nat) (result : doc) : string :=
  id_or result (source +:+ "_" +:+ str_of_int (Z.of_nat rank)).

(** [score = 1.0 / (self.rrf_k + rank + 1)] *)
Definition rank_score (rank : nat) : Q :=
  fdiv 1 (float_of_int (rrf_k + Z.of_nat rank + 1)).

Arguments rank_score : simpl never.

(** [fused] keeps its keys in insertion order, which is the order
    [fused.values()] hands to [sorted]: an association list. *)
Fixpoint dict_get (fused : list (string * fused_entry)) (key : string)
  : option fused_entry :=
  match fused with
  | [] => None
  | (k, e) :: rest => if String.eqb k key then Some e else dict_get rest key
  end.

Fixpoint dict_alter (f : fused_entry -> fused_entry)
    (fused : list (string * fused_entry)) (key : string)
  : list (string * fused_entry) :=
  match fused with
  | [] => []
  | (k, e) :: rest =>
      if String.eqb k key then (k, f e) :: rest
      else (k, e) :: dict_alter f rest key
  end.

(** [s.add(x)] on a set of strings kept as the sorted list of its elements,
    which is what [sorted(item["sources"])] returns at the end. *)
Fixpoint set_add (x : string) (s : list string) : list string :=
  match s with
  | [] => [x]
  | y :: s' =>
      if String.eqb x y then s
      else if String.ltb x y then x :: s
      else y :: set_add x s'
  end.

(** One iteration of the loop of [add_results]. *)
Definition add_result (fused : list (string * fused_entry)) (source : string)
    (rank : nat) (result : doc) : list (string * fused_entry) :=
  let key := chunk_id source rank result in
  let score := rank_score rank in
  let fused1 :=
    match dict_get fused key with
    | Some _ => fused
    | None =>
        fused ++ [(key, {| fe_result := result; fe_rrf_score := 0; fe_sources := [] |})]
    end in
  dict_alter
    (fun e => {| fe_result := fe_result e;
                 fe_rrf_score := fadd (fe_rrf_score e) score;
                 fe_sources := set_add source (fe_sources e) |})
    fused1 key.

(** [add_results(results, source)], entered with the dictionary [fused];
    [rank] is the counter of [enumerate]. *)
Fixpoint add_results (fused : list (string * fused_entry)) (source : string)
    (rank : nat) (results : list doc) : list (string * fused_entry) :=
  match results with
  | [] => fused
  | result :: rest =>
      add_results (add_result fused source rank result) source (S rank) rest
  end.

(** The dictionary after both lists have been added. *)
Definition fuse (bm25_results vector_results : list doc)
  : list (string * fused_entry) :=
  add_results (add_results [] "bm25" 0 bm25_results) "vector" 0 vector_results.

(** [ranked = sorted(fused.values(), key=..., reverse=True)] *)
Definition ranked (bm25_results vector_results : list doc) : list fused_entry :=
  sorted_desc fe_rrf_score (map snd (fuse bm25_results vector_results)).

(** The dictionary appended to [final_results] for one ranked item. *)
Definition final_result (item : fused_entry) : doc :=
  let result := fe_result item in
  {| doc_id := doc_id result;
     doc_content := doc_content result;
     doc_metadata := doc_metadata result;
     doc_score := doc_score result;
     doc_distance := doc_distance result;
     doc_source := Some "hybrid";
     doc_chunk_index := doc_chunk_index result;
     doc_rrf_score := Some (py_round (fe_rrf_score item) 6);
     doc_sources := Some (fe_sources item);
     doc_rerank_score := doc_rerank_score result |}.

(** [HybridRetriever._reciprocal_rank_fusion] *)
Definition _reciprocal_rank_fusion (bm25_results vector_results : list doc)
    (top_k : Z) : list doc :=
  map final_result (py_take top_k (ranked bm25_results vector_results)).

(** The keys under which the results of one list are accumulated, the
    first of them at rank [rank]. *)
Fixpoint keys_from (source : string) (rank : nat) (results : list doc)
  : list string :=
  match results with
  | [] => []
  | result :: rest => chunk_id source rank result :: keys_from source (S rank) rest
  end.

Definition keys (source : string) (results : list doc) : list string :=
  keys_from source 0 results.

(** What one list adds to the score of the key [k]: one rank term per
    position of the list that has this key, in the order of the list. *)
Fixpoint contributions (source : string) (rank : nat) (results : list doc)
    (k : string) : list Q :=
  match results with
  | [] => []
  | result :: rest =>
      (if String.eqb (chunk_id source rank result) k then [rank_score rank] else [])
      ++ contributions source (S rank) rest k
  end.

(** [r["rrf_score"]] of a returned dictionary. *)
Definition out_score (r : doc) : Q := default 0%Q (doc_rrf_score r).

(** [fused[k]["rrf_score"]], and [0] for a key the dictionary lacks. *)
Definition score_of (fused : list (string * fused_entry)) (k : string) : Q :=
  match dict_get fused k with
  | Some e => fe_rrf_score e
  | None => 0
  end.


(** [HybridRetriever.search]: the keyword hits and the vector hits, fused.
    The vector store is not part of the repository; [vector_search] is
    [VectorRetriever.search], which raises when the embedding service or the
    store fails. *)
Definition search {BM25Okapi : Type}
    (get_scores : BM25Okapi -> list string -> result (list Q))
    (bm25_retriever : BM25.BM25Retriever BM25Okapi)
    (vector_search : string -> Z -> Z -> result (list doc))
    (query : string) (user_id : Z) (top_k : option Z) : result (list doc) :=
  let top_k := default HYBRID_TOP_K top_k in
  bm25_results ← BM25.search BM25Okapi get_scores bm25_retriever query
                   (Some BM25.BM25_TOP_K);
  vector_results ← vector_search query user_id VECTOR_TOP_K;
  Ok (_reciprocal_rank_fusion bm25_results vector_results top_k).

(** [fused[k]["sources"]], and the empty set for a key the dictionary
    lacks. *)
Definition sources_of (fused : list (string * fused_entry)) (k : string)
  : list string :=
  match dict_get fused k with
  | Some e => fe_sources e
  | None => []
  end.

(** The retrievers that returned the key [k], as [sorted] lists them. *)
Definition retrievers_of (bm25_results vector_results : list doc) (k : string)
  : list string :=
  (if bool_decide (k ∈ keys "bm25" bm25_results) then ["bm25"] else [])
  ++ (if bool_decide (k ∈ keys "vector" vector_results) then ["vector"] else []).

(** The entries [add_results] appends for a list of results whose keys are
    new and pairwise distinct: one per result, in the order of the list. *)
Fixpoint single_entries (source : string) (rank : nat) (results : list doc)
  : list (string * fused_entry) :=
  match results with
  | [] => []
  | result :: rest =>
      (chunk_id source rank result,
       {| fe_result := result;
          fe_rrf_score := fadd 0 (rank_score rank);
          fe_sources := [source] |})
      :: single_entries source (S rank) rest
  end.

(** Every entry is stored under the key of the result it holds. *)
Definition keyed (fused : list (string * fused_entry)) : Prop :=
  Forall (fun p => exists source rank, chunk_id source rank (fe_result p.2) = p.1) fused.

(** The entries of a result that fusion hands on as they are: all but
    ["source"], ["rrf_score"] and ["sources"]. *)
Definition payload (d : doc) :=
  (doc_id d, doc_content d, doc_metadata d, doc_score d, doc_distance d,
   doc_chunk_index d, doc_rerank_score d).

End Hybrid.

(** ** The reranker ([app/rag/retrieval/reranker.py]) *)

Module Rerank.

(** [settings.RERANK_TOP_K] *)
Definition RERANK_TOP_K : Z := 3.

Section Reranker.

(** The cross-encoder of [sentence_transformers] is not part of the
    repository: the model object and its [predict] method are parameters. *)
Variable CrossEncoder : Type.
Variable predict : CrossEncoder -> list (string * string) -> result (list Q).

Record Reranker : Type := { model : option CrossEncoder }.

(** [Reranker.__init__]: [loaded] is the outcome of [CrossEncoder(model_name)];
    when it raises, the reranker is left without a model. *)
Definition init (loaded : result CrossEncoder) : Reranker :=
  {| model := match loaded with Ok m => Some m | Raise _ => None end |}.

(** [pairs = [[query, doc["content"]] for doc in documents]] *)
Fixpoint make_pairs (query : string) (documents : list doc)
  : result (list (string * string)) :=
  match documents with
  | [] => Ok []
  | d :: rest =>
      match doc_content d with
      | None => Raise (Exn KeyError "'content'")
      | Some text => pairs ← make_pairs query rest; Ok ((query, text) :: pairs)
      end
  end.

(** [doc["rerank_score"] = float(score)] *)
Definition set_rerank_score (d : doc) (score : Q) : doc :=
  {| doc_id := doc_id d; doc_content := doc_content d;
     doc_metadata := doc_metadata d; doc_score := doc_score d;
     doc_distance := doc_distance d; doc_source := doc_source d;
     doc_chunk_index := doc_chunk_index d; doc_rrf_score := doc_rrf_score d;
     doc_sources := doc_sources d; doc_rerank_score := Some score |}.

(** The loop over [zip(documents, scores)].  It writes into the
    dictionaries of [documents] themselves: the result is that list as the
    caller sees it afterwards. *)
Fixpoint attach_scores (documents : list doc) (scores : list Q) : list doc :=
  match documents, scores with
  | d :: ds, s :: ss => set_rerank_score d s :: attach_scores ds ss
  | _, _ => documents
  end.

(** [sorted(documents, key=lambda doc: doc["rerank_score"], reverse=True)];
    the key function raises for a document without the key. *)
Definition sort_by_rerank_score (documents : list doc) : result (list doc) :=
  if forallb (fun d => bool_decide (is_Some (doc_rerank_score d))) documents
  then Ok (sorted_desc (fun d => default 0%Q (doc_rerank_score d)) documents)
  else Raise (Exn KeyError "'rerank_score'").

(** The body of the [try] block of [rerank], with the documents as the
    [except] clause finds them when the block raises. *)
Definition rerank_body (m : CrossEncoder) (query : string) (documents : list doc)
    (top_k : Z) : list doc * result (list doc) :=
  match make_pairs query documents with
  | Raise e => (documents, Raise e)
  | Ok pairs =>
      match predict m pairs with
      | Raise e => (documents, Raise e)
      | Ok scores =>
          let scored := attach_scores documents scores in
          match sort_by_rerank_score scored with
          | Raise e => (scored, Raise e)
          | Ok reranked_docs => (scored, Ok (py_take top_k reranked_docs))
          end
      end
  end.

(** [Reranker.rerank] *)
Definition rerank (self : Reranker) (query : string) (documents : list doc)
    (top_k : option Z) : result (list doc) :=
  match model self with
  | None =>
      Ok (match top_k with
          | Some k => if k =? 0 then documents else py_take k documents
          | None => documents
          end)
  | Some m =>
      match documents with
      | [] => Ok []
      | _ =>
          let top_k := int_or top_k RERANK_TOP_K in
          match rerank_body m query documents top_k with
          | (_, Ok results) => Ok results
          | (documents', Raise _) => Ok (py_take top_k documents')
          end
      end
  end.

End Reranker.

(** Two stand-ins for the model, to run the reranker on examples: one whose
    [predict] always fails, and one that scores a pair by the length of the
    document text. *)
Definition failing_predict (m : unit) (pairs : list (string * string))
  : result (list Q) :=
  Raise (Exn RuntimeError "model failure").

Definition length_predict (m : unit) (pairs : list (string * string))
  : result (list Q) :=
  Ok (map (fun p => inject_Z (PyStr.len (snd p))) pairs).

(** [doc["rerank_score"]] of a scored document. *)
Definition rerank_key (d : doc) : Q := default 0%Q (doc_rerank_score d).

(** A document without its ["rerank_score"] entry: what the reranker never
    changes. *)
Definition unscored (d : doc) :=
  (doc_id d, doc_content d, doc_metadata d, doc_score d, doc_distance d,
   doc_source d, doc_chunk_index d, doc_rrf_score d, doc_sources d).

End Rerank.

(** ** The tool registry and its evaluator ([app/rag/llm/tools.py]) *)

Module Tools.
Import PyStr.

(** *** The syntax trees of [ast.parse(expression, mode="eval")]

    Only the node classes that a string over the characters
    [0123456789+-*/()%. ] can produce are needed: numbers, [...], unary and
    binary operators, the empty tuple [()], and calls such as [1(2)], with
    a plain, a starred or a double-starred argument.  An [ast.Expr] node is never the body of a tree
    parsed in [eval] mode, so it has no constructor. *)

Inductive operator : Type := Add | Sub | Mult | Div | Mod | Pow | FloorDiv.
Inductive unaryop : Type := UAdd | USub.

Inductive constant : Type :=
| CInt (z : Z)
| CFloat (literal : string)
| CEllipsis.

#[warnings="-register-all"]
Inductive expr : Type :=
| Constant (value : constant)
| BinOp (l : expr) (op : operator) (r : expr)
| UnaryOp (op : unaryop) (operand : expr)
| Tuple (elts : list expr)
| Call (func : expr) (args : list expr) (keywords : list expr)
| Starred (value : expr).

Inductive token : Type :=
| TInt (z : Z)
| TFloat (literal : string)
| TEllipsis
| TDot
| TLpar
| TRpar
| TPlus
| TMinus
| TStar
| TDoubleStar
| TSlash
| TDoubleSlash
| TPercent.

(** [str(e)] of a [SyntaxError] raised while parsing a string. *)
Definition syntax_error (msg : string) : exn :=
  Exn SyntaxError (msg +:+ " (<unknown>, line 1)").

Definition is_digit (c : ascii) : bool :=
  let n := nat_of_ascii c in ((48 <=? n) && (n <=? 57))%nat.

Definition digit_value (c : ascii) : Z := Z.of_nat (nat_of_ascii c) - 48.

(** The value of a string of decimal digits. *)
Definition int_of_digits (ds : list ascii) : Z :=
  fold_left (fun acc c => 10 * acc + digit_value c) ds 0.

(** The number the tokenizer is reading, its characters in reverse. *)
Inductive numstate : Type :=
| InInt (rev_digits : list ascii)
| InFloat (rev_text : list ascii).

Definition push_digit (cur : option numstate) (c : ascii) : numstate :=
  match cur with
  | None => InInt [c]
  | Some (InInt ds) => InInt (c :: ds)
  | Some (InFloat t) => InFloat (c :: t)
  end.

Definition zero_char : ascii := ascii_of_nat 48.

(** The token of the number read so far.  A decimal integer with a leading
    zero must consist of zeros only. *)
Definition finish_number (cur : option numstate) : result (list token) :=
  match cur with
  | None => Ok []
  | Some (InInt ds) =>
      let digits := rev ds in
      if Ascii.eqb (hd zero_char digits) zero_char
         && negb (forallb (Ascii.eqb zero_char) digits)
      then Raise (syntax_error
             "leading zeros in decimal integer literals are not permitted; use an 0o prefix for octal integers")
      else Ok [TInt (int_of_digits digits)]
  | Some (InFloat t) => Ok [TFloat (str (rev t))]
  end.

Definition dot_char : ascii := ascii_of_nat 46.
Definition space_char : ascii := ascii_of_nat 32.

Definition single_char_token (c : ascii) : option token :=
  match nat_of_ascii c with
  | 40%nat => Some TLpar
  | 41%nat => Some TRpar
  | 43%nat => Some TPlus
  | 45%nat => Some TMinus
  | 37%nat => Some TPercent
  | 42%nat => Some TStar
  | 47%nat => Some TSlash
  | _ => None
  end.

(** The tokenizer, on one line of text. *)
Fixpoint lex (cur : option numstate) (l : list ascii) : result (list token) :=
  match l with
  | [] => finish_number cur
  | c :: rest =>
      if is_digit c then lex (Some (push_digit cur c)) rest
      else if Ascii.eqb c dot_char then
        match cur with
        | Some (InInt ds) => lex (Some (InFloat (c :: ds))) rest
        | _ =>
            num ← finish_number cur;
            toks ← match rest with
                   | d :: rest1 =>
                       if is_digit d then lex (Some (InFloat [c])) rest
                       else if Ascii.eqb d dot_char then
                         match rest1 with
                         | d2 :: rest2 =>
                             if Ascii.eqb d2 dot_char
                             then toks ← lex None rest2; Ok (TEllipsis :: toks)
                             else toks ← lex None rest; Ok (TDot :: toks)
                         | [] => toks ← lex None rest; Ok (TDot :: toks)
                         end
                       else toks ← lex None rest; Ok (TDot :: toks)
                   | [] => Ok [TDot]
                   end;
            Ok (num ++ toks)
        end
      else
        num ← finish_number cur;
        toks ← (if Ascii.eqb c space_char then lex None rest
                else match single_char_token c, rest with
                     | Some TStar, d :: rest1 =>
                         if Ascii.eqb d c
                         then toks ← lex None rest1; Ok (TDoubleStar :: toks)
                         else toks ← lex None rest; Ok (TStar :: toks)
                     | Some TSlash, d :: rest1 =>
                         if Ascii.eqb d c
                         then toks ← lex None rest1; Ok (TDoubleSlash :: toks)
                         else toks ← lex None rest; Ok (TSlash :: toks)
                     | Some t, _ => toks ← lex None rest; Ok (t :: toks)
                     | None, _ => Raise (syntax_error "invalid character")
                     end);
        Ok (num ++ toks)
  end.

(** CPython bounds the depth of a parse and raises when the bound is
    passed.  The parsing functions below recurse on a depth bound as well;
    [ast_parse] sets it to nine levels for every token, which no token list
    exhausts, so the embedding itself never raises this error. *)
Definition depth_exceeded : exn :=
  Exn RecursionError "maximum recursion depth exceeded".

(** The expression grammar of Python restricted to the tokens above:
[[
  sum:     term (('+'|'-') term)*
  term:    factor (('*'|'/'|'//'|'%') factor)*
  factor:  ('+'|'-') factor | power
  power:   primary ['**' factor]
  primary: atom ('(' [sum | '*' sum | '**' sum] ')')*
  atom:    NUMBER | '...' | '(' ')' | '(' sum ')'
]]
    Each function returns the tree and the tokens left. *)
Fixpoint parse_sum (fuel : nat) (ts : list token) {struct fuel}
  : result (expr * list token) :=
  match fuel with
  | O => Raise depth_exceeded
  | S fuel => p ← parse_term fuel ts; sum_rest fuel p.1 p.2
  end
with sum_rest (fuel : nat) (left : expr) (ts : list token) {struct fuel}
  : result (expr * list token) :=
  match fuel with
  | O => Raise depth_exceeded
  | S fuel =>
      match ts with
      | TPlus :: ts' => p ← parse_term fuel ts'; sum_rest fuel (BinOp left Add p.1) p.2
      | TMinus :: ts' => p ← parse_term fuel ts'; sum_rest fuel (BinOp left Sub p.1) p.2
      | _ => Ok (left, ts)
      end
  end
with parse_term (fuel : nat) (ts : list token) {struct fuel}
  : result (expr * list token) :=
  match fuel with
  | O => Raise depth_exceeded
  | S fuel => p ← parse_factor fuel ts; term_rest fuel p.1 p.2
  end
with term_rest (fuel : nat) (left : expr) (ts : list token) {struct fuel}
  : result (expr * list token) :=
  match fuel with
  | O => Raise depth_exceeded
  | S fuel =>
      match ts with
      | TStar :: ts' => p ← parse_factor fuel ts'; term_rest fuel (BinOp left Mult p.1) p.2
      | TSlash :: ts' => p ← parse_factor fuel ts'; term_rest fuel (BinOp left Div p.1) p.2
      | TDoubleSlash :: ts' =>
          p ← parse_factor fuel ts'; term_rest fuel (BinOp left FloorDiv p.1) p.2
      | TPercent :: ts' => p ← parse_factor fuel ts'; term_rest fuel (BinOp left Mod p.1) p.2
      | _ => Ok (left, ts)
      end
  end
with parse_factor (fuel : nat) (ts : list token) {struct fuel}
  : result (expr * list token) :=
  match fuel with
  | O => Raise depth_exceeded
  | S fuel =>
      match ts with
      | TPlus :: ts' => p ← parse_factor fuel ts'; Ok (UnaryOp UAdd p.1, p.2)
      | TMinus :: ts' => p ← parse_factor fuel ts'; Ok (UnaryOp USub p.1, p.2)
      | _ => parse_power fuel ts
      end
  end
with parse_power (fuel : nat) (ts : list token) {struct fuel}
  : result (expr * list token) :=
  match fuel with
  | O => Raise depth_exceeded
  | S fuel =>
      p ← parse_primary fuel ts;
      match p.2 with
      | TDoubleStar :: ts' => q ← parse_factor fuel ts'; Ok (BinOp p.1 Pow q.1, q.2)
      | _ => Ok p
      end
  end
with parse_primary (fuel : nat) (ts : list token) {struct fuel}
  : result (expr * list token) :=
  match fuel with
  | O => Raise depth_exceeded
  | S fuel => p ← parse_atom fuel ts; trailers fuel p.1 p.2
  end
with trailers (fuel : nat) (func : expr) (ts : list token) {struct fuel}
  : result (expr * list token) :=
  match fuel with
  | O => Raise depth_exceeded
  | S fuel =>
      match ts with
      | TLpar :: TRpar :: ts' => trailers fuel (Call func [] []) ts'
      | TLpar :: TStar :: ts' =>
          p ← parse_sum fuel ts';
          match p.2 with
          | TRpar :: ts'' => trailers fuel (Call func [Starred p.1] []) ts''
          | _ => Raise (syntax_error "invalid syntax")
          end
      | TLpar :: TDoubleStar :: ts' =>
          p ← parse_sum fuel ts';
          match p.2 with
          | TRpar :: ts'' => trailers fuel (Call func [] [p.1]) ts''
          | _ => Raise (syntax_error "invalid syntax")
          end
      | TLpar :: ts' =>
          p ← parse_sum fuel ts';
          match p.2 with
          | TRpar :: ts'' => trailers fuel (Call func [p.1] []) ts''
          | _ => Raise (syntax_error "invalid syntax")
          end
      | _ => Ok (func, ts)
      end
  end
with parse_atom (fuel : nat) (ts : list token) {struct fuel}
  : result (expr * list token) :=
  match fuel with
  | O => Raise depth_exceeded
  | S fuel =>
      match ts with
      | TInt z :: ts' => Ok (Constant (CInt z), ts')
      | TFloat literal :: ts' => Ok (Constant (CFloat literal), ts')
      | TEllipsis :: ts' => Ok (Constant CEllipsis, ts')
      | TLpar :: TRpar :: ts' => Ok (Tuple [], ts')
      | TLpar :: ts' =>
          p ← parse_sum fuel ts';
          match p.2 with
          | TRpar :: ts'' => Ok (p.1, ts'')
          | _ => Raise (syntax_error "'(' was never closed")
          end
      | _ => Raise (syntax_error "invalid syntax")
      end
  end.

(** [ast.parse(expression, mode="eval").body].  A line that starts with
    white space is an indentation error, which is a [SyntaxError]. *)
Definition ast_parse (expression : string) : result expr :=
  tokens ← lex None (chars expression);
  match tokens, chars expression with
  | [], _ => Raise (syntax_error "invalid syntax")
  | _, c :: _ =>
      if Ascii.eqb c space_char then Raise (syntax_error "unexpected indent")
      else
        p ← parse_sum (9 * length tokens + 9) tokens;
        match p.2 with
        | [] => Ok p.1
        | _ => Raise (syntax_error "invalid syntax")
        end
  | _, [] => Raise (syntax_error "invalid syntax")
  end.

(** [r] is the failure of a parse that passed the depth bound. *)
Definition is_depth_error {A : Type} (r : result A) : bool :=
  match r with
  | Raise e => exn_class_eqb (exn_cls e) RecursionError
  | Ok _ => false
  end.

(** A parsing function that stays within the depth bound on [rank] levels
    more than nine for every token, and that hands back fewer tokens than
    it was given ([strict]) or at most as many. *)
Definition within_depth (rank : nat) (strict : bool)
    (parse : list token -> result (expr * list token)) (fuel : nat) : Prop :=
  forall ts,
    (9 * length ts + rank <= fuel)%nat ->
    is_depth_error (parse ts) = false
    /\ forall e rest,
        parse ts = Ok (e, rest) ->
        if strict then (length rest < length ts)%nat
        else (length rest <= length ts)%nat.

(** *** Evaluation *)

(** A number the evaluator computes with: an [int], or a [float] or
    [complex] number. *)
Inductive value (X : Type) : Type :=
| VInt (z : Z)
| VInexact (x : X).
Arguments VInt {X} z.
Arguments VInexact {X} x.

(** Floating-point and complex arithmetic is the interpreter's and is taken
    as a parameter: the value of a float literal, the operators on operands
    of which one is not an [int] or whose result is not (true division, a
    negative power), and [str] of such a number.  [binop_inexact] raises
    what the interpreter raises, a [ZeroDivisionError] for a zero divisor
    among others. *)
Class Inexact : Type := {
  inexact : Type;
  float_literal : string -> inexact;
  binop_inexact : operator -> value inexact -> value inexact -> result (value inexact);
  unop_inexact : unaryop -> inexact -> inexact;
  str_inexact : inexact -> string
}.

Section Evaluator.
Context {F : Inexact}.

(** The operators of module [operator] on two [int]s.  The messages are
    those of CPython 3.12; [a mod b] and [a / b] on [Z] round towards minus
    infinity, as Python's [%] and [//] do. *)
Definition int_binop (op : operator) (a b : Z) : result (value inexact) :=
  match op with
  | Add => Ok (VInt (a + b))
  | Sub => Ok (VInt (a - b))
  | Mult => Ok (VInt (a * b))
  | Div =>
      if b =? 0 then Raise (Exn ZeroDivisionError "division by zero")
      else binop_inexact Div (VInt a) (VInt b)
  | Mod =>
      if b =? 0 then Raise (Exn ZeroDivisionError "integer modulo by zero")
      else Ok (VInt (a mod b))
  | Pow =>
      if 0 <=? b then Ok (VInt (a ^ b))
      else if a =? 0
           then Raise (Exn ZeroDivisionError "0.0 cannot be raised to a negative power")
           else binop_inexact Pow (VInt a) (VInt b)
  | FloorDiv =>
      if b =? 0 then Raise (Exn ZeroDivisionError "integer division or modulo by zero")
      else Ok (VInt (a / b))
  end.

Definition apply_binop (op : operator) (a b : value inexact)
  : result (value inexact) :=
  match a, b with
  | VInt x, VInt y => int_binop op x y
  | _, _ => binop_inexact op a b
  end.

Definition apply_unop (op : unaryop) (a : value inexact) : value inexact :=
  match a, op with
  | VInt x, UAdd => VInt x
  | VInt x, USub => VInt (- x)
  | VInexact x, _ => VInexact (unop_inexact op x)
  end.

(** The lookup [operators[type(node.op)]] for a binary operator: the
    dictionary has no entry for [ast.FloorDiv]. *)
Definition operators (op : operator)
  : result (value inexact -> value inexact -> result (value inexact)) :=
  match op with
  | FloorDiv => Raise (Exn KeyError "<class 'ast.FloorDiv'>")
  | _ => Ok (apply_binop op)
  end.

Definition node_class (node : expr) : string :=
  match node with
  | Constant _ => "Constant"
  | BinOp _ _ _ => "BinOp"
  | UnaryOp _ _ => "UnaryOp"
  | Tuple _ => "Tuple"
  | Call _ _ _ => "Call"
  | Starred _ => "Starred"
  end.

(** The inner function [_eval] of [_safe_eval]. *)
Fixpoint _eval (node : expr) : result (value inexact) :=
  match node with
  | Constant (CInt z) => Ok (VInt z)
  | Constant (CFloat literal) => Ok (VInexact (float_literal literal))
  | Constant CEllipsis =>
      Raise (Exn TypeError "Unsupported constant type: <class 'ellipsis'>")
  | BinOp l op r =>
      f ← operators op;
      a ← _eval l;
      b ← _eval r;
      f a b
  | UnaryOp op operand =>
      a ← _eval operand;
      Ok (apply_unop op a)
  | _ =>
      Raise (Exn TypeError
               ("Unsupported AST node: <class 'ast." +:+ node_class node +:+ "'>"))
  end.

(** The classes of the [except] clause of [_safe_eval]. *)
Definition caught_by_safe_eval (e : exn) : bool :=
  exn_isinstance e SyntaxError || exn_isinstance e KeyError
  || exn_isinstance e TypeError || exn_isinstance e ZeroDivisionError.

(** [ToolRegistry._safe_eval] *)
Definition _safe_eval (expression : string) : result (value inexact) :=
  match tree ← ast_parse expression; _eval tree with
  | Ok v => Ok v
  | Raise e =>
      if caught_by_safe_eval e
      then Raise (Exn ValueError ("Invalid expression: " +:+ exn_str e))
      else Raise e
  end.

(** [str(result)] *)
Definition str_value (v : value inexact) : string :=
  match v with
  | VInt z => str_of_int z
  | VInexact x => str_inexact x
  end.

Definition allowed_chars : string := "0123456789+-*/()%. ".

(** [c in allowed_chars] *)
Definition is_allowed (c : ascii) : bool :=
  existsb (Ascii.eqb c) (chars allowed_chars).

(** [ToolRegistry.calculate].  The whole body is inside [try], and the
    handler catches [Exception]. *)
Definition calculate (expression : string) : result string :=
  let body : result string :=
    if forallb is_allowed (chars expression)
    then result ← _safe_eval expression; Ok (str_value result)
    else Ok "Error: Invalid characters in expression" in
  match body with
  | Ok s => Ok s
  | Raise e => Ok ("Error: " +:+ exn_str e)
  end.

End Evaluator.

(** The characters the specification lists for the pre-filter. *)
Definition spec_allowed_chars : string := "0123456789+-*/%().".

(** A character that can start an identifier: an ASCII letter or [_]. *)
Definition is_letter (c : ascii) : bool :=
  let n := nat_of_ascii c in
  ((65 <=? n) && (n <=? 90) || (97 <=? n) && (n <=? 122) || (n =? 95))%nat.

(** The classes of the failures the specification names: syntax errors,
    division or modulo by zero, and unsupported nodes, which [_eval]
    reports as a [TypeError] or, for an operator missing from [operators],
    as a [KeyError]. *)
Definition named_failure (e : exn) : bool :=
  match exn_cls e with
  | SyntaxError | ZeroDivisionError | TypeError | KeyError => true
  | _ => false
  end.

(** One step of [int_of_digits]. *)
Definition digit_step (acc : Z) (c : ascii) : Z := 10 * acc + digit_value c.

(** [sys.get_int_max_str_digits()]: the interpreter converts an [int] to a
    decimal string, and a decimal string to an [int], only up to this
    number of digits, and raises beyond it. *)
Definition int_max_str_digits : Z := 4300.

(** An integer that [str] and the parser convert: its numeral has at most
    [int_max_str_digits] digits. *)
Definition convertible (n : Z) : Prop := Z.abs n < 10 ^ int_max_str_digits.

(** The operator symbols and their tokens. *)
Definition operator_tokens : list (string * token) :=
  [("+", TPlus); ("-", TMinus); ("*", TStar); ("/", TSlash); ("%", TPercent);
   ("**", TDoubleStar); ("//", TDoubleSlash)].

(** The expression [f"{a}{op}{b}"]. *)
Definition binary (a : Z) (op : string) (b : Z) : string :=
  str_of_int a +:+ op +:+ str_of_int b.

(** The operator symbols with their tokens and their node classes. *)
Definition operator_nodes : list (string * token * operator) :=
  [("+", TPlus, Add); ("-", TMinus, Sub); ("*", TStar, Mult); ("/", TSlash, Div);
   ("%", TPercent, Mod); ("**", TDoubleStar, Pow); ("//", TDoubleSlash, FloorDiv)].

(** A tree of numbers, unary signs and the six binary operators of the
    table [operators]. *)
Fixpoint arithmetic (node : expr) : bool :=
  match node with
  | Constant (CInt _) | Constant (CFloat _) => true
  | BinOp l op r =>
      match op with FloorDiv => false | _ => arithmetic l && arithmetic r end
  | UnaryOp _ operand => arithmetic operand
  | _ => false
  end.

(** The integer a tree of integer literals, signs, sums, differences and
    products stands for. *)
Fixpoint int_value (node : expr) : option Z :=
  match node with
  | Constant (CInt z) => Some z
  | BinOp l Add r => a ← int_value l; b ← int_value r; Some (a + b)
  | BinOp l Sub r => a ← int_value l; b ← int_value r; Some (a - b)
  | BinOp l Mult r => a ← int_value l; b ← int_value r; Some (a * b)
  | UnaryOp UAdd operand => int_value operand
  | UnaryOp USub operand => a ← int_value operand; Some (- a)
  | _ => None
  end.

End Tools.

(** ** The tool executor ([app/rag/llm/tool_executor.py]) *)

Module ToolExec.
Import PyStr Tools.

(** A registered tool: it is called with keyword arguments and returns a
    string or raises. *)
Definition tool : Type := gmap string pyval -> result string.

Section Registry.
Context {F : Inexact}.

(** The clock is outside the program: [now] is [datetime.now()] rendered by
    the directives ["%Y-%m-%d %H:%M"]. *)
Variable now : string.

(** [ToolRegistry.get_current_date].  The format string of the source ends
    in the letter [S], not in the directive for seconds. *)
Definition get_current_date : string := now +:+ ":S".

(** Calling [get_current_date] with keyword arguments: the function takes
    none. *)
Definition get_current_date_tool : tool := fun kwargs =>
  match map_to_list kwargs with
  | [] => Ok get_current_date
  | _ => Raise (Exn TypeError
                  "ToolRegistry.get_current_date() got an unexpected keyword argument")
  end.

(** Calling [calculate] with keyword arguments: the function takes
    [expression] only.
    An argument that is not a string makes the loop over its characters
    raise inside the function's own [try]. *)
Definition calculate_tool : tool := fun kwargs =>
  match kwargs !! "expression", map_to_list kwargs with
  | Some v, [_] =>
      match v with
      | PStr expression => calculate expression
      | PInt _ => Ok "Error: 'int' object is not iterable"
      | PNone => Ok "Error: 'NoneType' object is not iterable"
      end
  | None, [] =>
      Raise (Exn TypeError
               "ToolRegistry.calculate() missing 1 required positional argument: 'expression'")
  | _, _ =>
      Raise (Exn TypeError "ToolRegistry.calculate() got an unexpected keyword argument")
  end.

(** [ToolRegistry.register_tool] *)
Definition register_tool (tools : gmap string tool) (name : string) (func : tool)
  : gmap string tool :=
  <[name := func]> tools.

(** [ToolRegistry.get_tool] *)
Definition get_tool (tools : gmap string tool) (name : string) : option tool :=
  tools !! name.

(** [ToolRegistry.__init__] with [_register_default_tools]: the module-level
    [tool_registry]. *)
Definition tool_registry : gmap string tool :=
  register_tool (register_tool ∅ "get_current_date" get_current_date_tool)
    "calculate" calculate_tool.

End Registry.

(** [ToolExecutor.execute_tool]; [registry] is [self.registry.tools]. *)
Definition execute_tool (registry : gmap string tool) (tool_name : string)
    (args : option (gmap string pyval)) : result string :=
  match get_tool registry tool_name with
  | None => Ok ("Error: Tool '" +:+ tool_name +:+ "' not found")
  | Some tool =>
      let tool_args := default ∅ args in
      match tool tool_args with
      | Ok result => Ok result
      | Raise e => Ok ("Error executing tool: " +:+ exn_str e)
      end
  end.

(** A tool that always raises, to run the executor on a failing tool. *)
Definition failing_tool (msg : string) : tool := fun _ => Raise (Exn ValueError msg).

End ToolExec.

(** ** The workflow ([app/rag/workflow/]) *)

Module Workflow.
Import PyStr.

(** [state["metadata"]] *)
Record Metadata : Type := {
  steps : list string;
  retrieval_time_ms : Q;
  generation_time_ms : Q;
  documents_retrieved : option Z;
  documents_reranked : option Z;
  context_documents_used : option Z
}.

(** [RAGState] of [state.py] *)
Record RAGState : Type := {
  query : string;
  user_id : Z;
  thread_id : option string;
  bm25_results : option (list doc);
  vector_results : option (list doc);
  hybrid_results : option (list doc);
  reranked_results : option (list doc);
  context_documents : option (list doc);
  answer : option string;
  tool_needed : option bool;
  tool_result : option string;
  metadata : Metadata;
  error : option string
}.

(** [create_initial_state] *)
Definition create_initial_state (q : string) (uid : Z) (tid : option string)
  : RAGState :=
  {| query := q; user_id := uid; thread_id := tid;
     bm25_results := None; vector_results := None; hybrid_results := None;
     reranked_results := None; context_documents := None; answer := None;
     tool_needed := None; tool_result := None;
     metadata := {| steps := []; retrieval_time_ms := 0; generation_time_ms := 0;
                    documents_retrieved := None; documents_reranked := None;
                    context_documents_used := None |};
     error := None |}.

(** The components [nodes.py] creates when it is loaded, and the clock.
    [hybrid_search] is [hybrid_retriever.search], [rerank] is
    [reranker.rerank], [generate_with_context] gives the ["answer"] entry of
    what [ollama_client.generate_with_context] returns, and [execute_tool] is
    [tool_executor.execute_tool].  The two times are what the nodes measure
    with [time.time()]. *)
Record Services : Type := {
  hybrid_search : string -> Z -> option Z -> result (list doc);
  rerank : string -> list doc -> option Z -> result (list doc);
  generate_with_context : string -> list doc -> result string;
  execute_tool : string -> option (gmap string pyval) -> result string;
  retrieval_elapsed_ms : Q;
  generation_elapsed_ms : Q
}.

(** Assignments to the keys of the state. *)
Definition set_metadata (st : RAGState) (m : Metadata) : RAGState :=
  {| query := query st; user_id := user_id st; thread_id := thread_id st;
     bm25_results := bm25_results st; vector_results := vector_results st;
     hybrid_results := hybrid_results st; reranked_results := reranked_results st;
     context_documents := context_documents st; answer := answer st;
     tool_needed := tool_needed st; tool_result := tool_result st;
     metadata := m; error := error st |}.

Definition set_error (st : RAGState) (e : string) : RAGState :=
  {| query := query st; user_id := user_id st; thread_id := thread_id st;
     bm25_results := bm25_results st; vector_results := vector_results st;
     hybrid_results := hybrid_results st; reranked_results := reranked_results st;
     context_documents := context_documents st; answer := answer st;
     tool_needed := tool_needed st; tool_result := tool_result st;
     metadata := metadata st; error := Some e |}.

Definition set_hybrid_results (st : RAGState) (results : list doc) : RAGState :=
  {| query := query st; user_id := user_id st; thread_id := thread_id st;
     bm25_results := bm25_results st; vector_results := vector_results st;
     hybrid_results := Some results; reranked_results := reranked_results st;
     context_documents := context_documents st; answer := answer st;
     tool_needed := tool_needed st; tool_result := tool_result st;
     metadata := metadata st; error := error st |}.

(** [state["reranked_results"] = docs] followed by
    [state["context_documents"] = docs] *)
Definition set_reranked (st : RAGState) (docs : list doc) : RAGState :=
  {| query := query st; user_id := user_id st; thread_id := thread_id st;
     bm25_results := bm25_results st; vector_results := vector_results st;
     hybrid_results := hybrid_results st; reranked_results := Some docs;
     context_documents := Some docs; answer := answer st;
     tool_needed := tool_needed st; tool_result := tool_result st;
     metadata := metadata st; error := error st |}.

Definition set_answer (st : RAGState) (a : string) : RAGState :=
  {| query := query st; user_id := user_id st; thread_id := thread_id st;
     bm25_results := bm25_results st; vector_results := vector_results st;
     hybrid_results := hybrid_results st; reranked_results := reranked_results st;
     context_documents := context_documents st; answer := Some a;
     tool_needed := tool_needed st; tool_result := tool_result st;
     metadata := metadata st; error := error st |}.

Definition set_tool_needed (st : RAGState) (b : bool) : RAGState :=
  {| query := query st; user_id := user_id st; thread_id := thread_id st;
     bm25_results := bm25_results st; vector_results := vector_results st;
     hybrid_results := hybrid_results st; reranked_results := reranked_results st;
     context_documents := context_documents st; answer := answer st;
     tool_needed := Some b; tool_result := tool_result st;
     metadata := metadata st; error := error st |}.

Definition set_tool_result (st : RAGState) (r : string) : RAGState :=
  {| query := query st; user_id := user_id st; thread_id := thread_id st;
     bm25_results := bm25_results st; vector_results := vector_results st;
     hybrid_results := hybrid_results st; reranked_results := reranked_results st;
     context_documents := context_documents st; answer := answer st;
     tool_needed := tool_needed st; tool_result := Some r;
     metadata := metadata st; error := error st |}.

(** [state["metadata"]["steps"].append(name)] *)
Definition append_step (st : RAGState) (name : string) : RAGState :=
  let m := metadata st in
  set_metadata st
    {| steps := steps m ++ [name];
       retrieval_time_ms := retrieval_time_ms m;
       generation_time_ms := generation_time_ms m;
       documents_retrieved := documents_retrieved m;
       documents_reranked := documents_reranked m;
       context_documents_used := context_documents_used m |}.

(** Truth values: an absent or empty string, and an absent or empty list,
    are falsy. *)
Definition truthy_str (o : option string) : bool :=
  match o with
  | Some s => negb (String.eqb s "")
  | None => false
  end.

Definition truthy_list {A : Type} (o : option (list A)) : bool :=
  match o with
  | Some (_ :: _) => true
  | _ => false
  end.

Section Nodes.
Variable svc : Services.

(** [retrieval_node] *)
Definition retrieval_node (st : RAGState) : RAGState :=
  match hybrid_search svc (query st) (user_id st) (Some 10) with
  | Ok results =>
      let st1 := append_step (set_hybrid_results st results) "retrieval" in
      let m := metadata st1 in
      set_metadata st1
        {| steps := steps m;
           retrieval_time_ms := retrieval_elapsed_ms svc;
           generation_time_ms := generation_time_ms m;
           documents_retrieved := Some (Z.of_nat (length results));
           documents_reranked := documents_reranked m;
           context_documents_used := context_documents_used m |}
  | Raise e =>
      if exn_isinstance e ValueError || exn_isinstance e RuntimeError
      then set_error st ("Retrieval error: " +:+ exn_str e)
      else set_error st ("Unexpected retrieval error: " +:+ exn_str e)
  end.

(** [reranking_node] *)
Definition reranking_node (st : RAGState) : RAGState :=
  match hybrid_results st with
  | Some ((_ :: _) as results) =>
      match rerank svc (query st) results (Some 5) with
      | Ok reranked =>
          let st1 := append_step (set_reranked st reranked) "reranking" in
          let m := metadata st1 in
          set_metadata st1
            {| steps := steps m;
               retrieval_time_ms := retrieval_time_ms m;
               generation_time_ms := generation_time_ms m;
               documents_retrieved := documents_retrieved m;
               documents_reranked := Some (Z.of_nat (length reranked));
               context_documents_used := context_documents_used m |}
      | Raise _ => set_reranked st (py_take 5 results)
      end
  | _ => set_reranked st []
  end.

(** The trigger phrases of [tool_analysis_node], in the order of the
    dictionary [tool_keywords]. *)
Definition tool_keywords : list (string * list string) :=
  [("date", ["today"; "current date"; "what date"; "what day"]);
   ("calculate", ["calculate"; "compute"; "math"; "sum"; "multiply"; "divide"])].

(** [any(keyword in query for keyword in keywords)] for some entry of
    [tool_keywords]. *)
Definition has_trigger (lowered : string) : bool :=
  existsb (fun entry => existsb (fun keyword => contains keyword lowered) (snd entry))
    tool_keywords.

(** [tool_analysis_node] *)
Definition tool_analysis_node (st : RAGState) : RAGState :=
  let q := lower (query st) in
  append_step (set_tool_needed st (has_trigger q)) "tool_analysis".

(** The body of the [try] block of [tool_execution_node], up to the
    assignment of the tool result. *)
Definition tool_execution_body (st : RAGState) : result RAGState :=
  let q := lower (query st) in
  if contains "date" q || contains "today" q then
    r ← execute_tool svc "get_current_date" None;
    Ok (set_tool_result st ("Current date: " +:+ r))
  else if contains "calculate" q || contains "compute" q then
    match findall_digits q with
    | n0 :: n1 :: _ =>
        let expression := n0 +:+ "+" +:+ n1 in
        r ← execute_tool svc "calculate" (Some {["expression" := PStr expression]});
        Ok (set_tool_result st ("Calculation result: " +:+ r))
    | _ => Ok st
    end
  else Ok st.

(** [tool_execution_node] *)
Definition tool_execution_node (st : RAGState) : RAGState :=
  match tool_execution_body st with
  | Ok st1 => append_step st1 "tool_execution"
  | Raise e => set_tool_result st ("Tool execution error: " +:+ exn_str e)
  end.

Definition no_context_answer : string :=
  "I couldn't find any relevant information in your documents to answer this question. Please upload relevant documents first.".

Definition two_newlines : string :=
  String (ascii_of_nat 10) (String (ascii_of_nat 10) EmptyString).

(** [generation_node] *)
Definition generation_node (st : RAGState) : RAGState :=
  if negb (truthy_list (context_documents st)) && negb (truthy_str (tool_result st))
  then set_answer st no_context_answer
  else
    let generated :=
      match context_documents st with
      | Some docs => generate_with_context svc (query st) docs
      | None => Raise (Exn TypeError "'NoneType' object is not iterable")
      end in
    match generated with
    | Ok text =>
        let a :=
          match tool_result st with
          | Some r => if String.eqb r "" then text else r +:+ two_newlines +:+ text
          | None => text
          end in
        let st1 := append_step (set_answer st a) "generation" in
        let m := metadata st1 in
        set_metadata st1
          {| steps := steps m;
             retrieval_time_ms := retrieval_time_ms m;
             generation_time_ms := generation_elapsed_ms svc;
             documents_retrieved := documents_retrieved m;
             documents_reranked := documents_reranked m;
             context_documents_used :=
               Some (Z.of_nat (length (default [] (context_documents st)))) |}
    | Raise e =>
        if exn_isinstance e ValueError || exn_isinstance e RuntimeError
        then set_answer (set_error st ("Generation error: " +:+ exn_str e))
               "I encountered a specific error while generating the answer. Please try again."
        else set_answer (set_error st ("Unexpected generation error: " +:+ exn_str e))
               "I encountered an unexpected error while generating the answer. Please try again."
    end.

(** [error_node]; the key ["error"] is always present, so the default of
    [state.get] is never used, and an unset error prints as [None]. *)
Definition error_node (st : RAGState) : RAGState :=
  append_step
    (set_answer st ("An error occurred: " +:+ default "None" (error st)))
    "error".

(** The nodes of the graph of [build_rag_graph]. *)
Inductive node : Type :=
| Retrieval
| Reranking
| ToolAnalysis
| ToolExecution
| Generation
| Error.

Definition run_node (n : node) (st : RAGState) : RAGState :=
  match n with
  | Retrieval => retrieval_node st
  | Reranking => reranking_node st
  | ToolAnalysis => tool_analysis_node st
  | ToolExecution => tool_execution_node st
  | Generation => generation_node st
  | Error => error_node st
  end.

(** [should_use_tool], with the node its label is mapped to. *)
Definition should_use_tool (st : RAGState) : node :=
  match tool_needed st with
  | Some true => ToolExecution
  | _ => Generation
  end.

(** [check_error], with the node its label is mapped to. *)
Definition check_error (st : RAGState) : node :=
  if truthy_str (error st) then Error else Reranking.

(** The edges: the node that follows [n] when [n] has returned the state
    [st]; [None] is [END]. *)
Definition next_node (n : node) (st : RAGState) : option node :=
  match n with
  | Retrieval => Some (check_error st)
  | Reranking => Some ToolAnalysis
  | ToolAnalysis => Some (should_use_tool st)
  | ToolExecution => Some Generation
  | Generation => None
  | Error => None
  end.

(** Running the compiled graph from node [n]: the nodes visited, in order,
    and the final state.  [None] means that the run was not over after
    [fuel] nodes. *)
Fixpoint run_from (fuel : nat) (n : node) (st : RAGState)
  : option (list node * RAGState) :=
  match fuel with
  | O => None
  | S fuel =>
      let st1 := run_node n st in
      match next_node n st1 with
      | None => Some ([n], st1)
      | Some n' =>
          match run_from fuel n' st1 with
          | Some (visited, final) => Some (n :: visited, final)
          | None => None
          end
      end
  end.

(** [rag_graph.invoke(initial_state)]: the entry point is [retrieval]. *)
Definition invoke (st : RAGState) : option (list node * RAGState) :=
  run_from 6 Retrieval st.

End Nodes.

(** Stand-ins for the external components, to run the graph on examples:
    retrieval returns [docs], the reranker has no model, the language model
    answers [text], and the tool executor has an empty registry. *)
Definition example_services (docs : list doc) (text : string) : Services :=
  {| hybrid_search := fun _ _ _ => Ok docs;
     rerank := Rerank.rerank unit Rerank.failing_predict {| Rerank.model := None |};
     generate_with_context := fun _ _ => Ok text;
     execute_tool := ToolExec.execute_tool ∅;
     retrieval_elapsed_ms := 0;
     generation_elapsed_ms := 0 |}.

(** The same with a retrieval that fails. *)
Definition failing_retrieval_services (text : string) : Services :=
  {| hybrid_search := fun _ _ _ => Raise (Exn RuntimeError "vector store unavailable");
     rerank := Rerank.rerank unit Rerank.failing_predict {| Rerank.model := None |};
     generate_with_context := fun _ _ => Ok text;
     execute_tool := ToolExec.execute_tool ∅;
     retrieval_elapsed_ms := 0;
     generation_elapsed_ms := 0 |}.

(** The same with the tool executor on the registry of [tools.py], for a
    given floating-point arithmetic and reading of the clock. *)
Definition tool_services {F : Tools.Inexact} (now : string) (docs : list doc)
    (text : string) : Services :=
  {| hybrid_search := fun _ _ _ => Ok docs;
     rerank := Rerank.rerank unit Rerank.failing_predict {| Rerank.model := None |};
     generate_with_context := fun _ _ => Ok text;
     execute_tool := ToolExec.execute_tool (ToolExec.tool_registry now);
     retrieval_elapsed_ms := 0;
     generation_elapsed_ms := 0 |}.

(** The names under which [build_rag_graph] adds the nodes; each node
    records its own name in [metadata["steps"]]. *)
Definition node_name (n : node) : string :=
  match n with
  | Retrieval => "retrieval"
  | Reranking => "reranking"
  | ToolAnalysis => "tool_analysis"
  | ToolExecution => "tool_execution"
  | Generation => "generation"
  | Error => "error"
  end.

(** The message [retrieval_node] stores for an exception of the search. *)
Definition retrieval_error (e : exn) : string :=
  (if exn_isinstance e ValueError || exn_isinstance e RuntimeError
   then "Retrieval error: " else "Unexpected retrieval error: ") +:+ exn_str e.

(** The services as [nodes.py] builds them: a hybrid retriever whose
    keyword index is never built, over the vector store. *)
Definition store_services (text : string) : Services :=
  {| hybrid_search :=
       Hybrid.search BM25.overlap_scores (BM25.init _)
         (Vector.search (fun _ => Ok []) Vector.example_query);
     rerank := Rerank.rerank unit Rerank.length_predict {| Rerank.model := Some tt |};
     generate_with_context := fun _ _ => Ok text;
     execute_tool := ToolExec.execute_tool ∅;
     retrieval_elapsed_ms := 0;
     generation_elapsed_ms := 0 |}.

End Workflow.

(** ** The pipeline ([app/rag/pipeline.py], [app/utils/helpers.py]) *)

Module Pipeline.
Import Workflow.

(** [r.get("score", 0.0)] *)
Definition score_or_zero (r : doc) : Q := default 0%Q (doc_score r).

(** [sum(scores)]: the floats are added to [0] one after the other, from
    left to right, and every sum is rounded to the nearest float. *)
Definition py_sum (scores : list Q) : Q := fold_left fadd scores 0%Q.

(** [calculate_confidence_score]: [sum(scores) / len(scores)] is a float
    division by the length as a float. *)
Definition calculate_confidence_score (results : list doc) : Q :=
  match results with
  | [] => 0
  | _ =>
      let scores := map score_or_zero results in
      fdiv (py_sum scores) (float_of_int (Z.of_nat (length scores)))
  end.


(** The ["metadata"] entry of the response. *)
Record ResponseMetadata : Type := {
  confidence : Q;
  response_steps : list string;
  response_retrieval_time_ms : Q;
  response_generation_time_ms : Q;
  total_time_ms : Q;
  response_documents_retrieved : Z;
  documents_used : Z
}.

(** One entry of ["sources"]. *)
Record Source : Type := {
  source_document_id : option pyval;
  source_chunk_index : pyval;
  source_content : string;
  relevance_score : Q;
  source_page : option pyval;
  source_filename : option string
}.

Record Response : Type := {
  response_answer : option string;
  sources : list Source;
  response_metadata : ResponseMetadata
}.

(** [a or b] on an optional float: absent and [0.0] are both falsy. *)
Definition float_or (a : option Q) (b : Q) : Q :=
  match a with
  | Some x => if Qeq_bool x 0 then b else x
  | None => b
  end.

Section Pipeline.

(** The database is outside the program: [build_user_index] is the method
    of that name, which loads the user's chunks and raises when the query
    fails, and [lookup_filename] is the query for a document's file name. *)
Variable build_user_index : Z -> result unit.
Variable lookup_filename : pyval -> option string.
Variable svc : Services.

(** The loop body of [RAGPipeline._format_sources]. *)
Definition format_source (d : doc) : Source :=
  let md := default ∅ (doc_metadata d) in
  let document_id := md !! "document_id" in
  {| source_document_id := document_id;
     source_chunk_index := default (PInt 0) (md !! "chunk_index");
     source_content := PyStr.slice (default "" (doc_content d)) 0 200 +:+ "...";
     relevance_score :=
       float_or (doc_rerank_score d) (float_or (doc_rrf_score d) (score_or_zero d));
     source_page := md !! "page";
     source_filename :=
       match document_id with
       | Some (PInt 0) | Some PNone | Some (PStr "") | None => None
       | Some i => lookup_filename i
       end |}.

(** [RAGPipeline._format_sources]: the loop raises when [documents] is
    [None], which is what [context_documents] still is when the run went
    through the error node. *)
Definition _format_sources (documents : option (list doc)) : result (list Source) :=
  match documents with
  | Some docs => Ok (map format_source docs)
  | None => Raise (Exn TypeError "'NoneType' object is not iterable")
  end.

(** [RAGPipeline.process_query]; its [except] clause re-raises.  [None]
    stands for a run of the graph that does not end, which the workflow's
    termination lemma excludes. *)
Definition process_query (q : string) (uid : Z) (tid : option string)
  : option (result Response) :=
  match build_user_index uid with
  | Raise e => Some (Raise e)
  | Ok _ =>
      match invoke svc (create_initial_state q uid tid) with
      | None => None
      | Some (_, final_state) =>
          let docs := context_documents final_state in
          let m := metadata final_state in
          let conf :=
            if truthy_list docs
            then calculate_confidence_score (default [] docs)
            else 0%Q in
          Some (
            formatted ← _format_sources docs;
            Ok
            {| response_answer := answer final_state;
               sources := formatted;
               response_metadata :=
                 {| confidence := conf;
                    response_steps := steps m;
                    response_retrieval_time_ms := retrieval_time_ms m;
                    response_generation_time_ms := generation_time_ms m;
                    total_time_ms := fadd (retrieval_time_ms m) (generation_time_ms m);
                    response_documents_retrieved := default 0 (documents_retrieved m);
                    documents_used := default 0 (context_documents_used m) |} |})
      end
  end.

End Pipeline.

End Pipeline.

(** * Properties *)

(** ** Python built-ins *)

Module PyFacts.

Lemma py_take_nonneg {A : Type} (k : Z) (l : list A) :
  0 <= k -> py_take k l = take (Z.to_nat k) l.
Proof.
  intros Hk. unfold py_take, py_slice_stop.
  destruct (Z.ltb_spec k 0); [lia|].
  destruct (Nat.le_ge_cases (Z.to_nat k) (length l)).
  - now rewrite Nat.min_l.
  - rewrite Nat.min_r by assumption. now rewrite !take_ge by lia.
Qed.

Lemma py_take_length {A : Type} (k : Z) (l : list A) :
  0 <= k -> (length (py_take k l) <= Z.to_nat k)%nat.
Proof. intros Hk. rewrite py_take_nonneg by assumption. rewrite length_take. lia. Qed.

Lemma py_take_le_length {A : Type} (k : Z) (l : list A) :
  (length (py_take k l) <= length l)%nat.
Proof. unfold py_take. rewrite length_take. lia. Qed.

Lemma StronglySorted_take {A : Type} (R : A -> A -> Prop) (n : nat) (l : list A) :
  StronglySorted R l -> StronglySorted R (take n l).
Proof.
  intros H. revert n. induction H as [|x l Hl IH Hx]; intros [|n]; simpl;
    try constructor; [apply IH|].
  rewrite Forall_forall in *. intros y Hy. apply Hx.
  eapply subseteq_take. exact Hy.
Qed.

Section Sorting.
Context {A : Type} (key : A -> Q).

Lemma insert_desc_perm (x : A) (l : list A) :
  Permutation (insert_desc key x l) (x :: l).
Proof.
  induction l as [|y l IH]; simpl; [reflexivity|].
  destruct (Qle_bool (key y) (key x)); [reflexivity|].
  rewrite IH. apply perm_swap.
Qed.

Lemma sorted_desc_perm (l : list A) : Permutation (sorted_desc key l) l.
Proof.
  induction l as [|x l IH]; simpl; [reflexivity|].
  rewrite insert_desc_perm. now constructor.
Qed.

Lemma sorted_desc_length (l : list A) : length (sorted_desc key l) = length l.
Proof. apply Permutation_length, sorted_desc_perm. Qed.

Lemma insert_desc_sorted (x : A) (l : list A) :
  StronglySorted (fun a b => key b <= key a)%Q l ->
  StronglySorted (fun a b => key b <= key a)%Q (insert_desc key x l).
Proof.
  induction 1 as [|y l Hl IH Hy]; simpl.
  - repeat constructor.
  - destruct (Qle_bool (key y) (key x)) eqn:E.
    + apply Qle_bool_iff in E. constructor; [now constructor|].
      constructor; [exact E|].
      rewrite Forall_forall in *. intros z Hz.
      apply Qle_trans with (key y); [now apply Hy | exact E].
    + assert (Hlt : (key x < key y)%Q).
      { apply Qnot_le_lt. intros Hle. apply Qle_bool_iff in Hle. congruence. }
      constructor; [exact IH|].
      rewrite Forall_forall in *. intros z Hz.
      rewrite insert_desc_perm in Hz. apply elem_of_cons in Hz.
      destruct Hz as [->|Hz]; [now apply Qlt_le_weak | now apply Hy].
Qed.

(** The result of [sorted(..., reverse=True)] is in descending order of
    the key. *)
Lemma sorted_desc_sorted (l : list A) :
  StronglySorted (fun a b => key b <= key a)%Q (sorted_desc key l).
Proof.
  induction l as [|x l IH]; simpl; [constructor|].
  now apply insert_desc_sorted.
Qed.

End Sorting.

End PyFacts.

(** ** Python floats *)

Module FloatFacts.

Lemma inject_pow_pos (n : Z) : 0 <= n -> (0 < inject_Z (2 ^ n))%Q.
Proof.
  intros Hn. change 0%Q with (inject_Z 0). rewrite <- Zlt_Qlt.
  apply Z.pow_pos_nonneg; lia.
Qed.

Lemma pow2_pos (e : Z) : (0 < pow2 e)%Q.
Proof.
  unfold pow2. destruct (Z.leb_spec 0 e).
  - now apply inject_pow_pos.
  - apply Qinv_lt_0_compat, inject_pow_pos. lia.
Qed.

Lemma pow2_succ (e : Z) : (pow2 (e + 1) == 2 * pow2 e)%Q.
Proof.
  unfold pow2. destruct (Z.leb_spec 0 e) as [He|He].
  - destruct (Z.leb_spec 0 (e + 1)); [|lia].
    rewrite Z.pow_add_r by lia. rewrite inject_Z_mult.
    change (inject_Z (2 ^ 1)) with 2%Q. ring.
  - destruct (Z.leb_spec 0 (e + 1)) as [He1|He1].
    + assert (e = -1) by lia. subst e. reflexivity.
    + replace (- e) with (- (e + 1) + 1) by lia.
      rewrite Z.pow_add_r by lia. rewrite inject_Z_mult.
      pose proof (inject_pow_pos (- (e + 1)) ltac:(lia)) as Hp.
      change (inject_Z (2 ^ 1)) with 2%Q. field. lra.
Qed.

Lemma pow2_le (a b : Z) : a <= b -> (pow2 a <= pow2 b)%Q.
Proof.
  intros Hab. replace b with (a + Z.of_nat (Z.to_nat (b - a))) by lia.
  induction (Z.to_nat (b - a)) as [|n IH].
  - simpl. rewrite Z.add_0_r. apply Qle_refl.
  - rewrite Nat2Z.inj_succ, <- Z.add_1_r, Z.add_assoc, pow2_succ.
    pose proof (pow2_pos (a + Z.of_nat n)). apply Qle_trans with (1 := IH). lra.
Qed.

Lemma pow2_nonneg (e : Z) : 0 <= e -> pow2 e = inject_Z (2 ^ e).
Proof. intros He. unfold pow2. now destruct (Z.leb_spec 0 e); [|lia]. Qed.

Lemma pow2_neg (e : Z) : 0 <= e -> (pow2 (- e) == / inject_Z (2 ^ e))%Q.
Proof.
  intros He. unfold pow2. destruct (Z.leb_spec 0 (- e)).
  - assert (e = 0) by lia. subst e. reflexivity.
  - now rewrite Z.opp_involutive.
Qed.

Lemma Qinv_le_swap (x p : Q) : (0 < x)%Q -> (0 < p)%Q -> (/ x <= p)%Q -> (/ p <= x)%Q.
Proof.
  intros Hx Hp H. apply Qle_shift_inv_r; [exact Hp|].
  setoid_replace 1%Q with (x * / x)%Q using relation Qeq by (field; lra).
  now rewrite Qmult_le_l.
Qed.

Lemma Qinv_lt_swap (x p : Q) : (0 < x)%Q -> (0 < p)%Q -> (p < / x)%Q -> (x < / p)%Q.
Proof.
  intros Hx Hp H. apply Qlt_shift_inv_l; [exact Hp|].
  setoid_replace 1%Q with (x * / x)%Q using relation Qeq by (field; lra).
  now rewrite Qmult_lt_l.
Qed.

(** [ilog2 x] is the exponent of the binade of [x]. *)
Lemma ilog2_spec (x : Q) :
  (0 < x)%Q -> (pow2 (ilog2 x) <= x)%Q /\ (x < pow2 (ilog2 x + 1))%Q.
Proof.
  intros Hx. unfold ilog2. destruct (Qle_bool 1 x) eqn:E.
  - apply Qle_bool_iff in E.
    assert (Hn : 1 <= Qfloor x).
    { change 1 with (Qfloor 1). now apply Qfloor_resp_le. }
    destruct (Z.log2_spec (Qfloor x) ltac:(lia)) as [Hlo Hhi].
    pose proof (Z.log2_nonneg (Qfloor x)) as Hl.
    rewrite !pow2_nonneg by lia. split.
    + apply Qle_trans with (inject_Z (Qfloor x)); [now rewrite <- Zle_Qle | apply Qfloor_le].
    + apply Qlt_le_trans with (inject_Z (Qfloor x + 1)); [apply Qlt_floor|].
      rewrite <- Zle_Qle. rewrite <- Z.add_1_r in Hhi. lia.
  - assert (Hlt : (x < 1)%Q).
    { apply Qnot_le_lt. intros H. apply Qle_bool_iff in H. congruence. }
    assert (Hinv : (0 < / x)%Q) by now apply Qinv_lt_0_compat.
    assert (Hy : (1 < / x)%Q).
    { apply Qlt_shift_inv_l; [exact Hx | lra]. }
    set (c := Qceiling (/ x)).
    assert (Hc : 1 < c).
    { assert (H2 : (inject_Z 1 < inject_Z c)%Q).
      { apply Qlt_le_trans with (/ x); [exact Hy | apply Qle_ceiling]. }
      now rewrite <- Zlt_Qlt in H2. }
    destruct (Z.log2_up_spec c Hc) as [Hlo Hhi].
    pose proof (Z.log2_up_nonneg c) as Hk.
    assert (Hk1 : 1 <= Z.log2_up c).
    { destruct (Z.eq_dec (Z.log2_up c) 0) as [H0|]; [|lia].
      rewrite H0 in Hhi. simpl in Hhi. lia. }
    split.
    + rewrite pow2_neg by lia.
      apply Qinv_le_swap; [exact Hx | now apply inject_pow_pos|].
      apply Qle_trans with (inject_Z c); [apply Qle_ceiling | now rewrite <- Zle_Qle].
    + replace (- Z.log2_up c + 1) with (- Z.pred (Z.log2_up c)) by lia.
      rewrite pow2_neg by lia.
      apply Qinv_lt_swap; [exact Hx | apply inject_pow_pos; lia|].
      apply Qnot_le_lt. intros Hle.
      assert (H3 : c <= 2 ^ Z.pred (Z.log2_up c)).
      { subst c. rewrite <- (Qceiling_Z (2 ^ Z.pred (Z.log2_up (Qceiling (/ x))))).
        now apply Qceiling_resp_le. }
      lia.
Qed.

Lemma ilog2_unique (x : Q) (l : Z) :
  (pow2 l <= x)%Q -> (x < pow2 (l + 1))%Q -> ilog2 x = l.
Proof.
  intros Hlo Hhi.
  assert (Hx : (0 < x)%Q) by (pose proof (pow2_pos l); lra).
  destruct (ilog2_spec x Hx) as [Hlo' Hhi'].
  destruct (Z.lt_trichotomy (ilog2 x) l) as [H|[H|H]]; [|exact H|].
  - pose proof (pow2_le (ilog2 x + 1) l ltac:(lia)). lra.
  - pose proof (pow2_le (l + 1) (ilog2 x) ltac:(lia)). lra.
Qed.

Lemma ilog2_mono (x y : Q) : (0 < x)%Q -> (x <= y)%Q -> ilog2 x <= ilog2 y.
Proof.
  intros Hx Hxy.
  destruct (ilog2_spec x Hx) as [Hlo Hhi].
  destruct (ilog2_spec y ltac:(lra)) as [Hlo' Hhi'].
  destruct (Z.le_gt_cases (ilog2 x) (ilog2 y)) as [H|H]; [exact H|].
  pose proof (pow2_le (ilog2 y + 1) (ilog2 x) ltac:(lia)). lra.
Qed.

Lemma round_half_even_bounds (y : Q) :
  Qfloor y <= round_half_even y <= Qfloor y + 1.
Proof.
  unfold round_half_even.
  destruct (Qcompare (y - inject_Z (Qfloor y)) (1 # 2));
    [destruct (Z.even (Qfloor y))|..]; lia.
Qed.

Lemma round_half_even_mono (x y : Q) :
  (x <= y)%Q -> round_half_even x <= round_half_even y.
Proof.
  intros Hxy. pose proof (Qfloor_resp_le _ _ Hxy) as Hfloor.
  pose proof (round_half_even_bounds x) as Hx.
  pose proof (round_half_even_bounds y) as Hy.
  destruct (Z.eq_dec (Qfloor x) (Qfloor y)) as [Heq|Hne]; [|lia].
  clear Hx Hy. unfold round_half_even. rewrite <- Heq.
  destruct (Qcompare_spec (x - inject_Z (Qfloor x)) (1 # 2)) as [Hx|Hx|Hx];
    destruct (Qcompare_spec (y - inject_Z (Qfloor x)) (1 # 2)) as [Hy|Hy|Hy];
    try (destruct (Z.even (Qfloor x))); try lia; exfalso; lra.
Qed.

Lemma round_half_even_Z (n : Z) : round_half_even (inject_Z n) = n.
Proof.
  unfold round_half_even. rewrite Qfloor_Z.
  destruct (Qcompare_spec (inject_Z n - inject_Z n) (1 # 2)) as [H|H|H];
    [exfalso; lra | reflexivity | exfalso; lra].
Qed.

#[export] Instance round_half_even_comp : Proper (Qeq ==> eq) round_half_even.
Proof.
  intros x y Hxy. unfold round_half_even. rewrite (Qfloor_comp _ _ Hxy).
  replace (y - inject_Z (Qfloor y) ?= 1 # 2)%Q with (x - inject_Z (Qfloor y) ?= 1 # 2)%Q;
    [reflexivity|].
  apply Qcompare_comp; [now rewrite Hxy | reflexivity].
Qed.

Lemma pow2_add (a : Z) (n : Z) :
  0 <= n -> (pow2 (a + n) == inject_Z (2 ^ n) * pow2 a)%Q.
Proof.
  intros Hn. pattern n. apply natlike_ind; [| |exact Hn].
  - rewrite Z.add_0_r. change (inject_Z (2 ^ 0)) with 1%Q. ring.
  - intros m Hm IH. rewrite <- Z.add_1_r, Z.add_assoc, pow2_succ, IH.
    rewrite Z.pow_add_r by lia. rewrite inject_Z_mult.
    change (inject_Z (2 ^ 1)) with 2%Q. ring.
Qed.

(** The significand of a positive number has 53 bits. *)
Lemma significand_range (x : Q) :
  (0 < x)%Q ->
  (inject_Z (2 ^ 52) <= x / pow2 (ilog2 x - 52))%Q
  /\ (x / pow2 (ilog2 x - 52) < inject_Z (2 ^ 53))%Q.
Proof.
  intros Hx. destruct (ilog2_spec x Hx) as [Hlo Hhi].
  set (e := ilog2 x - 52) in *.
  pose proof (pow2_pos e) as He.
  replace (ilog2 x) with (e + 52) in Hlo by (subst e; lia).
  replace (ilog2 x + 1) with (e + 53) in Hhi by (subst e; lia).
  rewrite pow2_add in Hlo, Hhi by lia. split.
  - apply Qle_shift_div_l; assumption.
  - apply Qlt_shift_div_r; assumption.
Qed.

Lemma significand_rounded (x : Q) :
  (0 < x)%Q ->
  2 ^ 52 <= round_half_even (x / pow2 (ilog2 x - 52)) <= 2 ^ 53.
Proof.
  intros Hx. destruct (significand_range x Hx) as [Hlo Hhi]. split.
  - rewrite <- (round_half_even_Z (2 ^ 52)). now apply round_half_even_mono.
  - rewrite <- (round_half_even_Z (2 ^ 53)). apply round_half_even_mono. lra.
Qed.

Lemma fl_pos_bounds (x : Q) :
  (0 < x)%Q ->
  (pow2 (ilog2 x) <= fl_pos x)%Q /\ (fl_pos x <= pow2 (ilog2 x + 1))%Q.
Proof.
  intros Hx. destruct (significand_rounded x Hx) as [Hlo Hhi].
  unfold fl_pos. set (e := ilog2 x - 52) in *.
  pose proof (pow2_pos e) as He.
  replace (ilog2 x) with (e + 52) by (subst e; lia).
  replace (e + 52 + 1) with (e + 53) by lia.
  rewrite !pow2_add by lia. split.
  - apply Qmult_le_compat_r; [now rewrite <- Zle_Qle | lra].
  - apply Qmult_le_compat_r; [now rewrite <- Zle_Qle | lra].
Qed.

Lemma fl_pos_mono (x y : Q) : (0 < x)%Q -> (x <= y)%Q -> (fl_pos x <= fl_pos y)%Q.
Proof.
  intros Hx Hxy. assert (Hy : (0 < y)%Q) by lra.
  pose proof (ilog2_mono x y Hx Hxy) as Hlog.
  destruct (Z.eq_dec (ilog2 x) (ilog2 y)) as [Heq|Hne].
  - unfold fl_pos. rewrite Heq. pose proof (pow2_pos (ilog2 y - 52)) as He.
    apply Qmult_le_compat_r; [|lra]. rewrite <- Zle_Qle.
    apply round_half_even_mono. apply Qmult_le_compat_r; [exact Hxy|].
    apply Qlt_le_weak, Qinv_lt_0_compat, He.
  - destruct (fl_pos_bounds x Hx) as [_ Hhi]. destruct (fl_pos_bounds y Hy) as [Hlo _].
    pose proof (pow2_le (ilog2 x + 1) (ilog2 y) ltac:(lia)). lra.
Qed.

Lemma fl_pos_positive (x : Q) : (0 < x)%Q -> (0 < fl_pos x)%Q.
Proof.
  intros Hx. destruct (fl_pos_bounds x Hx) as [Hlo _].
  pose proof (pow2_pos (ilog2 x)). lra.
Qed.

Lemma fl_zero : fl 0 = 0%Q.
Proof. reflexivity. Qed.

Lemma fl_positive (x : Q) : (0 < x)%Q -> (0 < fl x)%Q.
Proof.
  intros Hx. unfold fl. destruct (Qcompare_spec x 0) as [H|H|H]; try lra.
  now apply fl_pos_positive.
Qed.

(** Rounding to the nearest float keeps the order. *)
Lemma fl_mono (x y : Q) : (x <= y)%Q -> (fl x <= fl y)%Q.
Proof.
  intros Hxy. unfold fl.
  destruct (Qcompare_spec x 0) as [Hx|Hx|Hx]; destruct (Qcompare_spec y 0) as [Hy|Hy|Hy];
    try lra.
  - pose proof (fl_pos_positive y Hy). lra.
  - pose proof (fl_pos_positive (- x) ltac:(lra)). lra.
  - pose proof (fl_pos_mono (- y) (- x) ltac:(lra) ltac:(lra)). lra.
  - pose proof (fl_pos_positive (- x) ltac:(lra)).
    pose proof (fl_pos_positive y Hy). lra.
  - now apply fl_pos_mono.
Qed.

Lemma fl_nonneg (x : Q) : (0 <= x)%Q -> (0 <= fl x)%Q.
Proof. intros Hx. change 0%Q with (fl 0) at 1. now apply fl_mono. Qed.

#[export] Instance ilog2_comp : Proper (Qeq ==> eq) ilog2.
Proof.
  intros x y Hxy. unfold ilog2.
  rewrite (Qfloor_comp _ _ Hxy).
  assert (Hinv : (/ x == / y)%Q) by now rewrite Hxy.
  rewrite (Qceiling_comp _ _ Hinv).
  replace (Qle_bool 1 y) with (Qle_bool 1 x); [reflexivity|].
  destruct (Qle_bool 1 x) eqn:Ex, (Qle_bool 1 y) eqn:Ey; try reflexivity.
  - apply Qle_bool_iff in Ex. rewrite Hxy in Ex. apply Qle_bool_iff in Ex. congruence.
  - apply Qle_bool_iff in Ey. rewrite <- Hxy in Ey. apply Qle_bool_iff in Ey. congruence.
Qed.

#[export] Instance fl_pos_comp : Proper (Qeq ==> Qeq) fl_pos.
Proof.
  intros x y Hxy. unfold fl_pos. rewrite (ilog2_comp _ _ Hxy).
  assert (H : (x / pow2 (ilog2 y - 52) == y / pow2 (ilog2 y - 52))%Q) by now rewrite Hxy.
  now rewrite (round_half_even_comp _ _ H).
Qed.

#[export] Instance fl_comp : Proper (Qeq ==> Qeq) fl.
Proof.
  intros x y Hxy. unfold fl.
  rewrite (Qcompare_comp x y Hxy 0%Q 0%Q ltac:(reflexivity)).
  destruct (y ?= 0)%Q; [reflexivity | | now apply fl_pos_comp].
  apply Qopp_comp, fl_pos_comp. now rewrite Hxy.
Qed.

Lemma fl_pos_float (x : Q) : (0 < x)%Q -> (fl_pos (fl_pos x) == fl_pos x)%Q.
Proof.
  intros Hx. destruct (significand_rounded x Hx) as [Hlo Hhi].
  unfold fl_pos at 2 3. set (e := ilog2 x - 52) in *.
  set (m := round_half_even (x / pow2 e)) in *.
  pose proof (pow2_pos e) as He.
  assert (Hm : (inject_Z (2 ^ 52) <= inject_Z m)%Q) by now rewrite <- Zle_Qle.
  destruct (Z.eq_dec m (2 ^ 53)) as [Htop|Hlt].
  - assert (Hv : (inject_Z m * pow2 e == pow2 (e + 53))%Q)
      by (rewrite pow2_add by lia; now rewrite Htop).
    assert (Hlog : ilog2 (inject_Z m * pow2 e) = e + 53).
    { apply ilog2_unique; rewrite Hv; [apply Qle_refl|].
      rewrite pow2_succ. pose proof (pow2_pos (e + 53)). lra. }
    unfold fl_pos. rewrite Hlog. replace (e + 53 - 52) with (e + 1) by lia.
    pose proof (pow2_pos (e + 1)) as He1.
    assert (Hs : (inject_Z m * pow2 e / pow2 (e + 1) == inject_Z (2 ^ 52))%Q).
    { rewrite Htop, pow2_succ. change (inject_Z (2 ^ 53)) with (2 * inject_Z (2 ^ 52))%Q.
      field. lra. }
    rewrite (round_half_even_comp _ _ Hs), round_half_even_Z, Htop, pow2_succ.
    change (inject_Z (2 ^ 53)) with (2 * inject_Z (2 ^ 52))%Q. ring.
  - assert (Hlog : ilog2 (inject_Z m * pow2 e) = e + 52).
    { apply ilog2_unique.
      - rewrite pow2_add by lia. apply Qmult_le_compat_r; [exact Hm | lra].
      - replace (e + 52 + 1) with (e + 53) by lia. rewrite pow2_add by lia.
        apply Qmult_lt_compat_r; [exact He|]. rewrite <- Zlt_Qlt. lia. }
    unfold fl_pos. rewrite Hlog. replace (e + 52 - 52) with e by lia.
    assert (Hs : (inject_Z m * pow2 e / pow2 e == inject_Z m)%Q) by (field; lra).
    now rewrite (round_half_even_comp _ _ Hs), round_half_even_Z.
Qed.

(** A float is its own rounding. *)
Lemma fl_float (x : Q) : (fl (fl x) == fl x)%Q.
Proof.
  unfold fl at 2 3. destruct (Qcompare_spec x 0) as [Hx|Hx|Hx].
  - reflexivity.
  - pose proof (fl_pos_positive (- x) ltac:(lra)) as Hp.
    unfold fl. destruct (Qcompare_spec (- fl_pos (- x)) 0) as [H|H|H]; try lra.
    assert (Heq : (- - fl_pos (- x) == fl_pos (- x))%Q) by ring.
    rewrite (fl_pos_comp _ _ Heq), fl_pos_float by lra. reflexivity.
  - pose proof (fl_pos_positive x Hx) as Hp.
    unfold fl. destruct (Qcompare_spec (fl_pos x) 0) as [H|H|H]; try lra.
    now apply fl_pos_float.
Qed.

Lemma fadd_zero_l (x : Q) : (fadd 0 (fl x) == fl x)%Q.
Proof.
  unfold fadd. assert (H : (0 + fl x == fl x)%Q) by ring.
  rewrite (fl_comp _ _ H). apply fl_float.
Qed.

Lemma float_of_int_positive (z : Z) : 0 < z -> (0 < float_of_int z)%Q.
Proof.
  intros Hz. apply fl_positive. change 0%Q with (inject_Z 0). now rewrite <- Zlt_Qlt.
Qed.

Lemma float_of_int_mono (a b : Z) : a <= b -> (float_of_int a <= float_of_int b)%Q.
Proof. intros Hab. apply fl_mono. now rewrite <- Zle_Qle. Qed.

(** [round] keeps the order. *)
Lemma py_round_mono (x y : Q) (ndigits : Z) :
  0 <= ndigits -> (x <= y)%Q -> (py_round x ndigits <= py_round y ndigits)%Q.
Proof.
  intros Hn Hxy. unfold py_round.
  assert (Hscale : 0 < 10 ^ ndigits) by (apply Z.pow_pos_nonneg; lia).
  assert (Hs : (0 < inject_Z (10 ^ ndigits))%Q)
    by (change 0%Q with (inject_Z 0); now rewrite <- Zlt_Qlt).
  apply fl_mono. apply Qmult_le_compat_r.
  - rewrite <- Zle_Qle. apply round_half_even_mono.
    apply Qmult_le_compat_r; [exact Hxy | now apply Qlt_le_weak].
  - apply Qlt_le_weak, Qinv_lt_0_compat, Hs.
Qed.

End FloatFacts.

(** ** Python string operations *)

Module PyStrFacts.
Import PyStr.

Lemma length_chars (s : string) : length (chars s) = String.length s.
Proof. induction s as [|c s IH]; simpl; [reflexivity | now rewrite IH]. Qed.

Lemma len_nonneg (s : string) : 0 <= len s.
Proof. unfold len. lia. Qed.

Lemma str_chars (s : string) : str (chars s) = s.
Proof. apply string_of_list_ascii_of_string. Qed.

Lemma chars_str (l : list ascii) : chars (str l) = l.
Proof. apply list_ascii_of_string_of_list_ascii. Qed.

Lemma str_app (l1 l2 : list ascii) : str (l1 ++ l2) = str l1 +:+ str l2.
Proof. induction l1 as [|c l1 IH]; simpl; [reflexivity | now rewrite IH]. Qed.

Lemma clamp_range (n i : Z) : 0 <= n -> 0 <= clamp n i <= n.
Proof. unfold clamp. destruct (Z.ltb_spec i 0); lia. Qed.

Lemma clamp_nonneg_arg (n i : Z) : 0 <= i -> clamp n i = Z.min i n.
Proof. unfold clamp. destruct (Z.ltb_spec i 0); lia. Qed.

Lemma lslice_app (l : list ascii) (a b c : Z) :
  0 <= a <= b -> b <= c -> lslice l a b ++ lslice l b c = lslice l a c.
Proof.
  intros Hab Hbc. unfold lslice.
  rewrite !clamp_nonneg_arg by lia.
  set (n := Z.of_nat (length l)).
  set (a' := Z.to_nat (Z.min a n)).
  replace (Z.to_nat (Z.min b n)) with (a' + Z.to_nat (Z.min b n - Z.min a n))%nat
    by (subst a'; lia).
  rewrite <- drop_drop, take_take_drop. f_equal. lia.
Qed.

Lemma lslice_all (l : list ascii) (b : Z) :
  Z.of_nat (length l) <= b -> lslice l 0 b = l.
Proof.
  intros Hb. unfold lslice.
  rewrite !clamp_nonneg_arg by lia.
  replace (Z.to_nat (Z.min 0 (Z.of_nat (length l)))) with 0%nat by lia.
  rewrite drop_0. apply take_ge. lia.
Qed.

Lemma lslice_suffix (l : list ascii) (k : Z) :
  0 <= k -> lslice l k (Z.of_nat (length l)) = drop (Z.to_nat k) l.
Proof.
  intros Hk. unfold lslice. rewrite !clamp_nonneg_arg by lia.
  rewrite take_ge by (rewrite length_drop; lia).
  destruct (Z.le_gt_cases k (Z.of_nat (length l))).
  - f_equal. lia.
  - now rewrite !drop_ge by lia.
Qed.

Lemma lslice_drop (l : list ascii) (a b k : Z) :
  0 <= a -> 0 <= k -> a + k <= b ->
  lslice (lslice l a b) k (Z.of_nat (length (lslice l a b))) = lslice l (a + k) b.
Proof.
  intros Ha Hk Hb. rewrite lslice_suffix by assumption.
  unfold lslice. rewrite !clamp_nonneg_arg by lia.
  set (n := Z.of_nat (length l)).
  rewrite skipn_firstn_comm, drop_drop.
  destruct (Z.le_gt_cases (a + k) n) as [Hle|Hgt].
  - replace (Z.to_nat (Z.min a n) + Z.to_nat k)%nat
      with (Z.to_nat (Z.min (a + k) n)) by lia.
    f_equal. lia.
  - rewrite (drop_ge l (Z.to_nat (Z.min a n) + Z.to_nat k)) by lia.
    rewrite (drop_ge l (Z.to_nat (Z.min (a + k) n))) by lia.
    now rewrite !take_nil.
Qed.

Lemma slice_app (s : string) (a b c : Z) :
  0 <= a <= b -> b <= c -> slice s a b +:+ slice s b c = slice s a c.
Proof.
  intros Hab Hbc. unfold slice. rewrite <- str_app. now rewrite lslice_app.
Qed.

Lemma slice_suffix_empty (s : string) (a : Z) : len s <= a -> slice s a (len s) = "".
Proof.
  intros Ha. unfold slice, lslice. rewrite length_chars. fold (len s).
  pose proof (len_nonneg s).
  rewrite !clamp_nonneg_arg by lia.
  replace (Z.to_nat (Z.min (len s) (len s) - Z.min a (len s))) with 0%nat by lia.
  reflexivity.
Qed.

Lemma slice_clip (s : string) (a b : Z) :
  0 <= a -> len s <= b -> slice s a b = slice s a (len s).
Proof.
  intros Ha Hb. unfold slice, lslice. rewrite length_chars. fold (len s).
  pose proof (len_nonneg s).
  rewrite !clamp_nonneg_arg by lia.
  do 2 f_equal. lia.
Qed.

(** [s[a:b] + s[b:] = s[a:]] *)
Lemma slice_suffix_app (s : string) (a b : Z) :
  0 <= a <= b -> slice s a b +:+ slice s b (len s) = slice s a (len s).
Proof.
  intros Hab. destruct (Z.le_gt_cases b (len s)) as [Hle|Hgt].
  - apply slice_app; lia.
  - rewrite slice_suffix_empty by lia.
    rewrite (slice_clip s a b) by lia.
    unfold slice. rewrite <- (str_app _ []). now rewrite app_nil_r.
Qed.

Lemma slice_all (s : string) (b : Z) : len s <= b -> slice s 0 b = s.
Proof.
  intros Hb. unfold slice. rewrite lslice_all; [apply str_chars|].
  rewrite length_chars. exact Hb.
Qed.

Lemma slice_empty (s : string) (a b : Z) : len s <= a -> a <= b -> slice s a b = "".
Proof.
  intros Ha Hb. unfold slice, lslice. rewrite length_chars. fold (len s).
  pose proof (len_nonneg s).
  rewrite !clamp_nonneg_arg by lia.
  replace (Z.to_nat (Z.min b (len s) - Z.min a (len s))) with 0%nat by lia.
  reflexivity.
Qed.

Lemma slice_drop (s : string) (a b k : Z) :
  0 <= a -> 0 <= k -> a + k <= b ->
  slice (slice s a b) k (len (slice s a b)) = slice s (a + k) b.
Proof.
  intros Ha Hk Hb. unfold slice at 1.
  unfold len. rewrite <- length_chars. unfold slice at 1 2.
  rewrite !chars_str. rewrite lslice_drop by assumption. reflexivity.
Qed.

Lemma rfind_from_range (l sub : list ascii) (a n i : nat) :
  rfind_from l sub a n = Some i -> (a <= i < a + n)%nat.
Proof.
  induction n as [|n IH]; simpl; [discriminate|].
  destruct (is_prefix sub (drop (a + n) l)).
  - intros [= <-]. lia.
  - intros H. apply IH in H. lia.
Qed.

(** A position returned by [rfind] lies inside the searched window. *)
Lemma rfind_range (s sub : string) (start stop : Z) :
  rfind s sub start stop <> -1 ->
  clamp (len s) start <= rfind s sub start stop
  /\ rfind s sub start stop + len sub <= clamp (len s) stop.
Proof.
  unfold rfind. pose proof (clamp_range (len s) start (len_nonneg s)).
  destruct (Z.ltb_spec (clamp (len s) stop - clamp (len s) start) (len sub));
    [congruence|].
  destruct (rfind_from _ _ _ _) as [i|] eqn:E; [|congruence].
  intros _. apply rfind_from_range in E. lia.
Qed.

(** Lengths of slices, concatenations and stripped strings. *)
Lemma len_app (a b : string) : len (a +:+ b) = len a + len b.
Proof.
  unfold len. induction a as [|c a IH]; simpl; [reflexivity|].
  change (String.append a b) with (a +:+ b). lia.
Qed.

Lemma length_lslice (l : list ascii) (a b : Z) :
  Z.of_nat (length (lslice l a b))
  = Z.max 0 (clamp (Z.of_nat (length l)) b - clamp (Z.of_nat (length l)) a).
Proof.
  unfold lslice. rewrite length_take, length_drop.
  pose proof (clamp_range (Z.of_nat (length l)) a ltac:(lia)).
  pose proof (clamp_range (Z.of_nat (length l)) b ltac:(lia)).
  lia.
Qed.

Lemma len_str (l : list ascii) : len (str l) = Z.of_nat (length l).
Proof. unfold len. now rewrite <- length_chars, chars_str. Qed.

Lemma len_slice (s : string) (a b : Z) :
  len (slice s a b) = Z.max 0 (clamp (len s) b - clamp (len s) a).
Proof.
  unfold slice. rewrite len_str, length_lslice. unfold len. now rewrite length_chars.
Qed.

Lemma chars_app (a b : string) : chars (a +:+ b) = chars a ++ chars b.
Proof. induction a as [|c a IH]; simpl; [reflexivity|]. f_equal. exact IH. Qed.

(** A prefix of a concatenation that ends inside the first string. *)
Lemma slice_app_l (a b : string) (m : Z) :
  0 <= m <= len a -> slice (a +:+ b) 0 m = slice a 0 m.
Proof.
  intros Hm. unfold slice, lslice. f_equal.
  rewrite chars_app, length_app.
  assert (Ha : Z.of_nat (length (chars a)) = len a) by (unfold len; now rewrite length_chars).
  rewrite !clamp_nonneg_arg by lia. simpl.
  rewrite !Z.min_l by lia. rewrite !Z.sub_0_r. simpl.
  rewrite !drop_0. apply take_app_le. lia.
Qed.

Lemma slice_prefix_idem (s : string) (m : Z) :
  0 <= m -> slice (slice s 0 m) 0 m = slice s 0 m.
Proof.
  intros Hm. apply slice_all. rewrite len_slice.
  pose proof (len_nonneg s). rewrite !clamp_nonneg_arg by lia. lia.
Qed.

Lemma length_lstrip_chars (l : list ascii) : (length (lstrip_chars l) <= length l)%nat.
Proof. induction l as [|c l IH]; simpl; [lia|]. destruct (isspace c); simpl; lia. Qed.

Lemma len_strip (s : string) : len (strip s) <= len s.
Proof.
  unfold strip, len. rewrite <- !length_chars, chars_str, length_rev.
  pose proof (length_lstrip_chars (rev (lstrip_chars (chars s)))) as H1.
  rewrite length_rev in H1.
  pose proof (length_lstrip_chars (chars s)). lia.
Qed.

Lemma len_slice_le (s : string) (a b : Z) : 0 <= a <= b -> len (slice s a b) <= b - a.
Proof.
  intros Hab. unfold slice, lslice, len.
  rewrite <- length_chars, chars_str, length_take, length_drop.
  pose proof (len_nonneg s) as Hs. unfold len in Hs. rewrite <- length_chars in Hs.
  rewrite !clamp_nonneg_arg by lia. lia.
Qed.

Lemma str_nonempty (l : list ascii) : l <> [] -> str l <> "".
Proof. destruct l; [congruence | discriminate]. Qed.

End PyStrFacts.

(** ** Text helpers *)

Module HelpersFacts.
Import PyStr PyStrFacts Helpers.

(** [truncate_text]: a text that fits is returned as it is; a longer one is
    cut to its first [max_length] characters followed by three dots, so the
    result is [max_length + 3] characters long, not [max_length]; and
    truncating twice is truncating once.  All of this is for a
    non-negative [max_length]. *)
Theorem truncate_text_spec (text : string) (max_length : Z) :
  0 <= max_length ->
  (len text <= max_length -> truncate_text text (Some max_length) = text)
  /\ (max_length < len text ->
      truncate_text text (Some max_length) = slice text 0 max_length +:+ "..."
      /\ len (truncate_text text (Some max_length)) = max_length + 3
      /\ slice (truncate_text text (Some max_length)) 0 max_length
         = slice text 0 max_length)
  /\ truncate_text (truncate_text text (Some max_length)) (Some max_length)
     = truncate_text text (Some max_length)
  /\ len (truncate_text text (Some max_length)) <= max_length + 3.
Proof.
  intros Hm. unfold truncate_text. simpl.
  assert (Hlen : max_length < len text -> len (slice text 0 max_length) = max_length).
  { intros Hlt. rewrite len_slice, !clamp_nonneg_arg by lia. lia. }
  split; [|split; [|split]].
  - intros Hle. destruct (Z.leb_spec (len text) max_length); [reflexivity | lia].
  - intros Hlt. destruct (Z.leb_spec (len text) max_length); [lia|].
    split; [reflexivity|]. split.
    + rewrite len_app, Hlen by assumption. reflexivity.
    + rewrite slice_app_l by (rewrite Hlen; lia). now apply slice_prefix_idem.
  - destruct (Z.leb_spec (len text) max_length) as [Hle|Hlt].
    + destruct (Z.leb_spec (len text) max_length); [reflexivity | lia].
    + rewrite len_app, Hlen by assumption. change (len "...") with 3.
      destruct (Z.leb_spec (max_length + 3) max_length); [lia|].
      rewrite slice_app_l by (rewrite Hlen; lia).
      now rewrite slice_prefix_idem.
  - destruct (Z.leb_spec (len text) max_length) as [Hle|Hlt]; [lia|].
    rewrite len_app, Hlen by assumption. change (len "...") with 3. lia.
Qed.

Lemma truncate_text_spec_witness :
  truncate_text "retrieval augmented" (Some 9) = "retrieval..."
  /\ truncate_text "retrieval..." (Some 9) = "retrieval...".
Proof.
  destruct (truncate_text_spec "retrieval augmented" 9 ltac:(lia))
    as (_ & Hcut & Hidem & _).
  destruct (Hcut ltac:(vm_compute; reflexivity)) as (Heq & _ & _).
  split; [exact Heq|]. rewrite Heq in Hidem. exact Hidem.
Defined.

(** A negative [max_length] is not rejected: the text loses its last
    characters and gains the dots. *)
Example truncate_text_negative : truncate_text "abc" (Some (-1)) = "ab...".
Proof. reflexivity. Qed.

Lemma sanitize_chars (filename : string) :
  chars (sanitize_filename filename)
  = map (fun c => if Ascii.eqb c " " then "_"%char else c)
      (List.filter (fun c => negb (is_unsafe c)) (chars filename)).
Proof. unfold sanitize_filename. now rewrite !chars_str. Qed.

Lemma sanitize_clean (l : list ascii) :
  Forall (fun c => is_unsafe c = false /\ c <> " "%char) l ->
  map (fun c => if Ascii.eqb c " " then "_"%char else c)
    (List.filter (fun c => negb (is_unsafe c)) l) = l.
Proof.
  induction 1 as [|c l [Hc Hsp] _ IH]; simpl; [reflexivity|].
  rewrite Hc. simpl. rewrite IH.
  destruct (Ascii.eqb_spec c " "); [contradiction | reflexivity].
Qed.

(** [sanitize_filename]: the result has none of the characters of the
    class and no space, so it has no path separator; a name that is
    already clean is returned as it is, so sanitizing twice is sanitizing
    once; and the result is never longer than the name. *)
Theorem sanitize_filename_clean (filename : string) :
  Forall (fun c => is_unsafe c = false /\ c <> " "%char)
    (chars (sanitize_filename filename))
  /\ (Forall (fun c => is_unsafe c = false /\ c <> " "%char) (chars filename) ->
      sanitize_filename filename = filename)
  /\ sanitize_filename (sanitize_filename filename) = sanitize_filename filename
  /\ len (sanitize_filename filename) <= len filename.
Proof.
  assert (Hclean : Forall (fun c => is_unsafe c = false /\ c <> " "%char)
                     (chars (sanitize_filename filename))).
  { rewrite sanitize_chars. apply Forall_forall. intros c Hc.
    apply list_elem_of_fmap in Hc. destruct Hc as (d & -> & Hd).
    apply list_elem_of_In, filter_In in Hd. destruct Hd as [_ Hd].
    apply negb_true_iff in Hd.
    destruct (Ascii.eqb_spec d " ") as [->|Hne]; [split; [reflexivity | discriminate]|].
    now split. }
  assert (Hfix : forall name,
             Forall (fun c => is_unsafe c = false /\ c <> " "%char) (chars name) ->
             sanitize_filename name = name).
  { intros name Hname. rewrite <- (str_chars (sanitize_filename name)), sanitize_chars.
    rewrite sanitize_clean by assumption. apply str_chars. }
  split; [exact Hclean|]. split; [apply Hfix|]. split; [now apply Hfix|].
  unfold len. rewrite <- !length_chars, sanitize_chars, length_map.
  pose proof (filter_length_le (fun c => negb (is_unsafe c)) (chars filename)). lia.
Qed.

End HelpersFacts.

(** ** Decimal numerals *)

Module NumeralFacts.
Import PyStr PyStrFacts Tools Vector.

(** [str] of an integer can be read back: it is injective. *)
Lemma str_of_int_inj (a b : Z) : str_of_int a = str_of_int b -> a = b.
Proof.
  unfold str_of_int. intros H. apply DecimalZ.to_int_inj.
  assert (Hnn : forall z, Z.to_int z <> Decimal.Pos Decimal.Nil
                          /\ Z.to_int z <> Decimal.Neg Decimal.Nil).
  { intros [|p|p]; simpl; split; try discriminate;
      intros [= Hp]; now apply DecimalPos.Unsigned.to_uint_nonnil in Hp. }
  destruct (Hnn a) as [Ha1 Ha2]. destruct (Hnn b) as [Hb1 Hb2].
  pose proof (NilZero.isi _ Ha1 Ha2) as Ia. pose proof (NilZero.isi _ Hb1 Hb2) as Ib.
  rewrite H in Ia. congruence.
Qed.

Lemma digits_of_uint_acc (u : Decimal.uint) (acc : positive) :
  fold_left digit_step (chars (NilEmpty.string_of_uint u)) (Z.pos acc)
  = Z.pos (Pos.of_uint_acc u acc).
Proof.
  revert acc. induction u; intros acc; simpl; [reflexivity|..];
    rewrite <- IHu; f_equal; unfold digit_step;
    match goal with
    | |- context [digit_value ?c] =>
        let v := eval vm_compute in (digit_value c) in change (digit_value c) with v
    end; lia.
Qed.

Lemma digits_of_uint (u : Decimal.uint) :
  int_of_digits (chars (NilEmpty.string_of_uint u)) = Z.of_N (Pos.of_uint u).
Proof.
  change (int_of_digits ?l) with (fold_left digit_step l 0).
  induction u; simpl; try exact IHu; try reflexivity;
    apply (digits_of_uint_acc u).
Qed.

Lemma uint_digits (u : Decimal.uint) :
  Forall (fun c => is_digit c = true) (chars (NilEmpty.string_of_uint u)).
Proof. induction u; simpl; constructor; (reflexivity || assumption). Qed.

(** The decimal digits of a positive number do not start with a zero. *)
Lemma to_uint_head (p : positive) :
  match Pos.to_uint p with Decimal.Nil | Decimal.D0 _ => False | _ => True end.
Proof.
  pose proof (DecimalPos.Unsigned.to_of (Pos.to_uint p)) as H.
  rewrite DecimalPos.Unsigned.of_to in H. simpl in H.
  pose proof (DecimalPos.Unsigned.to_uint_nonnil p) as Hnil.
  pose proof (DecimalPos.Unsigned.to_uint_nonzero p) as Hzero.
  destruct (Pos.to_uint p) as [|u|u|u|u|u|u|u|u|u|u] eqn:E; try exact I; [congruence|].
  exfalso. unfold Decimal.unorm in H.
  destruct (Decimal.nzhead (Decimal.D0 u)) eqn:En; try congruence;
    try (now apply DecimalFacts.nzhead_nonzero in En).
Qed.

(** What the tokenizer needs to know about [str(n)] for a natural number
    [n]: it consists of digits, at least one, it has no leading zero unless
    it is ["0"], and its value is [n]. *)
Lemma str_of_int_digits (n : Z) :
  0 <= n ->
  exists d ds,
    chars (str_of_int n) = d :: ds
    /\ Forall (fun c => is_digit c = true) (d :: ds)
    /\ (Ascii.eqb d zero_char && negb (forallb (Ascii.eqb zero_char) (d :: ds))) = false
    /\ int_of_digits (d :: ds) = n.
Proof.
  intros Hn. unfold str_of_int.
  destruct n as [|p|p]; [| |lia].
  - exists zero_char, []. repeat split; try reflexivity. repeat constructor.
  - simpl. pose proof (to_uint_head p) as Hhead.
    pose proof (uint_digits (Pos.to_uint p)) as Hdig.
    pose proof (digits_of_uint (Pos.to_uint p)) as Hval.
    rewrite DecimalPos.Unsigned.of_to in Hval.
    unfold NilZero.string_of_uint.
    destruct (Pos.to_uint p) as [|u|u|u|u|u|u|u|u|u|u] eqn:E; try contradiction;
      simpl in *; eexists _, _; (split; [reflexivity|]);
      (split; [exact Hdig|]); (split; [reflexivity | exact Hval]).
Qed.

(** The numeral of an integer has no underscore. *)
Lemma str_of_int_chars (n : Z) :
  Forall (fun c => c <> underscore) (chars (str_of_int n)).
Proof.
  assert (Hdig : forall u, Forall (fun c => c <> underscore)
                             (chars (NilZero.string_of_uint u))).
  { intros u. unfold NilZero.string_of_uint.
    assert (H : Forall (fun c => c <> underscore) (chars (NilEmpty.string_of_uint u))).
    { eapply Forall_impl; [apply uint_digits|]. simpl. intros c Hc ->. discriminate. }
    destruct u; try exact H. repeat constructor. discriminate. }
  unfold str_of_int. destruct (Z.to_int n) as [u|u]; simpl; [apply Hdig|].
  constructor; [discriminate | apply Hdig].
Qed.

End NumeralFacts.

(** ** The text chunker *)

Module ChunkingFacts.
Import PyStr PyStrFacts Chunking.

Lemma start_char_make_chunk base text idx a b :
  start_char (make_chunk base text idx a b) = a.
Proof.
  unfold start_char, meta_int, make_chunk. simpl.
  rewrite lookup_insert_ne by discriminate.
  now rewrite lookup_insert_eq.
Qed.

Lemma end_char_make_chunk base text idx a b :
  end_char (make_chunk base text idx a b) = b.
Proof.
  unfold end_char, meta_int, make_chunk. simpl.
  now rewrite lookup_insert_eq.
Qed.

Lemma boundaries_nonempty : Forall (fun b => 1 <= len b) boundaries.
Proof. repeat constructor; unfold len; simpl; lia. Qed.

Lemma boundary_cut_range text bs start stop e :
  Forall (fun b => 1 <= len b) bs -> 0 <= start ->
  boundary_cut text bs start stop = Some e ->
  start < e <= clamp (len text) stop.
Proof.
  intros Hbs Hstart. induction Hbs as [|b bs Hb _ IH]; simpl; [discriminate|].
  destruct (Z.eqb_spec (rfind text b start stop) (-1)) as [_|Hfound]; [exact IH|].
  intros [= <-]. apply rfind_range in Hfound.
  pose proof (clamp_range (len text) stop (len_nonneg text)).
  rewrite clamp_nonneg_arg in Hfound by assumption. lia.
Qed.

Section Loop.
Variable self : TextChunker.
Variable text : string.
Variable base : gmap string pyval.

(** With a positive chunk size the cut lies after the window's start and
    no further than [chunk_size] characters from it. *)
Lemma cut_point_range start :
  1 <= chunk_size self -> 0 <= start ->
  start < cut_point self text start <= start + chunk_size self.
Proof.
  intros Hsize Hstart. unfold cut_point.
  set (end0 := start + chunk_size self).
  assert (Hclamp : clamp (len text) end0 <= end0)
    by (rewrite clamp_nonneg_arg by lia; lia).
  assert (Hspace : 1 <= len " ") by (unfold len; simpl; lia).
  destruct (end0 <? len text).
  - destruct (boundary_cut text boundaries start end0) as [e|] eqn:E.
    + apply boundary_cut_range in E; [|apply boundaries_nonempty|assumption].
      destruct (Z.leb_spec e start); lia.
    + destruct (Z.eqb_spec (rfind text " " start end0) (-1)) as [_|Hfound].
      * destruct (Z.leb_spec end0 start); lia.
      * apply rfind_range in Hfound.
        rewrite clamp_nonneg_arg in Hfound by assumption.
        pose proof (clamp_range (len text) end0 (len_nonneg text)).
        destruct (Z.leb_spec (rfind text " " start end0 + 1) start); lia.
  - destruct (Z.leb_spec end0 start); lia.
Qed.

(** The forced step: the next window always starts after the previous
    one. *)
Lemma next_start_gt prev stop : prev < next_start self prev stop.
Proof. unfold next_start. destruct (Z.leb_spec (stop - chunk_overlap self) prev); lia. Qed.

Lemma next_start_unforced prev stop :
  chunk_overlap self < stop - prev ->
  next_start self prev stop = stop - chunk_overlap self.
Proof. intros H. unfold next_start. destruct (Z.leb_spec (stop - chunk_overlap self) prev); lia. Qed.

Lemma next_start_forced prev stop :
  stop - prev <= chunk_overlap self ->
  next_start self prev stop
  = prev + Z.max 1 (chunk_size self - chunk_overlap self).
Proof. intros H. unfold next_start. destruct (Z.leb_spec (stop - chunk_overlap self) prev); lia. Qed.

Lemma chunk_loop_sound fuel start idx cs :
  chunk_loop fuel self text base start idx = Some cs -> chunks_from self text base start idx cs.
Proof.
  revert start idx cs. induction fuel as [|fuel IH]; intros start idx cs; simpl.
  - destruct (Z.ltb_spec start (len text)); [discriminate|].
    intros [= <-]. now constructor.
  - destruct (Z.ltb_spec start (len text)).
    + destruct (chunk_loop fuel _ _ _ _ _) as [rest|] eqn:E; [|discriminate].
      intros [= <-]. constructor; [assumption|]. now apply IH.
    + intros [= <-]. now constructor.
Qed.

(** The loop runs at most once per character left of the text. *)
Lemma chunk_loop_terminates fuel start idx :
  len text - start <= Z.of_nat fuel ->
  exists cs, chunk_loop fuel self text base start idx = Some cs.
Proof.
  revert start idx. induction fuel as [|fuel IH]; intros start idx Hfuel; simpl.
  - destruct (Z.ltb_spec start (len text)); [lia|]. now exists [].
  - destruct (Z.ltb_spec start (len text)); [|now exists []].
    pose proof (next_start_gt start (cut_point self text start)).
    destruct (IH (next_start self start (cut_point self text start)) (idx + 1))
      as [rest ->]; [lia|]. eauto.
Qed.

Lemma chunks_from_head start idx c rest :
  chunks_from self text base start idx (c :: rest) -> start_char c = start.
Proof. inversion 1; subst. apply start_char_make_chunk. Qed.

Lemma chunks_from_increasing start idx cs :
  chunks_from self text base start idx cs -> increasing (map start_char cs).
Proof.
  induction 1 as [|start idx rest Hlt Hrest IH]; simpl; [exact I|].
  destruct rest as [|c rest']; simpl; [exact I|].
  split; [|exact IH].
  rewrite start_char_make_chunk, (chunks_from_head _ _ _ _ Hrest).
  apply next_start_gt.
Qed.

Lemma chunks_from_positive start idx cs :
  1 <= chunk_size self -> 0 <= start ->
  chunks_from self text base start idx cs -> Forall (fun c => start_char c < end_char c) cs.
Proof.
  intros Hsize Hstart H. induction H as [|start idx rest Hlt Hrest IH];
    constructor.
  - rewrite start_char_make_chunk, end_char_make_chunk.
    now apply cut_point_range.
  - apply IH. pose proof (next_start_gt start (cut_point self text start)). lia.
Qed.

Lemma chunks_from_content start idx cs :
  chunks_from self text base start idx cs ->
  Forall (fun c => content c = strip (raw_text text c)) cs.
Proof.
  induction 1; constructor; [|assumption].
  unfold raw_text. now rewrite start_char_make_chunk, end_char_make_chunk.
Qed.

Lemma chunks_from_index start idx cs :
  chunks_from self text base start idx cs ->
  map chunk_index cs = map (fun i => idx + Z.of_nat i) (seq 0 (length cs)).
Proof.
  induction 1 as [|start idx rest Hlt Hrest IH]; simpl; [reflexivity|].
  f_equal; [lia|]. rewrite IH, <- seq_shift, map_map.
  apply map_ext. intros i. lia.
Qed.

(** Where every cut advances by more than the overlap, the chunks'
    spans without their overlap regions are the rest of the text. *)
Lemma chunks_from_cover start idx cs :
  0 <= chunk_overlap self -> 0 <= start ->
  chunks_from self text base start idx cs -> Forall (advances (chunk_overlap self)) cs ->
  concat_str (map (fun c => without_overlap (chunk_overlap self) (raw_text text c)) cs)
  = slice text (start + chunk_overlap self) (len text).
Proof.
  intros Hov Hstart H. induction H as [start idx Hge|start idx rest Hlt Hrest IH];
    intros Hadv; simpl.
  - symmetry. apply slice_suffix_empty. lia.
  - inversion Hadv as [|c l Hc Hl]; subst.
    unfold advances in Hc.
    rewrite start_char_make_chunk, end_char_make_chunk in Hc.
    rewrite next_start_unforced in IH, Hrest by assumption.
    rewrite IH by (assumption || lia).
    unfold without_overlap, raw_text.
    rewrite start_char_make_chunk, end_char_make_chunk.
    rewrite slice_drop by lia.
    replace (cut_point self text start - chunk_overlap self + chunk_overlap self)
      with (cut_point self text start) by lia.
    apply slice_suffix_app. lia.
Qed.

(** With [overlap >= chunk_size >= 1] every step is the forced one, of
    exactly one character. *)
Lemma chunks_from_unit_steps start idx cs :
  1 <= chunk_size self <= chunk_overlap self -> 0 <= start ->
  chunks_from self text base start idx cs ->
  map start_char cs = map (fun i => start + Z.of_nat i) (seq 0 (length cs))
  /\ Z.of_nat (length cs) = Z.max 0 (len text - start).
Proof.
  intros Hcfg Hstart H. induction H as [start idx Hge|start idx rest Hlt Hrest IH];
    simpl.
  - split; [reflexivity | lia].
  - pose proof (cut_point_range start (proj1 Hcfg) Hstart) as Hcut.
    rewrite next_start_forced in IH, Hrest by lia.
    replace (Z.max 1 (chunk_size self - chunk_overlap self)) with 1 in IH, Hrest by lia.
    destruct IH as [IHs IHn]; [lia|]. split; [|lia].
    rewrite start_char_make_chunk. f_equal; [lia|].
    rewrite IHs, <- seq_shift, map_map. apply map_ext. intros i. lia.
Qed.

End Loop.

Lemma not_blank_len (text : string) : is_blank text = false -> 0 < len text.
Proof. destruct text; [discriminate|]. intros _. unfold len. simpl. lia. Qed.

Lemma chunk_text_blank self text base :
  is_blank text = true -> chunk_text self text base = Some [].
Proof. intros H. unfold chunk_text. now rewrite H. Qed.

(** [chunk_text] returns for every text and every configuration, also
    those with a non-positive chunk size or an overlap that is not smaller
    than the chunk size. *)
Lemma chunk_text_total self text base :
  exists cs, chunk_text self text base = Some cs.
Proof.
  unfold chunk_text. destruct (is_blank text); [now exists []|].
  apply chunk_loop_terminates. unfold len. lia.
Qed.

Lemma chunk_text_chunks_from self text base cs :
  is_blank text = false -> chunk_text self text base = Some cs ->
  chunks_from self text base 0 0 cs.
Proof.
  intros Hb. unfold chunk_text. rewrite Hb. apply chunk_loop_sound.
Qed.

Lemma ceil_div_le (n k : Z) : 0 <= n -> 1 <= k -> ceil_div n k <= n.
Proof.
  intros Hn Hk. unfold ceil_div.
  destruct (Z.eq_dec n 0) as [->|Hne].
  - rewrite Z.div_small; lia.
  - apply Z.lt_succ_r. apply Z.div_lt_upper_bound; nia.
Qed.

(** C4, as amended.  Empty or whitespace-only text gives the empty chunk
    list, for every configuration.  For any other text and
    [0 <= overlap < chunk_size], [chunk_text] returns a non-empty list of
    chunks in which every chunk has [start_char < end_char], the
    [start_char] values increase strictly from one chunk to the next, and
    every chunk's content is the whitespace-stripped slice
    [text[start_char:end_char]].  The spans -- not the stripped contents --
    rebuild the text: when every chunk's cut lies more than [overlap]
    characters after its start, concatenating the slices
    [text[start_char:end_char]] with the first [overlap] characters of every
    chunk but the first removed gives back the text exactly. *)
Theorem chunk_text_spans (self : TextChunker) (text : string)
    (base : gmap string pyval) :
  (is_blank text = true -> chunk_text self text base = Some [])
  /\ (is_blank text = false ->
      0 <= chunk_overlap self < chunk_size self ->
      exists cs,
        chunk_text self text base = Some cs
        /\ cs <> []
        /\ Forall (fun c => content c = strip (raw_text text c)) cs
        /\ Forall (fun c => start_char c < end_char c) cs
        /\ increasing (map start_char cs)
        /\ (Forall (advances (chunk_overlap self)) cs ->
            reconstruct text (chunk_overlap self) cs = text)).
Proof.
  split; [apply chunk_text_blank|].
  intros Hb [Hov Hsize].
  destruct (chunk_text_total self text base) as [cs Hcs].
  pose proof (chunk_text_chunks_from _ _ _ _ Hb Hcs) as Hfrom.
  pose proof (not_blank_len _ Hb) as Hlen.
  exists cs. split; [exact Hcs|].
  split; [inversion Hfrom; [lia | discriminate]|].
  split; [eapply chunks_from_content; eassumption|].
  split; [apply (chunks_from_positive self text base 0 0 cs); [lia|lia|exact Hfrom]|].
  split; [eapply chunks_from_increasing; eassumption|].
  intros Hadv. inversion Hfrom as [|start idx rest _ Hrest]; subst; [lia|].
  inversion Hadv as [|c l Hc Hl]; subst.
  unfold advances in Hc. rewrite start_char_make_chunk, end_char_make_chunk in Hc.
  rewrite next_start_unforced in Hrest by assumption.
  simpl. rewrite (chunks_from_cover _ _ _ _ _ _ Hov) with (2 := Hrest) by (assumption || lia).
  unfold raw_text. rewrite start_char_make_chunk, end_char_make_chunk.
  replace (cut_point self text 0 - chunk_overlap self + chunk_overlap self)
    with (cut_point self text 0) by lia.
  rewrite slice_suffix_app by lia. apply slice_all. lia.
Qed.

(** C8, as amended.  [chunk_text] terminates for every text and every
    configuration, because the next window always starts after the previous
    one: when [end - overlap] does not pass the previous start, the start
    moves forward by [max(1, chunk_size - overlap)].  For a text that is not
    empty or whitespace-only and [overlap >= chunk_size >= 1] every step is
    such a forced step of one character, so there is one chunk per
    character of the text, which is at least [ceil(len(text)/chunk_size)]. *)
Theorem chunk_text_forward_progress (self : TextChunker) (text : string)
    (base : gmap string pyval) :
  (exists cs, chunk_text self text base = Some cs)
  /\ (forall prev stop,
        prev < next_start self prev stop
        /\ (stop - chunk_overlap self <= prev ->
            next_start self prev stop
            = prev + Z.max 1 (chunk_size self - chunk_overlap self)))
  /\ (is_blank text = false ->
      1 <= chunk_size self <= chunk_overlap self ->
      exists cs,
        chunk_text self text base = Some cs
        /\ map start_char cs = map Z.of_nat (seq 0 (length cs))
        /\ Z.of_nat (length cs) = len text
        /\ ceil_div (len text) (chunk_size self) <= Z.of_nat (length cs)).
Proof.
  split; [apply chunk_text_total|].
  split.
  { intros prev stop. split; [apply next_start_gt|].
    intros H. apply next_start_forced. lia. }
  intros Hb Hcfg.
  destruct (chunk_text_total self text base) as [cs Hcs].
  pose proof (chunk_text_chunks_from _ _ _ _ Hb Hcs) as Hfrom.
  pose proof (not_blank_len _ Hb) as Hlen.
  destruct (chunks_from_unit_steps _ _ _ _ _ _ Hcfg (Z.le_refl 0) Hfrom) as [Hs Hn].
  exists cs. repeat split; [exact Hcs|exact Hs|lia|].
  replace (Z.of_nat (length cs)) with (len text) by lia.
  apply ceil_div_le; lia.
Qed.

(** [chunk_text_spans] at a text of four sentences, chunk size 8 and
    overlap 1. *)
Lemma chunk_text_spans_witness :
  exists cs,
    chunk_text {| chunk_size := 8; chunk_overlap := 1 |} "One. Two. Three. Four." ∅
    = Some cs
    /\ map (fun c => (content c, start_char c, end_char c)) cs
      = [("One.", 0, 5); ("Two.", 4, 10); ("Three.", 9, 17); ("Four.", 16, 24)]
    /\ increasing (map start_char cs)
    /\ reconstruct "One. Two. Three. Four." 1 cs = "One. Two. Three. Four.".
Proof.
  destruct (proj2 (chunk_text_spans {| chunk_size := 8; chunk_overlap := 1 |}
                     "One. Two. Three. Four." ∅))
    as (cs & Hcs & _ & _ & _ & Hinc & Hrec); [reflexivity | simpl; lia |].
  exists cs. split; [exact Hcs|].
  vm_compute in Hcs. injection Hcs as <-.
  split; [vm_compute; reflexivity|].
  split; [exact Hinc|].
  apply Hrec. repeat constructor.
Defined.

(** The claim of C4 read on the chunks' contents fails: the contents are
    stripped, so the white space at a cut is lost.  Chunk size 8 and overlap
    0 split ["hello world foo"] at its spaces; every chunk advances past the
    (empty) overlap, and the contents concatenate to ["helloworldfoo"]. *)
Lemma chunk_text_contents_counterexample :
  is_blank "hello world foo" = false
  /\ 0 <= chunk_overlap {| chunk_size := 8; chunk_overlap := 0 |}
       < chunk_size {| chunk_size := 8; chunk_overlap := 0 |}
  /\ exists cs,
      chunk_text {| chunk_size := 8; chunk_overlap := 0 |} "hello world foo" ∅ = Some cs
      /\ map content cs = ["hello"; "world"; "foo"]
      /\ reconstruct_contents 0 cs = "helloworldfoo"
      /\ reconstruct_contents 0 cs <> "hello world foo".
Proof.
  split; [reflexivity|]. split; [simpl; lia|].
  eexists. split; [vm_compute; reflexivity|].
  split; [reflexivity|]. split; [reflexivity|]. discriminate.
Qed.

(** The forced step can also skip text: with chunk size 10 and overlap 5 the
    first cut of ["a. bcdefghijklmnop"] falls after ["a. "], three characters
    in; [end - overlap] is negative, the start is forced to 5, and the
    characters ["bc"] at positions 3 and 4 belong to no chunk. *)
Example chunk_text_forced_step_gap :
  exists cs,
    chunk_text {| chunk_size := 10; chunk_overlap := 5 |} "a. bcdefghijklmnop" ∅ = Some cs
    /\ map (fun c => (start_char c, end_char c)) cs = [(0, 3); (5, 15); (10, 20); (15, 25)]
    /\ reconstruct "a. bcdefghijklmnop" 5 cs = "a. ijklmnop".
Proof. eexists. split; [vm_compute; reflexivity|]. split; reflexivity. Qed.

(** [chunk_text_forward_progress] at chunk size 2 and overlap 3. *)
Lemma chunk_text_forward_progress_witness :
  exists cs,
    chunk_text {| chunk_size := 2; chunk_overlap := 3 |} "ab cd" ∅ = Some cs
    /\ map start_char cs = [0; 1; 2; 3; 4]
    /\ ceil_div (len "ab cd") 2 <= Z.of_nat (length cs).
Proof.
  destruct (proj2 (proj2 (chunk_text_forward_progress
                            {| chunk_size := 2; chunk_overlap := 3 |} "ab cd" ∅)))
    as (cs & Hcs & Hstarts & Hlen & Hceil); [reflexivity | simpl; lia |].
  exists cs. split; [exact Hcs|]. split; [|exact Hceil].
  vm_compute in Hcs. injection Hcs as <-. reflexivity.
Defined.

(** The claim of C8 fails for a whitespace-only text: a single space with
    chunk size 1 and overlap 1 gives no chunk, and [ceil(1/1) = 1]. *)
Lemma chunk_text_whitespace_counterexample :
  chunk_overlap {| chunk_size := 1; chunk_overlap := 1 |}
    >= chunk_size {| chunk_size := 1; chunk_overlap := 1 |}
  /\ chunk_text {| chunk_size := 1; chunk_overlap := 1 |} " " ∅ = Some []
  /\ Z.of_nat (length (@nil chunk)) < ceil_div (len " ") 1.
Proof. split; [simpl; lia|]. split; [reflexivity|]. vm_compute. reflexivity. Qed.

(** *** Numbering, bounds and pages *)

Lemma metadata_make_chunk base text idx a b k :
  k ∉ ["chunk_index"; "start_char"; "end_char"] ->
  metadata (make_chunk base text idx a b) !! k = base !! k.
Proof.
  intros Hk. rewrite !not_elem_of_cons in Hk. destruct Hk as (H1 & H2 & H3 & _).
  unfold make_chunk. simpl. now rewrite !lookup_insert_ne by congruence.
Qed.

Lemma metadata_index_make_chunk base text idx a b :
  metadata (make_chunk base text idx a b) !! "chunk_index" = Some (PInt idx).
Proof.
  unfold make_chunk. simpl. rewrite !lookup_insert_ne by discriminate.
  apply lookup_insert_eq.
Qed.

Section Chunks.
Variable self : TextChunker.
Variable text : string.
Variable base : gmap string pyval.

Lemma chunks_from_metadata start idx cs :
  chunks_from self text base start idx cs ->
  Forall (fun c =>
            metadata c !! "chunk_index" = Some (PInt (chunk_index c))
            /\ forall k, k ∉ ["chunk_index"; "start_char"; "end_char"] ->
                 metadata c !! k = base !! k) cs.
Proof.
  induction 1; constructor; [|assumption].
  split; [apply metadata_index_make_chunk|].
  intros k Hk. now apply metadata_make_chunk.
Qed.

Lemma chunks_from_bounded start idx cs :
  1 <= chunk_size self -> 0 <= start ->
  chunks_from self text base start idx cs ->
  Forall (fun c =>
            start <= start_char c < len text
            /\ start_char c < end_char c <= start_char c + chunk_size self
            /\ len (content c) <= chunk_size self) cs.
Proof.
  intros Hsize Hstart H. induction H as [|start idx rest Hlt Hrest IH];
    constructor.
  - rewrite start_char_make_chunk, end_char_make_chunk.
    pose proof (cut_point_range self text start Hsize Hstart) as Hcut.
    split; [lia|]. split; [lia|]. simpl.
    pose proof (len_strip (slice text start (cut_point self text start))).
    pose proof (len_slice_le text start (cut_point self text start) ltac:(lia)). lia.
  - pose proof (next_start_gt self start (cut_point self text start)) as Hnext.
    eapply Forall_impl; [apply IH; lia|].
    simpl. intros c (H1 & H2 & H3). repeat split; lia.
Qed.

End Chunks.

Lemma map_index_from_zero (cs : list chunk) :
  map (fun i => 0 + Z.of_nat i) (seq 0 (length cs)) = map Z.of_nat (seq 0 (length cs)).
Proof. apply map_ext. intros i. lia. Qed.

(** [chunk_text] numbers the chunks [0, 1, 2, ...] in the order of the
    list; each chunk's metadata repeats the number under ["chunk_index"],
    and agrees with the metadata passed in on every key other than
    ["chunk_index"], ["start_char"] and ["end_char"]. *)
Theorem chunk_text_numbering (self : TextChunker) (text : string)
    (base : gmap string pyval) :
  exists cs,
    chunk_text self text base = Some cs
    /\ map chunk_index cs = map Z.of_nat (seq 0 (length cs))
    /\ Forall (fun c =>
                 metadata c !! "chunk_index" = Some (PInt (chunk_index c))
                 /\ forall k, k ∉ ["chunk_index"; "start_char"; "end_char"] ->
                      metadata c !! k = base !! k) cs.
Proof.
  destruct (chunk_text_total self text base) as [cs Hcs]. exists cs.
  split; [exact Hcs|].
  destruct (is_blank text) eqn:Hb.
  - rewrite chunk_text_blank in Hcs by assumption. injection Hcs as <-.
    split; [reflexivity | constructor].
  - apply chunk_text_chunks_from in Hcs; [|assumption]. split.
    + rewrite (chunks_from_index _ _ _ _ _ _ Hcs). apply map_index_from_zero.
    + now apply chunks_from_metadata in Hcs.
Qed.

(** With a chunk size of at least one, every chunk starts inside the text,
    spans at least one and at most [chunk_size] characters of it, and has
    a content of at most [chunk_size] characters. *)
Theorem chunk_text_bounded (self : TextChunker) (text : string)
    (base : gmap string pyval) :
  1 <= chunk_size self ->
  exists cs,
    chunk_text self text base = Some cs
    /\ Forall (fun c =>
                 0 <= start_char c < len text
                 /\ start_char c < end_char c <= start_char c + chunk_size self
                 /\ len (content c) <= chunk_size self) cs.
Proof.
  intros Hsize.
  destruct (chunk_text_total self text base) as [cs Hcs]. exists cs.
  split; [exact Hcs|].
  destruct (is_blank text) eqn:Hb.
  - rewrite chunk_text_blank in Hcs by assumption. injection Hcs as <-. constructor.
  - apply chunk_text_chunks_from in Hcs; [|assumption].
    now apply chunks_from_bounded in Hcs.
Qed.

Lemma chunk_text_bounded_witness :
  exists cs,
    chunk_text (init None None) "One. Two. Three." ∅ = Some cs
    /\ Forall (fun c =>
                 0 <= start_char c < 16
                 /\ start_char c < end_char c <= start_char c + 1000
                 /\ len (content c) <= 1000) cs.
Proof.
  apply (chunk_text_bounded (init None None) "One. Two. Three." ∅).
  vm_compute. discriminate.
Defined.

(** An overlap of zero cannot be asked for: [chunk_overlap or
    settings.CHUNK_OVERLAP] replaces it by the configured 200.  A chunker
    built with a chunk size of at most 200 and an overlap of 0 therefore
    has an overlap that is not smaller than its chunk size, and cuts a text
    into one chunk per character. *)
Theorem zero_overlap_is_default (size : Z) (text : string) (base : gmap string pyval) :
  1 <= size <= CHUNK_OVERLAP ->
  is_blank text = false ->
  chunk_overlap (init (Some size) (Some 0)) = CHUNK_OVERLAP
  /\ exists cs,
      chunk_text (init (Some size) (Some 0)) text base = Some cs
      /\ Z.of_nat (length cs) = len text
      /\ map start_char cs = map Z.of_nat (seq 0 (length cs)).
Proof.
  intros Hsize Hblank. split; [reflexivity|].
  set (self := init (Some size) (Some 0)).
  assert (Hcfg : 1 <= chunk_size self <= chunk_overlap self).
  { subst self. unfold init, int_or, CHUNK_OVERLAP in *. simpl.
    destruct (Z.eqb_spec size 0); lia. }
  destruct (chunk_text_total self text base) as [cs Hcs]. exists cs.
  split; [exact Hcs|].
  apply chunk_text_chunks_from in Hcs; [|assumption].
  destruct (chunks_from_unit_steps self text base 0 0 cs Hcfg ltac:(lia) Hcs) as [Hs Hn].
  pose proof (len_nonneg text). split; [lia|].
  rewrite Hs. apply map_index_from_zero.
Qed.

Lemma zero_overlap_is_default_witness :
  exists cs,
    chunk_text (init (Some 100) (Some 0)) "Hello world" ∅ = Some cs
    /\ length cs = 11%nat.
Proof.
  destruct (zero_overlap_is_default 100 "Hello world" ∅) as (_ & cs & Hcs & Hlen & _).
  - unfold CHUNK_OVERLAP. lia.
  - reflexivity.
  - exists cs. split; [exact Hcs|]. change (len "Hello world") with 11 in Hlen. lia.
Defined.

Lemma reindex_length cs i : length (reindex cs i) = length cs.
Proof. revert i. induction cs as [|c cs IH]; intros i; simpl; [reflexivity|]. now rewrite IH. Qed.

Lemma reindex_index cs i :
  map chunk_index (reindex cs i) = map (fun j => i + Z.of_nat j) (seq 0 (length cs)).
Proof.
  revert i. induction cs as [|c cs IH]; intros i; simpl; [reflexivity|].
  f_equal; [lia|]. rewrite IH, <- seq_shift, map_map. apply map_ext. intros j. lia.
Qed.

Lemma reindex_Forall (P : chunk -> Prop) cs i :
  (forall c j, c ∈ cs -> P (set_chunk_index c j)) -> Forall P (reindex cs i).
Proof.
  revert i. induction cs as [|c cs IH]; intros i H; simpl; constructor.
  - apply H. apply elem_of_cons. now left.
  - apply IH. intros c' j Hc'. apply H. apply elem_of_cons. now right.
Qed.

Lemma start_char_set_chunk_index c i : start_char (set_chunk_index c i) = start_char c.
Proof.
  unfold start_char, meta_int, set_chunk_index. simpl.
  now rewrite lookup_insert_ne by discriminate.
Qed.

Lemma end_char_set_chunk_index c i : end_char (set_chunk_index c i) = end_char c.
Proof.
  unfold end_char, meta_int, set_chunk_index. simpl.
  now rewrite lookup_insert_ne by discriminate.
Qed.

Lemma not_blank_strip (text : string) : strip text <> "" -> is_blank text = false.
Proof.
  intros H. unfold is_blank. destruct text; [now destruct H|].
  destruct (strip (String a text)); [now destruct H | reflexivity].
Qed.

Lemma shift_index (g : Z) (n m : nat) :
  map (fun j => g + Z.of_nat j) (seq 0 (n + m))
  = map (fun j => g + Z.of_nat j) (seq 0 n)
    ++ map (fun j => g + Z.of_nat n + Z.of_nat j) (seq 0 m).
Proof.
  rewrite seq_app, map_app. f_equal. simpl.
  rewrite <- (Nat.add_0_r n) at 1. rewrite <- fmap_add_seq.
  change (fmap ?f ?l) with (map f l). rewrite map_map.
  apply map_ext. intros j. lia.
Qed.

(** What the page loop appends: chunks numbered from the counter on, each
    a stripped slice of the text of one of the pages and tagged with that
    page's number. *)
Lemma pages_loop_spec self page_texts base_metadata g cs :
  pages_loop self page_texts base_metadata g = Some (Ok cs) ->
  map chunk_index cs = map (fun j => g + Z.of_nat j) (seq 0 (length cs))
  /\ Forall (fun c => metadata c !! "chunk_index" = Some (PInt (chunk_index c))) cs
  /\ Forall (fun c =>
               exists page_info text,
                 page_info ∈ page_texts
                 /\ page_text page_info = Ok text
                 /\ strip text <> ""
                 /\ metadata c !! "page" = Some (default PNone (page_info !! "page"))
                 /\ content c = strip (slice text (start_char c) (end_char c))
                 /\ forall k, k ∉ ["page"; "chunk_index"; "start_char"; "end_char"] ->
                      metadata c !! k = default ∅ base_metadata !! k) cs.
Proof.
  revert g cs. induction page_texts as [|page_info rest IH]; intros g cs; simpl.
  - intros [= <-]. repeat split; constructor.
  - destruct (page_text page_info) as [text|] eqn:Htext; [|discriminate].
    destruct (String.eqb_spec (strip text) "") as [Hblank|Hblank].
    + intros H. destruct (IH _ _ H) as (Hi & Hm & Hp).
      repeat split; [exact Hi | exact Hm|].
      eapply Forall_impl; [exact Hp|]. simpl.
      intros c (p & t & Hin & H'). exists p, t. split; [|exact H'].
      apply elem_of_cons. now right.
    + set (page_metadata := <["page" := default PNone (page_info !! "page")]>
                              (default ∅ base_metadata)).
      destruct (chunk_text self text page_metadata) as [page_chunks|] eqn:Hpage;
        [|discriminate].
      destruct (pages_loop self rest base_metadata (g + Z.of_nat (length page_chunks)))
        as [[more|]|] eqn:Hmore; try discriminate.
      intros [= <-]. destruct (IH _ _ Hmore) as (Hi & Hm & Hp).
      apply chunk_text_chunks_from in Hpage; [|now apply not_blank_strip].
      pose proof (chunks_from_content _ _ _ _ _ _ Hpage) as Hcontent.
      pose proof (chunks_from_metadata _ _ _ _ _ _ Hpage) as Hmeta.
      rewrite Forall_forall in Hcontent, Hmeta.
      split; [|split].
      * rewrite map_app, length_app, reindex_length, reindex_index, Hi.
        apply eq_sym, shift_index.
      * apply Forall_app. split; [|exact Hm].
        apply reindex_Forall. intros c j _. simpl. apply lookup_insert_eq.
      * apply Forall_app. split.
        -- apply reindex_Forall. intros c j Hc.
           exists page_info, text.
           split; [apply elem_of_cons; now left|].
           split; [exact Htext|]. split; [exact Hblank|].
           destruct (Hmeta c Hc) as [_ Hkeep].
           split; [|split].
           ++ simpl. rewrite lookup_insert_ne by discriminate.
              rewrite Hkeep by (rewrite !not_elem_of_cons; repeat split;
                                  try discriminate; apply not_elem_of_nil).
              apply lookup_insert_eq.
           ++ rewrite start_char_set_chunk_index, end_char_set_chunk_index.
              simpl. apply (Hcontent c Hc).
           ++ intros k Hk. rewrite !not_elem_of_cons in Hk.
              destruct Hk as (H1 & H2 & H3 & H4 & _). simpl.
              rewrite lookup_insert_ne by congruence.
              rewrite Hkeep by (rewrite !not_elem_of_cons; repeat split;
                                  try congruence; apply not_elem_of_nil).
              unfold page_metadata. now rewrite lookup_insert_ne by congruence.
        -- eapply Forall_impl; [exact Hp|]. simpl.
           intros c (p & t & Hin & H'). exists p, t. split; [|exact H'].
           apply elem_of_cons. now right.
Qed.

Lemma pages_loop_total self page_texts base_metadata g :
  Forall (fun page_info => exists text, page_text page_info = Ok text) page_texts ->
  exists cs, pages_loop self page_texts base_metadata g = Some (Ok cs).
Proof.
  intros H. revert g. induction H as [|page_info rest [text Htext] _ IH]; intros g; simpl.
  - now exists [].
  - rewrite Htext. destruct (String.eqb (strip text) ""); [apply IH|].
    destruct (chunk_text_total self text
                (<["page" := default PNone (page_info !! "page")]>
                   (default ∅ base_metadata))) as [page_chunks ->].
    destruct (IH (g + Z.of_nat (length page_chunks))) as [more ->]. eauto.
Qed.

Lemma pages_loop_raises self page_texts base_metadata g :
  Exists (fun page_info => exists e, page_text page_info = Raise e) page_texts ->
  exists e, pages_loop self page_texts base_metadata g = Some (Raise e).
Proof.
  intros H. revert g. induction H as [page_info rest [e He]|page_info rest _ IH];
    intros g; simpl.
  - rewrite He. eauto.
  - destruct (page_text page_info) as [text|e]; [|eauto].
    destruct (String.eqb (strip text) ""); [apply IH|].
    destruct (chunk_text_total self text
                (<["page" := default PNone (page_info !! "page")]>
                   (default ∅ base_metadata))) as [page_chunks ->].
    destruct (IH (g + Z.of_nat (length page_chunks))) as [e ->]. eauto.
Qed.

(** [chunk_text_by_pages] numbers the chunks of all pages together: when
    the text of every page is a string (or absent), it returns chunks whose
    [chunk_index] values are [0, 1, 2, ...] in the order of the list, so no
    two chunks share one, and each chunk's metadata repeats its number.  A
    page whose text is not a string makes the call raise. *)
Theorem chunk_text_by_pages_numbering (self : TextChunker)
    (page_texts : list (gmap string pyval))
    (base_metadata : option (gmap string pyval)) :
  (Forall (fun page_info => exists text, page_text page_info = Ok text) page_texts ->
   exists cs,
     chunk_text_by_pages self page_texts base_metadata = Some (Ok cs)
     /\ map chunk_index cs = map Z.of_nat (seq 0 (length cs))
     /\ NoDup (map chunk_index cs)
     /\ Forall (fun c => metadata c !! "chunk_index" = Some (PInt (chunk_index c))) cs)
  /\ (Exists (fun page_info => exists e, page_text page_info = Raise e) page_texts ->
      exists e, chunk_text_by_pages self page_texts base_metadata = Some (Raise e)).
Proof.
  split; [|apply pages_loop_raises].
  intros Hpages. unfold chunk_text_by_pages.
  destruct (pages_loop_total self page_texts base_metadata 0 Hpages) as [cs Hcs].
  exists cs. split; [exact Hcs|].
  destruct (pages_loop_spec _ _ _ _ _ Hcs) as (Hi & Hm & _).
  rewrite map_index_from_zero in Hi.
  split; [exact Hi|]. split; [|exact Hm].
  rewrite Hi. apply NoDup_fmap; [intros a b; lia | apply NoDup_seq].
Qed.

(** Every chunk [chunk_text_by_pages] returns comes from one page with
    text that is not blank: its content is a stripped slice of that page's
    text, at the offsets its metadata gives, which count from the start of
    the page; its metadata has the page's number under ["page"] and, on the
    keys the chunker does not set, the entries of the base metadata. *)
Theorem chunk_text_by_pages_provenance (self : TextChunker)
    (page_texts : list (gmap string pyval))
    (base_metadata : option (gmap string pyval)) (cs : list chunk) :
  chunk_text_by_pages self page_texts base_metadata = Some (Ok cs) ->
  Forall (fun c =>
            exists page_info text,
              page_info ∈ page_texts
              /\ page_text page_info = Ok text
              /\ strip text <> ""
              /\ metadata c !! "page" = Some (default PNone (page_info !! "page"))
              /\ content c = strip (slice text (start_char c) (end_char c))
              /\ forall k, k ∉ ["page"; "chunk_index"; "start_char"; "end_char"] ->
                   metadata c !! k = default ∅ base_metadata !! k) cs.
Proof.
  intros Hcs. now destruct (pages_loop_spec _ _ _ _ _ Hcs) as (_ & _ & Hp).
Qed.

Lemma chunk_text_by_pages_numbering_witness :
  exists cs,
    chunk_text_by_pages (init (Some 8) (Some 1)) example_pages
      (Some {[ "document_id" := PInt 7 ]}) = Some (Ok cs)
    /\ map chunk_index cs = [0; 1; 2; 3]
    /\ map (fun c => metadata c !! "page") cs
       = [Some (PInt 1); Some (PInt 1); Some (PInt 1); Some (PInt 3)].
Proof.
  destruct (chunk_text_by_pages_numbering (init (Some 8) (Some 1)) example_pages
              (Some {[ "document_id" := PInt 7 ]})) as [Hok _].
  destruct Hok as (cs & Hcs & Hidx & _).
  { repeat constructor; eexists; vm_compute; reflexivity. }
  exists cs. split; [exact Hcs|].
  vm_compute in Hcs. injection Hcs as <-. split; reflexivity.
Defined.

Lemma chunk_text_by_pages_provenance_witness :
  exists cs,
    chunk_text_by_pages (init (Some 8) (Some 1)) example_pages
      (Some {[ "document_id" := PInt 7 ]}) = Some (Ok cs)
    /\ length cs = 4%nat
    /\ Forall (fun c => exists page_info text,
                 page_info ∈ example_pages
                 /\ page_text page_info = Ok text
                 /\ strip text <> ""
                 /\ metadata c !! "page" = Some (default PNone (page_info !! "page"))
                 /\ content c = strip (slice text (start_char c) (end_char c))
                 /\ forall k, k ∉ ["page"; "chunk_index"; "start_char"; "end_char"] ->
                      metadata c !! k
                      = default ∅ (Some ({[ "document_id" := PInt 7 ]}
                                         : gmap string pyval)) !! k) cs.
Proof.
  eexists. split; [vm_compute; reflexivity|]. split; [reflexivity|].
  apply (chunk_text_by_pages_provenance (init (Some 8) (Some 1)) example_pages
           (Some {[ "document_id" := PInt 7 ]})).
  vm_compute. reflexivity.
Defined.

End ChunkingFacts.

(** ** Embeddings *)

Module EmbeddingFacts.
Import Embedding.

Lemma batches_cover {A : Type} (b m : nat) (l : list A) :
  flat_map (fun i => take b (drop i l)) (map (fun j => (b * j)%nat) (seq 0 m))
  = take (b * m) l.
Proof.
  induction m as [|m IH].
  - rewrite Nat.mul_0_r. reflexivity.
  - rewrite seq_S, map_app, flat_map_app, IH. simpl. rewrite app_nil_r.
    rewrite take_take_drop. f_equal. lia.
Qed.

Lemma flat_map_map {A B C : Type} (f : B -> C) (g : A -> list B) (l : list A) :
  flat_map (fun x => map f (g x)) l = map f (flat_map g l).
Proof.
  induction l as [|x l IH]; simpl; [reflexivity|]. now rewrite IH, map_app.
Qed.

Section Generator.
Variable generate_embedding : string -> result (list Q).

Lemma generate_embeddings_map (texts : list string) :
  generate_embeddings generate_embedding texts
  = map (embed_or_zero generate_embedding) texts.
Proof.
  unfold generate_embeddings, batch_starts.
  rewrite flat_map_map, batches_cover. f_equal.
  apply take_ge. unfold batch_size.
  pose proof (Nat.div_mod_eq (length texts + 10 - 1) 10) as Hdiv.
  pose proof (Nat.mod_upper_bound (length texts + 10 - 1) 10 ltac:(lia)). lia.
Qed.

(** [generate_embeddings] never raises and returns exactly one vector per
    text, in the order of the texts, whatever the number of texts and the
    batching: the embedding of the text when the request for it succeeds,
    and the zero vector of 768 entries when it fails. *)
Theorem generate_embeddings_aligned (texts : list string) :
  generate_embeddings generate_embedding texts
  = map (embed_or_zero generate_embedding) texts
  /\ length (generate_embeddings generate_embedding texts) = length texts
  /\ (forall i text,
        texts !! i = Some text ->
        generate_embeddings generate_embedding texts !! i
        = Some (match generate_embedding text with
                | Ok embedding => embedding
                | Raise _ => repeat 0%Q 768
                end)).
Proof.
  pose proof (generate_embeddings_map texts) as H.
  split; [exact H|]. split; [now rewrite H, length_map|].
  intros i text Hi. rewrite H.
  change (map ?f ?l) with (f <$> l). rewrite list_lookup_fmap, Hi. reflexivity.
Qed.

End Generator.

End EmbeddingFacts.

(** ** The vector store *)

Module VectorFacts.
Import PyStr PyStrFacts Chunking ChunkingFacts Vector NumeralFacts.

(** Two strings that are cut at their first underscore are equal part by
    part. *)
Lemma split_at_underscore (x x' r r' : list ascii) :
  Forall (fun c => c <> underscore) x -> Forall (fun c => c <> underscore) x' ->
  x ++ underscore :: r = x' ++ underscore :: r' -> x = x' /\ r = r'.
Proof.
  intros Hx. revert x'. induction Hx as [|c x Hc _ IH]; intros x' Hx' Heq.
  - destruct Hx' as [|c' x' Hc' _]; simpl in Heq.
    + now injection Heq as <-.
    + injection Heq as <- _. contradiction.
  - destruct Hx' as [|c' x' Hc' Hx']; simpl in Heq.
    + injection Heq as -> _. contradiction.
    + injection Heq as <- Heq. destruct (IH x' Hx' Heq) as [-> ->]. now split.
Qed.

(** The id of a stored chunk determines the document, the chunk index and
    the user it was built from. *)
Lemma chroma_id_inj (d i u d' i' u' : Z) :
  chroma_id d i u = chroma_id d' i' u' -> d = d' /\ i = i' /\ u = u'.
Proof.
  unfold chroma_id. intros H. apply (f_equal chars) in H.
  rewrite !chars_app in H.
  change (chars "doc_") with ["d"; "o"; "c"; underscore]%char in H.
  change (chars "_chunk_") with (underscore :: ["c"; "h"; "u"; "n"; "k"; underscore])%char in H.
  change (chars "_user_") with (underscore :: ["u"; "s"; "e"; "r"; underscore])%char in H.
  simpl in H. injection H as H.
  apply split_at_underscore in H; try apply str_of_int_chars.
  destruct H as [Hd H]. injection H as H.
  apply split_at_underscore in H; try apply str_of_int_chars.
  destruct H as [Hi H]. injection H as H.
  apply (f_equal str) in Hd, Hi, H. rewrite !str_chars in Hd, Hi, H.
  repeat split; now apply str_of_int_inj.
Qed.

Section Store.
Variable generate_embedding : string -> result (list Q).
Variable collection_add : batch -> result unit.

Lemma ids_NoDup (chunks : list chunk) (document_id user_id : Z) :
  NoDup (map chunk_index chunks) ->
  NoDup (ids (add_batch generate_embedding chunks document_id user_id)).
Proof.
  intros Hnd. unfold add_batch. cbn [ids].
  rewrite <- (map_map chunk_index (fun i => chroma_id document_id i user_id)).
  apply NoDup_fmap_2; [|exact Hnd].
  intros i j Hij. now apply chroma_id_inj in Hij.
Qed.

(** [add_documents] hands the collection four lists of the same length,
    one entry per chunk and in the order of the chunks: an id that starts
    with ["doc_"], the chunk's content, its metadata extended by the
    document id, the user id and the chunk index, and an embedding.  The id
    determines document, chunk index and user, so chunks with pairwise
    distinct indices get pairwise distinct ids.  The call returns the ids
    when the collection accepts the batch and passes its exception on when
    it does not. *)
Theorem add_documents_aligned (chunks : list chunk) (document_id user_id : Z) :
  let b := add_batch generate_embedding chunks document_id user_id in
  length (ids b) = length chunks
  /\ length (documents b) = length chunks
  /\ length (metadatas b) = length chunks
  /\ length (embeddings b) = length chunks
  /\ Forall (fun i => is_prefix (chars "doc_") (chars i) = true) (ids b)
  /\ Forall2 (fun c meta =>
                meta !! "document_id" = Some (PInt document_id)
                /\ meta !! "user_id" = Some (PInt user_id)
                /\ meta !! "chunk_index" = Some (PInt (chunk_index c))
                /\ forall k, k ∉ ["document_id"; "user_id"; "chunk_index"] ->
                     meta !! k = metadata c !! k) chunks (metadatas b)
  /\ (NoDup (map chunk_index chunks) -> NoDup (ids b))
  /\ add_documents generate_embedding collection_add chunks document_id user_id
     = match collection_add b with
       | Ok _ => Ok (ids b)
       | Raise e => Raise e
       end.
Proof.
  intros b. subst b. unfold add_batch. cbn [ids documents metadatas embeddings].
  rewrite !length_map.
  assert (Hlen : length (Embedding.generate_embeddings generate_embedding
                           (map content chunks)) = length chunks)
    by (now rewrite EmbeddingFacts.generate_embeddings_map, !length_map).
  rewrite Hlen. clear Hlen.
  repeat split.
  - apply Forall_forall. intros i Hi. apply list_elem_of_fmap in Hi.
    destruct Hi as (c & -> & _). reflexivity.
  - induction chunks as [|c cs IH]; simpl; [constructor|].
    constructor; [|exact IH].
    unfold chunk_meta. repeat split.
    + rewrite !lookup_insert_ne by discriminate. apply lookup_insert_eq.
    + rewrite lookup_insert_ne by discriminate. apply lookup_insert_eq.
    + apply lookup_insert_eq.
    + intros k Hk. rewrite !not_elem_of_cons in Hk. destruct Hk as (H1 & H2 & H3 & _).
      now rewrite !lookup_insert_ne by congruence.
  - apply ids_NoDup.
Qed.

(** The chunks of one document, as [chunk_text] or [chunk_text_by_pages]
    returns them, get pairwise distinct ids in the store. *)
Theorem chunked_document_ids (self : TextChunker) (text : string)
    (base : gmap string pyval) (page_texts : list (gmap string pyval))
    (base_metadata : option (gmap string pyval)) (document_id user_id : Z) :
  (forall cs, chunk_text self text base = Some cs ->
     NoDup (ids (add_batch generate_embedding cs document_id user_id)))
  /\ (forall cs, chunk_text_by_pages self page_texts base_metadata = Some (Ok cs) ->
        NoDup (ids (add_batch generate_embedding cs document_id user_id))).
Proof.
  split; intros cs Hcs; apply ids_NoDup.
  - destruct (is_blank text) eqn:Hblank.
    + rewrite chunk_text_blank in Hcs by assumption. injection Hcs as <-. constructor.
    + apply chunk_text_chunks_from in Hcs; [|assumption].
      rewrite (chunks_from_index _ _ _ _ _ _ Hcs).
      apply NoDup_fmap; [intros a b; lia | apply NoDup_seq].
  - destruct (pages_loop_spec _ _ _ _ _ Hcs) as (Hidx & _). rewrite Hidx.
    apply NoDup_fmap; [intros a b; lia | apply NoDup_seq].
Qed.

End Store.

(** The hits of a vector search have a distance and no score. *)
Lemma format_hits_shape (results : QueryResult) (i : nat) (docs : list string)
    (hits : list doc) :
  format_hits results i docs = Ok hits ->
  map doc_content hits = map Some docs
  /\ Forall (fun d => doc_score d = None /\ is_Some (doc_distance d)
                      /\ doc_source d = Some "vector") hits.
Proof.
  revert i hits. induction docs as [|d rest IH]; intros i hits; simpl.
  - intros [= <-]. split; [reflexivity | constructor].
  - destruct (entry (qr_ids results) i _) as [id|]; [|discriminate].
    destruct (entry (qr_metadatas results) i _) as [md|]; [|discriminate].
    destruct (entry (qr_distances results) i _) as [distance|]; [|discriminate].
    simpl. destruct (format_hits results (S i) rest) as [more|] eqn:Hmore; [|discriminate].
    simpl. intros [= <-]. destruct (IH _ _ Hmore) as [Hcontent Hall].
    split; [simpl; now rewrite Hcontent|].
    constructor; [|exact Hall]. simpl. eauto.
Qed.

Section Hits.
Variable generate_embedding : string -> result (list Q).
Variable collection_query : list Q -> Z -> Z -> result (option QueryResult).

Lemma search_unscored (query : string) (user_id top_k : Z) (hits : list doc) :
  Vector.search generate_embedding collection_query query user_id top_k = Ok hits ->
  Forall (fun d => doc_score d = None) hits.
Proof.
  unfold Vector.search. destruct (generate_embedding query) as [embedding|]; [|discriminate].
  simpl. destruct (collection_query embedding top_k user_id) as [[r|]|]; simpl;
    try discriminate; [|intros [= <-]; constructor].
  destruct (qr_documents r) as [[|[|d row] rows]|]; try (intros [= <-]; constructor).
  intros H. apply format_hits_shape in H. destruct H as [_ H].
  eapply Forall_impl; [exact H|]. now intros x [Hx _].
Qed.

End Hits.

(** [chunked_document_ids] at the chunks of [example_pages]. *)
Lemma chunked_document_ids_witness :
  exists cs,
    chunk_text_by_pages (init (Some 8) (Some 2)) example_pages None = Some (Ok cs)
    /\ NoDup (ids (add_batch (fun _ => Ok []) cs 7 1)).
Proof.
  destruct (chunked_document_ids (fun _ => Ok []) (init (Some 8) (Some 2)) ""
              ∅ example_pages None 7 1) as [_ Hpages].
  eexists. split; [vm_compute; reflexivity|].
  apply Hpages. vm_compute. reflexivity.
Defined.

End VectorFacts.

(** ** The keyword index *)

Module BM25Facts.
Import PyFacts BM25.

Section Retriever.
Variable BM25Okapi : Type.
Variable bm25_new : list (list string) -> result BM25Okapi.
Variable get_scores : BM25Okapi -> list string -> result (list Q).

Lemma collect_positive (docs : list doc) (scores : list Q) (ranked : list nat)
    (results : list doc) :
  collect docs scores ranked = Ok results ->
  Forall (fun r => exists s, doc_score r = Some s /\ (0 < s)%Q) results
  /\ (length results <= length ranked)%nat.
Proof.
  revert results. induction ranked as [|idx ranked IH]; intros results; simpl.
  - intros [= <-]. split; [apply Forall_nil_2 | simpl; lia].
  - destruct (Qle_bool (nth_score scores idx) 0) eqn:E.
    + intros H. destruct (IH _ H). split; [assumption | lia].
    + destruct (docs !! idx) as [chunk|]; [|discriminate].
      destruct (doc_content chunk) as [text|]; [|discriminate].
      destruct (collect docs scores ranked) as [rest|] eqn:Hrest; [|discriminate].
      simpl. intros [= <-]. destruct (IH _ eq_refl) as [Hpos Hlen].
      split; [|simpl; lia].
      constructor; [|exact Hpos].
      exists (nth_score scores idx). split; [reflexivity|].
      apply Qnot_le_lt. intros Hle. apply Qle_bool_iff in Hle. congruence.
Qed.

(** [search] returns a list whatever the state of the retriever is. *)
Lemma search_returns (self : BM25Retriever BM25Okapi) (query : string) (top_k : option Z) :
  exists results, search BM25Okapi get_scores self query top_k = Ok results.
Proof.
  unfold search. destruct (bm25 _ self); [|eauto].
  destruct (corpus _ self); [eauto|].
  destruct (search_body _ _ _ _ _ _); eauto.
Qed.

Lemma search_positive_capped (self : BM25Retriever BM25Okapi) (query : string)
    (top_k : option Z) (results : list doc) :
  search BM25Okapi get_scores self query top_k = Ok results ->
  Forall (fun r => exists s, doc_score r = Some s /\ (0 < s)%Q) results
  /\ (0 <= default BM25_TOP_K top_k ->
      (length results <= Z.to_nat (default BM25_TOP_K top_k))%nat).
Proof.
  unfold search.
  assert (Hnil : Forall (fun r => exists s, doc_score r = Some s /\ (0 < s)%Q) []
                 /\ (0 <= default BM25_TOP_K top_k ->
                     (length (@nil doc) <= Z.to_nat (default BM25_TOP_K top_k))%nat))
    by (split; [constructor | simpl; lia]).
  destruct (bm25 _ self) as [index|]; [|now intros [= <-]].
  destruct (corpus _ self) as [|c cs] eqn:Hcorpus; [now intros [= <-]|].
  destruct (search_body _ _ _ _ _ _) as [found|] eqn:Hbody; [|now intros [= <-]].
  intros [= <-]. unfold search_body in Hbody.
  destruct (get_scores index (_tokenize query)) as [scores|]; [|discriminate].
  simpl in Hbody. apply collect_positive in Hbody. destruct Hbody as [Hpos Hlen].
  split; [exact Hpos|]. intros Hk.
  pose proof (py_take_length (default BM25_TOP_K top_k)
                (sorted_desc (nth_score scores) (seq 0 (length scores))) Hk).
  lia.
Qed.

(** A build that is given no chunk, or that raises, leaves the index
    attribute as it was. *)
Lemma build_index_keeps_index (self : BM25Retriever BM25Okapi) (chunks : list doc) :
  chunks = [] \/ (exists e, snd (build_index BM25Okapi bm25_new self chunks) = Raise e) ->
  bm25 _ (fst (build_index BM25Okapi bm25_new self chunks)) = bm25 _ self.
Proof.
  intros [-> | [e He]]; [reflexivity|].
  unfold build_index in *. destruct chunks as [|c cs]; [reflexivity|].
  destruct (check_content (c :: cs)); [|reflexivity].
  destruct (bm25_new _); [discriminate | reflexivity].
Qed.

(** C6.  A retriever that was never successfully built -- it is new, or
    every build so far was given no chunk or raised -- answers every search
    with the empty list, and so does any retriever whose index or corpus is
    missing.  [build_index] on an empty chunk list returns without changing
    the retriever.  Every search returns a list rather than raising; each
    result in it has a score greater than zero, and for a non-negative
    [top_k] (the default [BM25_TOP_K] when none is given) there are at most
    [top_k] results. *)
Theorem search_guards (self : BM25Retriever BM25Okapi) (query : string) (top_k : option Z) :
  search BM25Okapi get_scores (init BM25Okapi) query top_k = Ok []
  /\ search BM25Okapi get_scores
       (fst (build_index BM25Okapi bm25_new (init BM25Okapi) [])) query top_k = Ok []
  /\ (bm25 _ self = None \/ corpus _ self = [] ->
      search BM25Okapi get_scores self query top_k = Ok [])
  /\ (forall chunks,
        bm25 _ self = None ->
        chunks = [] \/ (exists e, snd (build_index BM25Okapi bm25_new self chunks) = Raise e) ->
        search BM25Okapi get_scores
          (fst (build_index BM25Okapi bm25_new self chunks)) query top_k = Ok [])
  /\ build_index BM25Okapi bm25_new self [] = (self, Ok tt)
  /\ exists results,
      search BM25Okapi get_scores self query top_k = Ok results
      /\ Forall (fun r => exists s, doc_score r = Some s /\ (0 < s)%Q) results
      /\ (0 <= default BM25_TOP_K top_k ->
          (length results <= Z.to_nat (default BM25_TOP_K top_k))%nat).
Proof.
  split; [reflexivity|]. split; [reflexivity|].
  split.
  { unfold search. intros [-> | ->]; [reflexivity|]. now destruct (bm25 _ self). }
  split.
  { intros chunks Hnone Hbuild. unfold search.
    now rewrite (build_index_keeps_index self chunks Hbuild), Hnone. }
  split; [reflexivity|].
  destruct (search_returns self query top_k) as [results Hres].
  exists results. split; [exact Hres|].
  exact (search_positive_capped self query top_k results Hres).
Qed.

End Retriever.

(** [search_guards] on the two-chunk corpus of the end-to-end scenario, with
    the stand-in ranking function and [top_k = 1]. *)
Lemma search_guards_witness :
  exists results,
    search _ overlap_scores
      (fst (build_index _ overlap_new (init _)
              [stored_chunk "Paris is the capital of France." 0;
               stored_chunk "It has a population of 2 million." 1]))
      "What is the capital of France?" (Some 1) = Ok results
    /\ map (fun r => (doc_id r, doc_score r)) results = [(Some "bm25_0", Some (4 # 1))]
    /\ (length results <= 1)%nat.
Proof.
  destruct (search_guards _ overlap_new overlap_scores
              (fst (build_index _ overlap_new (init _)
                      [stored_chunk "Paris is the capital of France." 0;
                       stored_chunk "It has a population of 2 million." 1]))
              "What is the capital of France?" (Some 1))
    as (_ & _ & _ & _ & _ & results & Hres & _ & Hcap).
  exists results. split; [exact Hres|].
  split; [|apply Hcap; simpl; lia].
  vm_compute in Hres. injection Hres as <-. reflexivity.
Defined.

Import PyStr PyStrFacts.

(** *** Tokens, ranking and rebuilding *)

Lemma lower_char_idem (c : ascii) : lower_char (lower_char c) = lower_char c.
Proof. destruct c as [[] [] [] [] [] [] [] []]; reflexivity. Qed.

(** The pieces [split] returns are the runs between white space: none is
    empty, none has a white-space character, and together they are the
    text without its white space. *)
Lemma split_chars_spec (P : ascii -> Prop) (cur l : list ascii) :
  Forall (fun c => isspace c = false /\ P c) cur -> Forall P l ->
  Forall (fun t => t <> "" /\ Forall (fun c => isspace c = false /\ P c) (chars t))
    (split_chars cur l)
  /\ concat (map chars (split_chars cur l))
     = rev cur ++ List.filter (fun c => negb (isspace c)) l.
Proof.
  intros Hcur Hl. revert cur Hcur.
  induction Hl as [|c l Hc _ IH]; intros cur Hcur; simpl.
  - destruct cur as [|d cur]; [split; [constructor | reflexivity]|].
    split.
    + constructor; [|constructor]. split.
      * apply str_nonempty. intros H. apply (f_equal (@length ascii)) in H.
        rewrite length_rev in H. discriminate.
      * rewrite chars_str. apply Forall_rev. exact Hcur.
    + simpl. now rewrite chars_str, !app_nil_r.
  - destruct (isspace c) eqn:Hsp; simpl.
    + destruct (IH [] ltac:(constructor)) as [IH1 IH2].
      destruct cur as [|d cur]; [split; [exact IH1 | exact IH2]|].
      split.
      * constructor; [|exact IH1]. split.
        -- apply str_nonempty. intros H. apply (f_equal (@length ascii)) in H.
           rewrite length_rev in H. discriminate.
        -- rewrite chars_str. apply Forall_rev. exact Hcur.
      * simpl. rewrite chars_str, IH2. reflexivity.
    + destruct (IH (c :: cur)) as [IH1 IH2]; [constructor; [split|]; assumption|].
      split; [exact IH1|]. rewrite IH2. simpl. now rewrite <- app_assoc.
Qed.

(** [_tokenize]: every token is non-empty and has neither white space nor
    an upper-case letter; the tokens, put together, are the lower-cased
    text without its white space, so no other character is dropped; and
    tokenizing a text and its lower-cased form gives the same tokens. *)
Theorem tokenize_tokens (text : string) :
  Forall (fun t =>
            t <> ""
            /\ Forall (fun c => isspace c = false /\ lower_char c = c) (chars t))
    (_tokenize text)
  /\ concat (map chars (_tokenize text))
     = List.filter (fun c => negb (isspace c)) (map lower_char (chars text))
  /\ _tokenize (lower text) = _tokenize text.
Proof.
  unfold _tokenize, split, lower. rewrite !chars_str.
  destruct (split_chars_spec (fun c => lower_char c = c) []
              (map lower_char (chars text))) as [H1 H2].
  - constructor.
  - apply Forall_forall. intros c Hc. apply list_elem_of_fmap in Hc.
    destruct Hc as (d & -> & _). apply lower_char_idem.
  - split; [exact H1|]. split; [exact H2|].
    rewrite map_map. f_equal. apply map_ext. intros c. apply lower_char_idem.
Qed.

Section Ranking.
Variable BM25Okapi : Type.
Variable bm25_new : list (list string) -> result BM25Okapi.
Variable get_scores : BM25Okapi -> list string -> result (list Q).

(** Every dictionary [collect] returns is the hit of a ranked position. *)
Lemma collect_hits (docs : list doc) (scores : list Q) (ranked : list nat)
    (results : list doc) :
  collect docs scores ranked = Ok results ->
  Forall (fun r => exists idx chunk text,
            idx ∈ ranked /\ docs !! idx = Some chunk
            /\ doc_content chunk = Some text
            /\ r = hit chunk idx (nth_score scores idx) text) results.
Proof.
  revert results. induction ranked as [|idx ranked IH]; intros results; simpl.
  - intros [= <-]. constructor.
  - assert (Hweak : forall rs,
               Forall (fun r => exists idx chunk text,
                         idx ∈ ranked /\ docs !! idx = Some chunk
                         /\ doc_content chunk = Some text
                         /\ r = hit chunk idx (nth_score scores idx) text) rs ->
               Forall (fun r => exists idx0 chunk text,
                         idx0 ∈ idx :: ranked /\ docs !! idx0 = Some chunk
                         /\ doc_content chunk = Some text
                         /\ r = hit chunk idx0 (nth_score scores idx0) text) rs).
    { intros rs Hrs. eapply Forall_impl; [exact Hrs|].
      simpl. intros r (i & chunk & text & Hi & H).
      exists i, chunk, text. split; [apply elem_of_cons; now right | exact H]. }
    destruct (Qle_bool (nth_score scores idx) 0); [intros H; apply Hweak, IH, H|].
    destruct (docs !! idx) as [chunk|] eqn:Hchunk; [|discriminate].
    destruct (doc_content chunk) as [text|] eqn:Htext; [|discriminate].
    destruct (collect docs scores ranked) as [rest|]; [|discriminate].
    simpl. intros [= <-]. constructor; [|now apply Hweak, IH].
    exists idx, chunk, text. split; [apply elem_of_cons; now left|]. auto.
Qed.

Lemma collect_sorted (docs : list doc) (scores : list Q) (ranked : list nat)
    (results : list doc) :
  StronglySorted (fun i j => (nth_score scores j <= nth_score scores i)%Q) ranked ->
  collect docs scores ranked = Ok results ->
  StronglySorted
    (fun a b => (Pipeline.score_or_zero b <= Pipeline.score_or_zero a)%Q) results.
Proof.
  intros Hsorted. revert results.
  induction Hsorted as [|idx ranked Hranked IH Hidx]; intros results; simpl.
  - intros [= <-]. constructor.
  - destruct (Qle_bool (nth_score scores idx) 0); [apply IH|].
    destruct (docs !! idx) as [chunk|]; [|discriminate].
    destruct (doc_content chunk) as [text|]; [|discriminate].
    destruct (collect docs scores ranked) as [rest|] eqn:Hrest; [|discriminate].
    simpl. intros [= <-]. constructor; [now apply IH|].
    apply collect_hits in Hrest. eapply Forall_impl; [exact Hrest|].
    simpl. intros r (j & c & t & Hj & _ & _ & ->).
    unfold Pipeline.score_or_zero. simpl.
    rewrite Forall_forall in Hidx. apply Hidx. exact Hj.
Qed.

(** The hits of a search are in descending order of the score. *)
Lemma search_sorted (self : BM25Retriever BM25Okapi) (query : string)
    (top_k : option Z) (results : list doc) :
  search BM25Okapi get_scores self query top_k = Ok results ->
  StronglySorted
    (fun a b => (Pipeline.score_or_zero b <= Pipeline.score_or_zero a)%Q) results.
Proof.
  unfold search. intros Hres.
  destruct (bm25 _ self) as [index|]; [|injection Hres as <-; constructor].
  destruct (corpus _ self) as [|c cs] eqn:Hcorpus; [injection Hres as <-; constructor|].
  destruct (search_body _ _ _ _ _ _) as [found|] eqn:Hbody;
    [|injection Hres as <-; constructor].
  injection Hres as <-. unfold search_body in Hbody.
  destruct (get_scores index (_tokenize query)) as [scores|]; [|discriminate].
  simpl in Hbody. rewrite Hcorpus in Hbody.
  eapply collect_sorted; [|exact Hbody].
  unfold py_take. apply StronglySorted_take, sorted_desc_sorted.
Qed.

(** Every hit of a search is built from a chunk of the corpus. *)
Lemma search_hits (self : BM25Retriever BM25Okapi) (query : string)
    (top_k : option Z) (results : list doc) :
  search BM25Okapi get_scores self query top_k = Ok results ->
  Forall (fun r =>
            doc_source r = Some "bm25"
            /\ exists idx chunk,
                 corpus _ self !! idx = Some chunk
                 /\ is_Some (doc_content r)
                 /\ doc_content r = doc_content chunk
                 /\ doc_id r
                    = Some (id_or chunk ("bm25_" +:+ str_of_int (Z.of_nat idx)))
                 /\ doc_chunk_index r
                    = Some (default (Z.of_nat idx) (doc_chunk_index chunk)))
    results.
Proof.
  unfold search. intros Hres.
  destruct (bm25 _ self) as [index|]; [|injection Hres as <-; constructor].
  destruct (corpus _ self) as [|c cs] eqn:Hcorpus; [injection Hres as <-; constructor|].
  destruct (search_body _ _ _ _ _ _) as [found|] eqn:Hbody;
    [|injection Hres as <-; constructor].
  injection Hres as <-. unfold search_body in Hbody.
  destruct (get_scores index (_tokenize query)) as [scores|]; [|discriminate].
  simpl in Hbody. rewrite Hcorpus in Hbody.
  apply collect_hits in Hbody. eapply Forall_impl; [exact Hbody|].
  simpl. intros r (idx & chunk & text & _ & Hchunk & Htext & ->).
  split; [reflexivity|]. exists idx, chunk. simpl.
  split; [exact Hchunk|]. split; [eauto|]. now rewrite Htext.
Qed.

(** [search] returns its hits best first: the scores never increase along
    the list.  Every hit is tagged with the source ["bm25"] and is built
    from one chunk of the corpus: it has that chunk's content, the chunk's
    id or else ["bm25_"] followed by the chunk's position, and the chunk's
    [chunk_index] or else its position. *)
Theorem search_ranked (self : BM25Retriever BM25Okapi) (query : string)
    (top_k : option Z) :
  exists results,
    search BM25Okapi get_scores self query top_k = Ok results
    /\ StronglySorted
         (fun a b => (Pipeline.score_or_zero b <= Pipeline.score_or_zero a)%Q) results
    /\ Forall (fun r =>
                 doc_source r = Some "bm25"
                 /\ exists idx chunk,
                      corpus _ self !! idx = Some chunk
                      /\ is_Some (doc_content r)
                      /\ doc_content r = doc_content chunk
                      /\ doc_id r
                         = Some (id_or chunk ("bm25_" +:+ str_of_int (Z.of_nat idx)))
                      /\ doc_chunk_index r
                         = Some (default (Z.of_nat idx) (doc_chunk_index chunk)))
         results.
Proof.
  destruct (search_returns BM25Okapi get_scores self query top_k) as [results Hres].
  exists results. split; [exact Hres|].
  split; [exact (search_sorted _ _ _ _ Hres) | exact (search_hits _ _ _ _ Hres)].
Qed.

(** [build_index] with at least one chunk.  When a chunk lacks the key
    ["content"] the call raises a [ValueError], and when the index
    constructor raises, its exception is passed on; in both cases the corpus
    has already been replaced by the new chunks while the index object is
    still the old one.  When the call returns, corpus, token lists and
    index all belong to the new chunks, one token list per chunk. *)
Theorem build_index_outcome (self : BM25Retriever BM25Okapi) (chunks : list doc) :
  chunks <> [] ->
  (Exists (fun c => doc_content c = None) chunks ->
   build_index BM25Okapi bm25_new self chunks
   = ({| corpus := chunks; tokenized_corpus := tokenized_corpus _ self;
         bm25 := bm25 _ self |},
      Raise (Exn ValueError "Chunk missing required key: 'content'")))
  /\ (Forall (fun c => is_Some (doc_content c)) chunks ->
      match bm25_new (map content_tokens chunks) with
      | Ok index =>
          build_index BM25Okapi bm25_new self chunks
          = ({| corpus := chunks; tokenized_corpus := map content_tokens chunks;
                bm25 := Some index |}, Ok tt)
      | Raise e =>
          build_index BM25Okapi bm25_new self chunks
          = ({| corpus := chunks; tokenized_corpus := map content_tokens chunks;
                bm25 := bm25 _ self |}, Raise e)
      end
      /\ length (tokenized_corpus _ (fst (build_index BM25Okapi bm25_new self chunks)))
         = length (corpus _ (fst (build_index BM25Okapi bm25_new self chunks)))).
Proof.
  assert (Hbad : Exists (fun c => doc_content c = None) chunks ->
                 check_content chunks
                 = Raise (Exn ValueError "Chunk missing required key: 'content'")).
  { induction 1 as [c rest Hc|c rest _ IH]; simpl.
    - now rewrite Hc.
    - destruct (doc_content c); [exact IH | reflexivity]. }
  assert (Hgood : Forall (fun c => is_Some (doc_content c)) chunks ->
                  check_content chunks = Ok tt).
  { clear Hbad. induction 1 as [|c rest [text Hc] _ IH]; simpl; [reflexivity|].
    now rewrite Hc. }
  intros Hne. unfold build_index. destruct chunks as [|c cs]; [congruence|]. split.
  - intros H. now rewrite (Hbad H).
  - intros H. rewrite (Hgood H).
    destruct (bm25_new (map content_tokens (c :: cs))); simpl;
      (split; [reflexivity | now rewrite length_map]).
Qed.

End Ranking.

(** [build_index_outcome] at a retriever that holds an index for one chunk
    and is rebuilt with a chunk that has no content: the call raises, the
    corpus is the new chunk, and the index is still the old one. *)
Lemma build_index_outcome_witness :
  build_index _ overlap_new
    (fst (build_index _ overlap_new (init _) [stored_chunk "old text" 0]))
    [doc_with_id "c1" "upload"]
  = ({| corpus := [doc_with_id "c1" "upload"];
        tokenized_corpus := [["old"; "text"]];
        bm25 := Some [["old"; "text"]] |},
     Raise (Exn ValueError "Chunk missing required key: 'content'")).
Proof.
  destruct (build_index_outcome _ overlap_new
              (fst (build_index _ overlap_new (init _) [stored_chunk "old text" 0]))
              [doc_with_id "c1" "upload"]) as [Hbad _]; [discriminate|].
  apply Hbad. constructor. reflexivity.
Defined.

End BM25Facts.

(** ** Reciprocal rank fusion *)

Module HybridFacts.
Import PyFacts FloatFacts Hybrid.

Lemma dict_get_app fused key e0 k :
  dict_get (fused ++ [(key, e0)]) k
  = match dict_get fused k with
    | Some e => Some e
    | None => if String.eqb key k then Some e0 else None
    end.
Proof.
  induction fused as [|[k' e'] fused IH]; simpl; [reflexivity|].
  now destruct (String.eqb k' k).
Qed.

Lemma dict_get_alter f fused key k :
  dict_get (dict_alter f fused key) k
  = if String.eqb key k then option_map f (dict_get fused k) else dict_get fused k.
Proof.
  induction fused as [|[k' e'] fused IH]; simpl; [now destruct (String.eqb key k)|].
  destruct (String.eqb_spec k' key) as [->|Hne]; simpl.
  - destruct (String.eqb_spec key k); reflexivity.
  - rewrite IH. destruct (String.eqb_spec key k) as [->|Hne'].
    + destruct (String.eqb_spec k' k); [congruence | reflexivity].
    + reflexivity.
Qed.

(** One iteration adds its rank term to the score of its own key and leaves
    every other score alone. *)
Lemma add_result_score fused source rank result k :
  score_of (add_result fused source rank result) k
  = if String.eqb (chunk_id source rank result) k
    then fadd (score_of fused k) (rank_score rank)
    else score_of fused k.
Proof.
  unfold add_result, score_of. rewrite dict_get_alter.
  destruct (String.eqb_spec (chunk_id source rank result) k) as [->|Hne].
  - destruct (dict_get fused k) as [e|] eqn:E.
    + rewrite E. reflexivity.
    + rewrite dict_get_app, E, String.eqb_refl. reflexivity.
  - destruct (dict_get fused (chunk_id source rank result)) as [e|]; [reflexivity|].
    rewrite dict_get_app.
    destruct (dict_get fused k); [reflexivity|].
    now destruct (String.eqb_spec (chunk_id source rank result) k).
Qed.

(** The score of a key after a list has been added: the rank terms of the
    list for this key are added to it one after the other. *)
Lemma add_results_score fused source rank results k :
  score_of (add_results fused source rank results) k
  = fold_left fadd (contributions source rank results k) (score_of fused k).
Proof.
  revert fused rank. induction results as [|r results IH]; intros fused rank;
    cbn [add_results contributions]; [reflexivity|].
  rewrite IH, add_result_score, fold_left_app.
  now destruct (String.eqb (chunk_id source rank r) k).
Qed.

Lemma add_result_in fused source rank result k :
  is_Some (dict_get (add_result fused source rank result) k)
  <-> is_Some (dict_get fused k) \/ chunk_id source rank result = k.
Proof.
  unfold add_result. rewrite dict_get_alter.
  destruct (String.eqb_spec (chunk_id source rank result) k) as [->|Hne].
  - destruct (dict_get fused k) as [e|] eqn:E.
    + rewrite E. simpl. split; eauto.
    + rewrite dict_get_app, E, String.eqb_refl. simpl. split; eauto.
  - destruct (dict_get fused (chunk_id source rank result)) as [e|].
    + split; [eauto | intros [?|?]; [assumption | congruence]].
    + rewrite dict_get_app.
      destruct (dict_get fused k) as [e'|]; [split; eauto|].
      destruct (String.eqb_spec (chunk_id source rank result) k); [congruence|].
      split; [eauto | intros [?|?]; [assumption | congruence]].
Qed.

Lemma add_results_in fused source rank results k :
  is_Some (dict_get (add_results fused source rank results) k)
  <-> is_Some (dict_get fused k) \/ k ∈ keys_from source rank results.
Proof.
  revert fused rank. induction results as [|r results IH]; intros fused rank; simpl.
  - rewrite elem_of_nil. tauto.
  - rewrite IH, add_result_in, elem_of_cons. intuition congruence.
Qed.

Lemma contributions_absent source rank results k :
  k ∉ keys_from source rank results -> contributions source rank results k = [].
Proof.
  revert rank. induction results as [|r results IH]; intros rank Hk;
    cbn [contributions keys_from] in *; [reflexivity|].
  rewrite not_elem_of_cons in Hk. destruct Hk as [Hne Hk].
  rewrite IH by assumption.
  destruct (String.eqb_spec (chunk_id source rank r) k); [congruence | reflexivity].
Qed.

Lemma contributions_unique source rank results i k :
  NoDup (keys_from source rank results) ->
  keys_from source rank results !! i = Some k ->
  contributions source rank results k = [rank_score (rank + i)].
Proof.
  revert rank i. induction results as [|r results IH]; intros rank i Hnd Hi;
    cbn [contributions keys_from] in *.
  - discriminate.
  - apply NoDup_cons in Hnd. destruct Hnd as [Hnotin Hnd].
    destruct i as [|i]; simpl in Hi.
    + injection Hi as Hk. subst k. rewrite String.eqb_refl, Nat.add_0_r.
      now rewrite contributions_absent.
    + destruct (String.eqb_spec (chunk_id source rank r) k) as [Heq|Hne].
      * exfalso. apply Hnotin. rewrite Heq. eapply list_elem_of_lookup_2. exact Hi.
      * rewrite (IH (S rank) i) by assumption.
        now replace (S rank + i)%nat with (rank + S i)%nat by lia.
Qed.

(** The accumulated score of a key: the rank terms of the keyword list and
    then those of the vector list, added to [0.0] one after the other. *)
Lemma fuse_score bm25_results vector_results k :
  score_of (fuse bm25_results vector_results) k
  = fold_left fadd (contributions "vector" 0 vector_results k)
      (fold_left fadd (contributions "bm25" 0 bm25_results k) 0%Q).
Proof. unfold fuse. now rewrite !add_results_score. Qed.

Lemma fuse_in bm25_results vector_results k :
  is_Some (dict_get (fuse bm25_results vector_results) k)
  <-> k ∈ keys "bm25" bm25_results \/ k ∈ keys "vector" vector_results.
Proof.
  unfold fuse, keys. rewrite !add_results_in. simpl.
  split; [intros [[[? H]|?]|?]; [discriminate | tauto | tauto] | tauto].
Qed.

Lemma fuse_lookup bm25_results vector_results k :
  k ∈ keys "bm25" bm25_results \/ k ∈ keys "vector" vector_results ->
  exists e,
    dict_get (fuse bm25_results vector_results) k = Some e
    /\ fe_rrf_score e
       = fold_left fadd (contributions "vector" 0 vector_results k)
           (fold_left fadd (contributions "bm25" 0 bm25_results k) 0%Q).
Proof.
  intros Hk. apply fuse_in in Hk. destruct Hk as [e He].
  exists e. split; [exact He|].
  rewrite <- fuse_score. unfold score_of. now rewrite He.
Qed.

Lemma final_results_sorted (items : list fused_entry) :
  StronglySorted (fun a b => (fe_rrf_score b <= fe_rrf_score a)%Q) items ->
  StronglySorted (fun a b => (out_score b <= out_score a)%Q) (map final_result items).
Proof.
  induction 1 as [|x l Hl IH Hx]; simpl; constructor; [exact IH|].
  apply Forall_forall. intros r Hr.
  apply list_elem_of_fmap in Hr. destruct Hr as (item & -> & Hin).
  unfold out_score. simpl. apply py_round_mono; [lia|].
  rewrite Forall_forall in Hx. now apply Hx.
Qed.

(** C2, as amended.  With ids that are unique within each list, the score
    accumulated for an item at rank [r1] of the keyword list and rank [r2]
    of the vector list is the float [0.0 + 1.0/(60+r1+1) + 1.0/(60+r2+1)]:
    the two quotients are added to [0.0] one after the other, the keyword
    term first, and every quotient and every sum is rounded to the nearest
    float.  For an item of one list only it is the single quotient of that
    list.  The fused items are ordered by descending accumulated score and
    the first [top_k] of them are returned; what a returned item carries as
    [rrf_score] is the accumulated score rounded to six decimal places, and
    these rounded scores are in descending order too. *)
Theorem rrf_fusion (bm25_results vector_results : list doc) (top_k : Z) :
  (forall k r1 r2,
      NoDup (keys "bm25" bm25_results) -> NoDup (keys "vector" vector_results) ->
      keys "bm25" bm25_results !! r1 = Some k ->
      keys "vector" vector_results !! r2 = Some k ->
      exists e,
        dict_get (fuse bm25_results vector_results) k = Some e
        /\ fe_rrf_score e
           = fadd (fadd 0 (fdiv 1 (float_of_int (60 + Z.of_nat r1 + 1))))
               (fdiv 1 (float_of_int (60 + Z.of_nat r2 + 1))))
  /\ (forall k r1,
        NoDup (keys "bm25" bm25_results) ->
        keys "bm25" bm25_results !! r1 = Some k ->
        k ∉ keys "vector" vector_results ->
        exists e,
          dict_get (fuse bm25_results vector_results) k = Some e
          /\ fe_rrf_score e = fadd 0 (fdiv 1 (float_of_int (60 + Z.of_nat r1 + 1)))
          /\ (fe_rrf_score e == fdiv 1 (float_of_int (60 + Z.of_nat r1 + 1)))%Q)
  /\ (forall k r2,
        NoDup (keys "vector" vector_results) ->
        k ∉ keys "bm25" bm25_results ->
        keys "vector" vector_results !! r2 = Some k ->
        exists e,
          dict_get (fuse bm25_results vector_results) k = Some e
          /\ fe_rrf_score e = fadd 0 (fdiv 1 (float_of_int (60 + Z.of_nat r2 + 1)))
          /\ (fe_rrf_score e == fdiv 1 (float_of_int (60 + Z.of_nat r2 + 1)))%Q)
  /\ Permutation (ranked bm25_results vector_results)
       (map snd (fuse bm25_results vector_results))
  /\ StronglySorted (fun a b => (fe_rrf_score b <= fe_rrf_score a)%Q)
       (ranked bm25_results vector_results)
  /\ _reciprocal_rank_fusion bm25_results vector_results top_k
     = map final_result (py_take top_k (ranked bm25_results vector_results))
  /\ (forall item, out_score (final_result item) = py_round (fe_rrf_score item) 6)
  /\ StronglySorted (fun a b => (out_score b <= out_score a)%Q)
       (_reciprocal_rank_fusion bm25_results vector_results top_k)
  /\ (0 <= top_k ->
      _reciprocal_rank_fusion bm25_results vector_results top_k
      = map final_result (take (Z.to_nat top_k) (ranked bm25_results vector_results))
      /\ (length (_reciprocal_rank_fusion bm25_results vector_results top_k)
          <= Z.to_nat top_k)%nat).
Proof.
  split.
  { intros k r1 r2 Hnd1 Hnd2 H1 H2.
    destruct (fuse_lookup bm25_results vector_results k) as (e & He & Hscore).
    { left. eapply list_elem_of_lookup_2. exact H1. }
    exists e. split; [exact He|]. rewrite Hscore.
    rewrite (contributions_unique "bm25" 0 bm25_results r1 k Hnd1 H1).
    rewrite (contributions_unique "vector" 0 vector_results r2 k Hnd2 H2).
    reflexivity. }
  split.
  { intros k r1 Hnd1 H1 Hout.
    destruct (fuse_lookup bm25_results vector_results k) as (e & He & Hscore).
    { left. eapply list_elem_of_lookup_2. exact H1. }
    exists e. split; [exact He|]. rewrite Hscore.
    rewrite (contributions_unique "bm25" 0 bm25_results r1 k Hnd1 H1).
    rewrite (contributions_absent "vector" 0 vector_results k Hout).
    split; [reflexivity|]. apply fadd_zero_l. }
  split.
  { intros k r2 Hnd2 Hout H2.
    destruct (fuse_lookup bm25_results vector_results k) as (e & He & Hscore).
    { right. eapply list_elem_of_lookup_2. exact H2. }
    exists e. split; [exact He|]. rewrite Hscore.
    rewrite (contributions_unique "vector" 0 vector_results r2 k Hnd2 H2).
    rewrite (contributions_absent "bm25" 0 bm25_results k Hout).
    split; [reflexivity|]. apply fadd_zero_l. }
  split; [apply sorted_desc_perm|].
  split; [apply sorted_desc_sorted|].
  split; [reflexivity|].
  split; [reflexivity|].
  split.
  { unfold _reciprocal_rank_fusion, py_take. apply final_results_sorted.
    apply StronglySorted_take, sorted_desc_sorted. }
  intros Hk. unfold _reciprocal_rank_fusion.
  split; [now rewrite py_take_nonneg|].
  rewrite length_map. now apply py_take_length.
Qed.

(** [rrf_fusion] at a keyword list [a, b] and a vector list [b, c]: the
    shared item [b] collects both terms and comes first. *)
Lemma rrf_fusion_witness :
  (exists e,
      dict_get (fuse [doc_with_id "a" "bm25"; doc_with_id "b" "bm25"]
                     [doc_with_id "b" "vector"; doc_with_id "c" "vector"]) "b" = Some e
      /\ fe_rrf_score e
         = fadd (fadd 0 (fdiv 1 (float_of_int (60 + 1 + 1))))
             (fdiv 1 (float_of_int (60 + 0 + 1))))
  /\ map doc_id
       (_reciprocal_rank_fusion [doc_with_id "a" "bm25"; doc_with_id "b" "bm25"]
          [doc_with_id "b" "vector"; doc_with_id "c" "vector"] 2)
     = [Some "b"; Some "a"]
  /\ (length (_reciprocal_rank_fusion [doc_with_id "a" "bm25"; doc_with_id "b" "bm25"]
                [doc_with_id "b" "vector"; doc_with_id "c" "vector"] 2) <= 2)%nat.
Proof.
  destruct (rrf_fusion [doc_with_id "a" "bm25"; doc_with_id "b" "bm25"]
              [doc_with_id "b" "vector"; doc_with_id "c" "vector"] 2)
    as (Hboth & _ & _ & _ & _ & _ & _ & _ & Hcap).
  split.
  { apply (Hboth "b" 1%nat 0%nat); try reflexivity.
    - vm_compute. repeat constructor;
        rewrite ?elem_of_cons, ?elem_of_nil; intuition discriminate.
    - vm_compute. repeat constructor;
        rewrite ?elem_of_cons, ?elem_of_nil; intuition discriminate. }
  split; [vm_compute; reflexivity|].
  apply Hcap. lia.
Defined.

(** The claim of C2 read on the returned [rrf_score] fails: an item at rank
    0 of both lists is returned with the float [0.032787], the rounding of
    its accumulated score to six decimal places.  That is neither the
    float [1.0/61 + 1.0/61] nor the number [1/61 + 1/61]. *)
Lemma rrf_rounding_counterexample :
  exists r,
    _reciprocal_rank_fusion [doc_with_id "a" "bm25"] [doc_with_id "a" "vector"] 5 = [r]
    /\ keys "bm25" [doc_with_id "a" "bm25"] !! 0%nat = Some "a"
    /\ keys "vector" [doc_with_id "a" "vector"] !! 0%nat = Some "a"
    /\ (out_score r == fl (32787 # 1000000))%Q
    /\ ~ (out_score r
          == fadd (fadd 0 (fdiv 1 (float_of_int (60 + 0 + 1))))
               (fdiv 1 (float_of_int (60 + 0 + 1))))%Q
    /\ ~ (out_score r == 1 / inject_Z (60 + 0 + 1) + 1 / inject_Z (60 + 0 + 1))%Q.
Proof.
  eexists. split; [vm_compute; reflexivity|]. split; [reflexivity|].
  split; [reflexivity|]. split; [vm_compute; reflexivity|].
  split; intros H; vm_compute in H; discriminate.
Qed.

(** Two items whose accumulated scores are equal as numbers,
    [1/72 + 1/88 = 1/99 + 1/66], are not equal as floats: the item added
    second has the greater float and is returned first. *)
Example rrf_fusion_float_order :
  (1 / 72 + 1 / 88 == 1 / 99 + 1 / 66)%Q
  /\ (fadd (fadd 0 (rank_score 11)) (rank_score 27)
      < fadd (fadd 0 (rank_score 38)) (rank_score 5))%Q
  /\ (py_round (fadd 0 (rank_score 579)) 6 == fl (1563 # 1000000))%Q.
Proof. split; [reflexivity|]. split; vm_compute; reflexivity. Qed.

(** *** Sources of the fused items *)

Lemma set_add_idem (x : string) (s : list string) : set_add x (set_add x s) = set_add x s.
Proof.
  induction s as [|y s IH]; simpl.
  - now rewrite String.eqb_refl.
  - destruct (String.eqb x y) eqn:E; simpl; [now rewrite E|].
    destruct (String.ltb x y) eqn:L; simpl.
    + now rewrite String.eqb_refl.
    + now rewrite E, L, IH.
Qed.

Lemma add_result_sources fused source rank result k :
  sources_of (add_result fused source rank result) k
  = if String.eqb (chunk_id source rank result) k
    then set_add source (sources_of fused k)
    else sources_of fused k.
Proof.
  unfold add_result, sources_of. rewrite dict_get_alter.
  destruct (String.eqb_spec (chunk_id source rank result) k) as [->|Hne].
  - destruct (dict_get fused k) as [e|] eqn:E.
    + rewrite E. reflexivity.
    + rewrite dict_get_app, E, String.eqb_refl. reflexivity.
  - destruct (dict_get fused (chunk_id source rank result)) as [e|]; [reflexivity|].
    rewrite dict_get_app. destruct (dict_get fused k); [reflexivity|].
    now destruct (String.eqb_spec (chunk_id source rank result) k).
Qed.

Lemma add_results_sources fused source rank results k :
  sources_of (add_results fused source rank results) k
  = if bool_decide (k ∈ keys_from source rank results)
    then set_add source (sources_of fused k)
    else sources_of fused k.
Proof.
  revert fused rank. induction results as [|r results IH]; intros fused rank;
    cbn [keys_from add_results].
  - rewrite bool_decide_eq_false_2 by apply not_elem_of_nil. reflexivity.
  - rewrite IH, add_result_sources.
    destruct (String.eqb_spec (chunk_id source rank r) k) as [Heq|Hne].
    + rewrite (bool_decide_eq_true_2 (k ∈ chunk_id source rank r :: _))
        by (apply elem_of_cons; now left).
      destruct (bool_decide (k ∈ keys_from source (S rank) results));
        [apply set_add_idem | reflexivity].
    + destruct (decide (k ∈ keys_from source (S rank) results)) as [Hin|Hout].
      * rewrite !bool_decide_eq_true_2; [reflexivity | apply elem_of_cons; now right | assumption].
      * rewrite !bool_decide_eq_false_2; [reflexivity | | assumption].
        rewrite not_elem_of_cons. split; [congruence | assumption].
Qed.

(** The source set of a fused key names exactly the retrievers that
    returned the key. *)
Lemma fuse_sources bm25_results vector_results k :
  sources_of (fuse bm25_results vector_results) k
  = retrievers_of bm25_results vector_results k.
Proof.
  unfold fuse, retrievers_of, keys. rewrite !add_results_sources.
  unfold sources_of at 1. simpl.
  destruct (bool_decide (k ∈ keys_from "bm25" 0 bm25_results));
    destruct (bool_decide (k ∈ keys_from "vector" 0 vector_results)); reflexivity.
Qed.

(** The dictionary never holds a key twice. *)
Lemma dict_get_None_notin fused k : dict_get fused k = None -> k ∉ map fst fused.
Proof.
  induction fused as [|[k' e] fused IH]; simpl; [intros _; apply not_elem_of_nil|].
  destruct (String.eqb_spec k' k); [discriminate|].
  intros H. rewrite not_elem_of_cons. split; [congruence | now apply IH].
Qed.

Lemma dict_alter_keys f fused key : map fst (dict_alter f fused key) = map fst fused.
Proof.
  induction fused as [|[k e] fused IH]; simpl; [reflexivity|].
  destruct (String.eqb k key); simpl; [reflexivity | now rewrite IH].
Qed.

Lemma add_result_NoDup fused source rank result :
  NoDup (map fst fused) -> NoDup (map fst (add_result fused source rank result)).
Proof.
  intros Hnd. unfold add_result. rewrite dict_alter_keys.
  destruct (dict_get fused (chunk_id source rank result)) eqn:E; [exact Hnd|].
  rewrite map_app. simpl. apply NoDup_app. split; [exact Hnd|]. split.
  - intros x Hx Hx'. apply list_elem_of_singleton in Hx'. subst x.
    now apply dict_get_None_notin in E.
  - apply NoDup_singleton.
Qed.

Lemma add_results_NoDup fused source rank results :
  NoDup (map fst fused) -> NoDup (map fst (add_results fused source rank results)).
Proof.
  revert fused rank. induction results as [|r results IH]; intros fused rank H; simpl;
    [exact H|]. now apply IH, add_result_NoDup.
Qed.

Lemma fuse_NoDup bm25_results vector_results :
  NoDup (map fst (fuse bm25_results vector_results)).
Proof. unfold fuse. apply add_results_NoDup, add_results_NoDup. constructor. Qed.

Lemma dict_get_elem_of fused k e :
  NoDup (map fst fused) -> (k, e) ∈ fused -> dict_get fused k = Some e.
Proof.
  induction fused as [|[k' e'] fused IH]; simpl; intros Hnd Hin.
  - now apply elem_of_nil in Hin.
  - apply NoDup_cons in Hnd. destruct Hnd as [Hnotin Hnd].
    apply elem_of_cons in Hin. destruct Hin as [[= -> ->]|Hin].
    + now rewrite String.eqb_refl.
    + destruct (String.eqb_spec k' k) as [->|Hne]; [|now apply IH].
      exfalso. apply Hnotin. apply list_elem_of_fmap. now exists (k, e).
Qed.

Lemma dict_get_Some_elem_of fused k e : dict_get fused k = Some e -> (k, e) ∈ fused.
Proof.
  induction fused as [|[k' e'] fused IH]; simpl; [discriminate|].
  destruct (String.eqb_spec k' k) as [->|Hne].
  - intros [= ->]. apply elem_of_cons. now left.
  - intros H. apply elem_of_cons. right. now apply IH.
Qed.

Lemma dict_get_is_Some fused k : is_Some (dict_get fused k) <-> k ∈ map fst fused.
Proof.
  split.
  - intros [e He]. apply dict_get_Some_elem_of in He.
    apply list_elem_of_fmap. now exists (k, e).
  - destruct (dict_get fused k) eqn:E; [eauto|].
    intros H. now apply dict_get_None_notin in E.
Qed.


Lemma dict_alter_keyed f fused key :
  (forall e, fe_result (f e) = fe_result e) -> keyed fused -> keyed (dict_alter f fused key).
Proof.
  intros Hf. unfold keyed. induction 1 as [|[k e] fused Hk Hrest IH]; simpl; [constructor|].
  destruct (String.eqb k key); constructor.
  - simpl in *. now rewrite Hf.
  - exact Hrest.
  - exact Hk.
  - exact IH.
Qed.

Lemma add_result_keyed fused source rank result :
  keyed fused -> keyed (add_result fused source rank result).
Proof.
  intros H. unfold add_result. apply dict_alter_keyed; [reflexivity|].
  destruct (dict_get fused _); [exact H|].
  apply Forall_app. split; [exact H|]. constructor; [|constructor].
  simpl. eauto.
Qed.

Lemma add_results_keyed fused source rank results :
  keyed fused -> keyed (add_results fused source rank results).
Proof.
  revert fused rank. induction results as [|r results IH]; intros fused rank H; simpl;
    [exact H|]. now apply IH, add_result_keyed.
Qed.

Lemma fuse_keyed bm25_results vector_results : keyed (fuse bm25_results vector_results).
Proof. unfold fuse. apply add_results_keyed, add_results_keyed. constructor. Qed.

Lemma chunk_id_of_id source rank result i :
  doc_id result = Some i -> i <> "" -> chunk_id source rank result = i.
Proof.
  intros Hi Hne. unfold chunk_id, id_or. rewrite Hi.
  now destruct (String.eqb_spec i "").
Qed.

(** Every fused item lists the retrievers that returned its key. *)
Lemma fusion_result_sources (bm25_results vector_results : list doc) (top_k : Z) :
  Forall (fun r =>
            doc_source r = Some "hybrid"
            /\ exists k,
                (k ∈ keys "bm25" bm25_results \/ k ∈ keys "vector" vector_results)
                /\ doc_sources r = Some (retrievers_of bm25_results vector_results k)
                /\ forall i, doc_id r = Some i -> i <> "" -> k = i)
    (_reciprocal_rank_fusion bm25_results vector_results top_k).
Proof.
  apply Forall_forall. intros r Hr. unfold _reciprocal_rank_fusion in Hr.
  apply list_elem_of_fmap in Hr. destruct Hr as (item & -> & Hitem).
  split; [reflexivity|].
  assert (Hin : item ∈ map snd (fuse bm25_results vector_results)).
  { rewrite <- (sorted_desc_perm fe_rrf_score (map snd _)).
    unfold py_take in Hitem. eapply subseteq_take. exact Hitem. }
  apply list_elem_of_fmap in Hin. destruct Hin as ([k e] & -> & Hke). simpl.
  pose proof (dict_get_elem_of _ _ _ (fuse_NoDup _ _) Hke) as Hget.
  pose proof (fuse_sources bm25_results vector_results k) as Hsrc.
  unfold sources_of in Hsrc. rewrite Hget in Hsrc.
  exists k. split; [apply fuse_in; eauto|].
  split; [now rewrite Hsrc|].
  intros i Hi Hne.
  pose proof (fuse_keyed bm25_results vector_results) as Hkeyed.
  unfold keyed in Hkeyed. rewrite Forall_forall in Hkeyed.
  destruct (Hkeyed _ Hke) as (source & rank & Hkey). simpl in Hkey.
  rewrite <- Hkey. now apply chunk_id_of_id.
Qed.

Lemma retrievers_of_bm25 (bm25_results vector_results : list doc) (k : string) :
  "bm25" ∈ retrievers_of bm25_results vector_results k <-> k ∈ keys "bm25" bm25_results.
Proof.
  unfold retrievers_of.
  destruct (decide (k ∈ keys "bm25" bm25_results)) as [Hb|Hb].
  - rewrite (bool_decide_eq_true_2 _ Hb). split; [auto|].
    intros _. apply elem_of_cons. now left.
  - rewrite (bool_decide_eq_false_2 _ Hb). split; [|contradiction].
    destruct (bool_decide (k ∈ keys "vector" vector_results)); simpl;
      rewrite ?elem_of_cons, ?elem_of_nil; intuition discriminate.
Qed.

Lemma retrievers_of_vector (bm25_results vector_results : list doc) (k : string) :
  "vector" ∈ retrievers_of bm25_results vector_results k
  <-> k ∈ keys "vector" vector_results.
Proof.
  unfold retrievers_of.
  destruct (decide (k ∈ keys "vector" vector_results)) as [Hv|Hv].
  - rewrite (bool_decide_eq_true_2 _ Hv). split; [auto|].
    intros _. apply elem_of_app. right. apply elem_of_cons. now left.
  - rewrite (bool_decide_eq_false_2 _ Hv). split; [|contradiction].
    destruct (bool_decide (k ∈ keys "bm25" bm25_results)); simpl;
      rewrite ?elem_of_cons, ?elem_of_nil; intuition discriminate.
Qed.

(** Every item [_reciprocal_rank_fusion] returns is tagged ["hybrid"], was
    accumulated under a key that one of the two lists has, and lists under
    ["sources"] exactly the retrievers whose list has that key: ["bm25"],
    ["vector"], or both in this order.  The key is the item's id when it
    has a non-empty one.  For a non-negative [top_k] the number of items
    returned is [top_k] or the number of distinct keys of the two lists,
    whichever is smaller. *)
Theorem fusion_sources (bm25_results vector_results : list doc) (top_k : Z) :
  Forall (fun r =>
            doc_source r = Some "hybrid"
            /\ exists k,
                (k ∈ keys "bm25" bm25_results \/ k ∈ keys "vector" vector_results)
                /\ doc_sources r = Some (retrievers_of bm25_results vector_results k)
                /\ ("bm25" ∈ default [] (doc_sources r) <-> k ∈ keys "bm25" bm25_results)
                /\ ("vector" ∈ default [] (doc_sources r)
                    <-> k ∈ keys "vector" vector_results)
                /\ forall i, doc_id r = Some i -> i <> "" -> k = i)
    (_reciprocal_rank_fusion bm25_results vector_results top_k)
  /\ (0 <= top_k ->
      length (_reciprocal_rank_fusion bm25_results vector_results top_k)
      = Nat.min (Z.to_nat top_k)
          (length (remove_dups (keys "bm25" bm25_results
                                ++ keys "vector" vector_results)))).
Proof.
  split.
  - eapply Forall_impl; [apply fusion_result_sources|]. simpl.
    intros r (Hsource & k & Hk & Hsrc & Hid).
    split; [exact Hsource|]. exists k. rewrite Hsrc. cbn [from_option id].
    split; [exact Hk|]. split; [reflexivity|].
    split; [apply retrievers_of_bm25|]. split; [apply retrievers_of_vector | exact Hid].
  - intros Hk. unfold _reciprocal_rank_fusion, ranked.
    rewrite length_map, py_take_nonneg, length_take, sorted_desc_length by assumption.
    f_equal. rewrite length_map, <- (length_map fst).
    apply Permutation_length, NoDup_Permutation.
    + apply fuse_NoDup.
    + apply NoDup_remove_dups.
    + intros k. rewrite <- dict_get_is_Some, fuse_in, elem_of_remove_dups, elem_of_app.
      reflexivity.
Qed.

Lemma dict_alter_app_fresh f fused key e :
  dict_get fused key = None ->
  dict_alter f (fused ++ [(key, e)]) key = fused ++ [(key, f e)].
Proof.
  induction fused as [|[k' e'] fused IH]; simpl.
  - intros _. now rewrite String.eqb_refl.
  - destruct (String.eqb k' key); [discriminate|]. intros H. now rewrite IH.
Qed.

Lemma add_results_fresh fused source rank results :
  (forall k, k ∈ keys_from source rank results -> dict_get fused k = None) ->
  NoDup (keys_from source rank results) ->
  add_results fused source rank results = fused ++ single_entries source rank results.
Proof.
  revert fused rank. induction results as [|r results IH]; intros fused rank Hnew Hnd;
    cbn [add_results single_entries keys_from] in *.
  - now rewrite app_nil_r.
  - apply NoDup_cons in Hnd. destruct Hnd as [Hnotin Hnd].
    assert (Hkey : dict_get fused (chunk_id source rank r) = None)
      by (apply Hnew, elem_of_cons; now left).
    unfold add_result. rewrite Hkey, dict_alter_app_fresh by assumption.
    cbn [fe_result fe_rrf_score fe_sources set_add].
    rewrite IH; [now rewrite <- app_assoc | | assumption].
    intros k Hk. rewrite dict_get_app, (Hnew k) by (apply elem_of_cons; now right).
    destruct (String.eqb_spec (chunk_id source rank r) k); [congruence | reflexivity].
Qed.

Lemma sorted_desc_id {A : Type} (key : A -> Q) (l : list A) :
  StronglySorted (fun a b => (key b <= key a)%Q) l -> sorted_desc key l = l.
Proof.
  induction 1 as [|x l Hl IH Hx]; [reflexivity|].
  unfold sorted_desc in *. simpl. rewrite IH.
  destruct l as [|y l']; [reflexivity|]. simpl.
  apply Forall_cons in Hx. destruct Hx as [Hy _].
  apply Qle_bool_iff in Hy. now rewrite Hy.
Qed.

Lemma rank_score_antitone (i j : nat) : (i <= j)%nat -> (rank_score j <= rank_score i)%Q.
Proof.
  intros Hij. unfold rank_score, rrf_k, fdiv. apply fl_mono.
  pose proof (float_of_int_positive (60 + Z.of_nat i + 1) ltac:(lia)) as Hi.
  pose proof (float_of_int_positive (60 + Z.of_nat j + 1) ltac:(lia)) as Hj.
  pose proof (float_of_int_mono (60 + Z.of_nat i + 1) (60 + Z.of_nat j + 1) ltac:(lia))
    as Hle.
  apply Qle_shift_div_l; [exact Hi|].
  unfold Qdiv. rewrite Qmult_1_l, Qmult_comm.
  apply Qle_shift_div_r; [exact Hj|]. now rewrite Qmult_1_l.
Qed.

Lemma single_entries_scores source rank results :
  Forall (fun p => exists i, (rank <= i)%nat /\ fe_rrf_score p.2 = fadd 0 (rank_score i))
    (single_entries source rank results).
Proof.
  revert rank. induction results as [|r results IH]; intros rank;
    cbn [single_entries]; constructor.
  - exists rank. split; [lia | reflexivity].
  - eapply Forall_impl; [apply IH|]. cbn beta. intros p (i & Hi & Hp).
    exists i. split; [lia | exact Hp].
Qed.

Lemma single_entries_sorted source rank results :
  StronglySorted (fun a b => (fe_rrf_score b <= fe_rrf_score a)%Q)
    (map snd (single_entries source rank results)).
Proof.
  revert rank. induction results as [|r results IH]; intros rank;
    cbn [single_entries map]; constructor.
  - apply IH.
  - apply Forall_fmap. eapply Forall_impl; [apply (single_entries_scores source (S rank))|].
    cbn beta. intros p (i & Hi & Hp). unfold compose. cbn [fe_rrf_score]. rewrite Hp.
    unfold fadd. apply fl_mono. apply Qplus_le_r, rank_score_antitone. lia.
Qed.

Lemma single_entries_results source rank results :
  map (fun p => fe_result p.2) (single_entries source rank results) = results.
Proof.
  revert rank. induction results as [|r results IH]; intros rank; simpl; [reflexivity|].
  now rewrite IH.
Qed.

Lemma single_entries_sources source rank results :
  Forall (fun p => fe_sources p.2 = [source]) (single_entries source rank results).
Proof.
  revert rank. induction results as [|r results IH]; intros rank; simpl; constructor;
    [reflexivity | apply IH].
Qed.

Lemma py_take_map {A B : Type} (f : A -> B) (k : Z) (l : list A) :
  py_take k (map f l) = map f (py_take k l).
Proof. unfold py_take. rewrite length_map. apply eq_sym, fmap_take. Qed.

(** Fusion of one list whose keys are pairwise distinct with nothing. *)
Lemma fusion_single source (results : list doc) (top_k : Z) :
  NoDup (keys source results) ->
  let out := map final_result
               (py_take top_k (map snd (single_entries source 0 results))) in
  map payload out = map payload (py_take top_k results)
  /\ Forall (fun r => doc_source r = Some "hybrid" /\ doc_sources r = Some [source]) out.
Proof.
  intros Hnd out. subst out. split.
  - rewrite py_take_map, !map_map.
    rewrite <- (single_entries_results source 0 results) at 2.
    rewrite py_take_map, map_map. reflexivity.
  - apply Forall_fmap, Forall_forall. intros item Hitem.
    split; [reflexivity|]. simpl. f_equal.
    rewrite py_take_map in Hitem.
    apply list_elem_of_fmap in Hitem. destruct Hitem as (p & -> & Hp).
    unfold py_take in Hp. apply subseteq_take in Hp.
    pose proof (single_entries_sources source 0 results) as H.
    rewrite Forall_forall in H. now apply H.
Qed.

(** Fusion of the hits of one retriever with an empty list. *)
Lemma fusion_of_one (source : string) (results : list doc) (top_k : Z) :
  NoDup (keys source results) ->
  let out := map final_result
               (py_take top_k
                  (sorted_desc fe_rrf_score
                     (map snd (add_results [] source 0 results)))) in
  map payload out = map payload (py_take top_k results)
  /\ Forall (fun r => doc_source r = Some "hybrid" /\ doc_sources r = Some [source]) out.
Proof.
  intros Hnd.
  rewrite (add_results_fresh [] source 0 results) by (done || exact Hnd).
  rewrite app_nil_l, sorted_desc_id by apply single_entries_sorted.
  now apply fusion_single.
Qed.

(** When one of the two lists is empty and the ids of the other are
    pairwise distinct, fusion keeps that list's ranking: the items returned
    are its first [top_k] results in their order, with every entry but
    ["source"], ["rrf_score"] and ["sources"] as it was, each tagged
    ["hybrid"] and listing the one retriever as its source. *)
Theorem fusion_one_sided (results : list doc) (top_k : Z) :
  (NoDup (keys "bm25" results) ->
   map payload (_reciprocal_rank_fusion results [] top_k)
   = map payload (py_take top_k results)
   /\ Forall (fun r => doc_source r = Some "hybrid" /\ doc_sources r = Some ["bm25"])
        (_reciprocal_rank_fusion results [] top_k))
  /\ (NoDup (keys "vector" results) ->
      map payload (_reciprocal_rank_fusion [] results top_k)
      = map payload (py_take top_k results)
      /\ Forall (fun r => doc_source r = Some "hybrid" /\ doc_sources r = Some ["vector"])
           (_reciprocal_rank_fusion [] results top_k)).
Proof.
  split; intros Hnd.
  - apply (fusion_of_one "bm25" results top_k Hnd).
  - apply (fusion_of_one "vector" results top_k Hnd).
Qed.

(** [fusion_one_sided] at three vector hits and [top_k = 2]. *)
Lemma fusion_one_sided_witness :
  map doc_id
    (_reciprocal_rank_fusion []
       [doc_with_id "doc_1_chunk_0_user_1" "vector";
        doc_with_id "doc_1_chunk_4_user_1" "vector";
        doc_with_id "doc_2_chunk_0_user_1" "vector"] 2)
  = [Some "doc_1_chunk_0_user_1"; Some "doc_1_chunk_4_user_1"]
  /\ map doc_sources
       (_reciprocal_rank_fusion []
          [doc_with_id "doc_1_chunk_0_user_1" "vector";
           doc_with_id "doc_1_chunk_4_user_1" "vector";
           doc_with_id "doc_2_chunk_0_user_1" "vector"] 2)
     = [Some ["vector"]; Some ["vector"]].
Proof.
  destruct (fusion_one_sided
              [doc_with_id "doc_1_chunk_0_user_1" "vector";
               doc_with_id "doc_1_chunk_4_user_1" "vector";
               doc_with_id "doc_2_chunk_0_user_1" "vector"] 2) as [_ Hvector].
  destruct Hvector as [Hpayload _].
  - vm_compute. repeat constructor; rewrite ?elem_of_cons, ?elem_of_nil;
      intuition discriminate.
  - apply (f_equal (map (fun p => p.1.1.1.1.1.1))) in Hpayload.
    rewrite !map_map in Hpayload. split; [exact Hpayload | reflexivity].
Defined.

(** A retriever whose keyword index was never built -- the module-level one
    of [nodes.py] is such a retriever: nothing calls [build_bm25_index] on
    it -- contributes no keyword hit, so [search] returns the vector hits
    alone: when the vector search raises, so does [search]; otherwise the
    result is the fusion of the empty list with the vector hits, which for
    hits with pairwise distinct ids is the first [top_k] of them in the
    order of the vector search, each listing ["vector"] as its only
    source. *)
Theorem search_without_index {BM25Okapi : Type}
    (get_scores : BM25Okapi -> list string -> result (list Q))
    (bm25_retriever : BM25.BM25Retriever BM25Okapi)
    (vector_search : string -> Z -> Z -> result (list doc))
    (query : string) (user_id : Z) (top_k : option Z) :
  BM25.bm25 _ bm25_retriever = None \/ BM25.corpus _ bm25_retriever = [] ->
  match vector_search query user_id VECTOR_TOP_K with
  | Raise e =>
      search get_scores bm25_retriever vector_search query user_id top_k = Raise e
  | Ok vector_results =>
      let k := default HYBRID_TOP_K top_k in
      search get_scores bm25_retriever vector_search query user_id top_k
      = Ok (_reciprocal_rank_fusion [] vector_results k)
      /\ (NoDup (keys "vector" vector_results) ->
          map payload (_reciprocal_rank_fusion [] vector_results k)
          = map payload (py_take k vector_results)
          /\ Forall (fun r => doc_sources r = Some ["vector"])
               (_reciprocal_rank_fusion [] vector_results k))
  end.
Proof.
  intros Hunbuilt. unfold search.
  assert (Hbm25 : BM25.search BM25Okapi get_scores bm25_retriever query
                    (Some BM25.BM25_TOP_K) = Ok []).
  { unfold BM25.search. destruct Hunbuilt as [-> | ->]; [reflexivity|].
    now destruct (BM25.bm25 _ bm25_retriever). }
  rewrite Hbm25. cbn [mbind result_bind].
  destruct (vector_search query user_id VECTOR_TOP_K) as [vector_results|e];
    [|reflexivity].
  split; [reflexivity|]. intros Hnd.
  destruct (fusion_of_one "vector" vector_results (default HYBRID_TOP_K top_k) Hnd)
    as [Hpay Hsrc].
  split; [exact Hpay|].
  eapply Forall_impl; [exact Hsrc|]. now intros r [_ Hr].
Qed.

Lemma search_without_index_witness :
  search BM25.overlap_scores (BM25.init _)
    (fun _ _ _ => Ok [doc_with_id "doc_1_chunk_0_user_1" "vector";
                      doc_with_id "doc_1_chunk_4_user_1" "vector"])
    "capital of France" 1 (Some 10)
  = Ok (_reciprocal_rank_fusion []
          [doc_with_id "doc_1_chunk_0_user_1" "vector";
           doc_with_id "doc_1_chunk_4_user_1" "vector"] 10)
  /\ map doc_sources
       (_reciprocal_rank_fusion []
          [doc_with_id "doc_1_chunk_0_user_1" "vector";
           doc_with_id "doc_1_chunk_4_user_1" "vector"] 10)
     = [Some ["vector"]; Some ["vector"]].
Proof.
  pose proof (search_without_index BM25.overlap_scores (BM25.init _)
                (fun _ _ _ => Ok [doc_with_id "doc_1_chunk_0_user_1" "vector";
                                  doc_with_id "doc_1_chunk_4_user_1" "vector"])
                "capital of France" 1 (Some 10) (or_introl eq_refl)) as H.
  cbv beta iota in H. destruct H as [Hsearch _].
  split; [exact Hsearch | reflexivity].
Defined.

Lemma keys_from_elem source rank results k :
  k ∈ keys_from source rank results ->
  exists r rank', r ∈ results /\ k = chunk_id source rank' r.
Proof.
  revert rank. induction results as [|r results IH]; intros rank; simpl.
  - intros H. now apply elem_of_nil in H.
  - rewrite elem_of_cons. intros [->|H].
    + exists r, rank. split; [apply elem_of_cons; now left | reflexivity].
    + destruct (IH _ H) as (r' & rank' & Hr' & ->).
      exists r', rank'. split; [apply elem_of_cons; now right | reflexivity].
Qed.

Lemma is_prefix_nonempty (p : string) (i : string) :
  p <> "" -> PyStr.is_prefix (PyStr.chars p) (PyStr.chars i) = true -> i <> "".
Proof. intros Hp H ->. destruct p; [congruence | discriminate]. Qed.

(** Keyword hits and vector hits of the pipeline never meet in the fusion.
    The chunks the pipeline indexes have no ["id"], so the keyword search
    names its hits ["bm25_<position>"], while the ids of the vector store
    start with ["doc_"].  No key is therefore shared by the two lists:
    every fused item lists exactly one retriever as its source, and no
    item collects a rank term from both lists. *)
Theorem pipeline_hits_never_merge {BM25Okapi : Type}
    (get_scores : BM25Okapi -> list string -> result (list Q))
    (bm25_retriever : BM25.BM25Retriever BM25Okapi) (query : string)
    (bm25_top_k : option Z) (vector_results : list doc) (top_k : Z) :
  Forall (fun c => doc_id c = None) (BM25.corpus _ bm25_retriever) ->
  Forall (fun v => exists i, doc_id v = Some i
                   /\ PyStr.is_prefix (PyStr.chars "doc_") (PyStr.chars i) = true)
    vector_results ->
  exists bm25_results,
    BM25.search BM25Okapi get_scores bm25_retriever query bm25_top_k = Ok bm25_results
    /\ (forall k, k ∈ keys "bm25" bm25_results -> k ∉ keys "vector" vector_results)
    /\ Forall (fun r => doc_sources r = Some ["bm25"] \/ doc_sources r = Some ["vector"])
         (_reciprocal_rank_fusion bm25_results vector_results top_k).
Proof.
  intros Hcorpus Hvector.
  destruct (BM25Facts.search_returns BM25Okapi get_scores bm25_retriever query bm25_top_k)
    as (bm25_results & Hsearch).
  pose proof (BM25Facts.search_hits _ _ _ _ _ _ Hsearch) as Hhits.
  exists bm25_results. split; [exact Hsearch|].
  assert (Hb : forall k, k ∈ keys "bm25" bm25_results ->
                 PyStr.is_prefix (PyStr.chars "bm25_") (PyStr.chars k) = true).
  { intros k Hk. apply keys_from_elem in Hk. destruct Hk as (r & rank & Hr & ->).
    rewrite Forall_forall in Hhits. destruct (Hhits r Hr) as (_ & idx & chunk & Hc & _ & _ & Hid & _).
    rewrite Forall_forall in Hcorpus.
    assert (Hnone : doc_id chunk = None)
      by (apply Hcorpus; eapply list_elem_of_lookup_2; exact Hc).
    unfold id_or in Hid. rewrite Hnone in Hid.
    unfold chunk_id, id_or. rewrite Hid. reflexivity. }
  assert (Hv : forall k, k ∈ keys "vector" vector_results ->
                 PyStr.is_prefix (PyStr.chars "doc_") (PyStr.chars k) = true).
  { intros k Hk. apply keys_from_elem in Hk. destruct Hk as (r & rank & Hr & ->).
    rewrite Forall_forall in Hvector. destruct (Hvector r Hr) as (i & Hi & Hpre).
    rewrite (chunk_id_of_id _ _ _ i Hi); [exact Hpre|].
    eapply is_prefix_nonempty; [|exact Hpre]. discriminate. }
  assert (Hdisj : forall k, k ∈ keys "bm25" bm25_results ->
                    k ∉ keys "vector" vector_results).
  { intros k Hk Hk'. apply Hb in Hk. apply Hv in Hk'.
    destruct k as [|c k]; [discriminate|].
    cbn [PyStr.is_prefix PyStr.chars list_ascii_of_string] in Hk, Hk'.
    apply andb_true_iff in Hk, Hk'. destruct Hk as [Hk _]. destruct Hk' as [Hk' _].
    apply Ascii.eqb_eq in Hk, Hk'. congruence. }
  split; [exact Hdisj|].
  eapply Forall_impl; [apply fusion_result_sources|]. simpl.
  intros r (_ & k & Hk & -> & _). unfold retrievers_of.
  destruct (decide (k ∈ keys "bm25" bm25_results)) as [Hin|Hout].
  - rewrite (bool_decide_eq_true_2 _ Hin),
            (bool_decide_eq_false_2 _ (Hdisj k Hin)). now left.
  - rewrite (bool_decide_eq_false_2 _ Hout). destruct Hk as [Hk|Hk]; [contradiction|].
    rewrite (bool_decide_eq_true_2 _ Hk). now right.
Qed.

Lemma pipeline_hits_never_merge_witness :
  exists bm25_results,
    BM25.search _ BM25.overlap_scores
      (fst (BM25.build_index _ BM25.overlap_new (BM25.init _)
              [BM25.stored_chunk "Paris is the capital of France." 0;
               BM25.stored_chunk "It has a population of 2 million." 1]))
      "capital of France" None = Ok bm25_results
    /\ map doc_sources
         (_reciprocal_rank_fusion bm25_results
            [doc_with_id "doc_1_chunk_0_user_1" "vector"] 5)
       = [Some ["bm25"]; Some ["vector"]; Some ["bm25"]].
Proof.
  destruct (pipeline_hits_never_merge BM25.overlap_scores
              (fst (BM25.build_index _ BM25.overlap_new (BM25.init _)
                      [BM25.stored_chunk "Paris is the capital of France." 0;
                       BM25.stored_chunk "It has a population of 2 million." 1]))
              "capital of France" None
              [doc_with_id "doc_1_chunk_0_user_1" "vector"] 5)
    as (bm25_results & Hsearch & _).
  - repeat constructor.
  - repeat constructor. exists "doc_1_chunk_0_user_1". split; reflexivity.
  - exists bm25_results. split; [exact Hsearch|].
    vm_compute in Hsearch. injection Hsearch as <-. reflexivity.
Defined.

Lemma dict_alter_results (P : doc -> Prop) f fused key :
  (forall e, fe_result (f e) = fe_result e) ->
  Forall (fun p => P (fe_result p.2)) fused ->
  Forall (fun p => P (fe_result p.2)) (dict_alter f fused key).
Proof.
  intros Hf. induction 1 as [|[k e] fused Hk Hrest IH]; simpl; [constructor|].
  destruct (String.eqb k key); constructor; simpl in *;
    [now rewrite Hf | exact Hrest | exact Hk | exact IH].
Qed.

Lemma add_results_results (P : doc -> Prop) fused source rank results :
  Forall (fun p => P (fe_result p.2)) fused -> Forall P results ->
  Forall (fun p => P (fe_result p.2)) (add_results fused source rank results).
Proof.
  intros Hfused Hresults. revert fused rank Hfused.
  induction Hresults as [|r results Hr _ IH]; intros fused rank Hfused; simpl;
    [exact Hfused|].
  apply IH. unfold add_result. apply dict_alter_results; [reflexivity|].
  destruct (dict_get fused _); [exact Hfused|].
  apply Forall_app. split; [exact Hfused|]. now repeat constructor.
Qed.

(** Fusion hands the ["score"] entries on as they are. *)
Lemma fusion_unscored (bm25_results vector_results : list doc) (top_k : Z) :
  Forall (fun d => doc_score d = None) bm25_results ->
  Forall (fun d => doc_score d = None) vector_results ->
  Forall (fun d => doc_score d = None)
    (_reciprocal_rank_fusion bm25_results vector_results top_k).
Proof.
  intros Hb Hv. unfold _reciprocal_rank_fusion, ranked.
  apply Forall_fmap, Forall_forall. intros item Hitem.
  unfold py_take in Hitem. apply subseteq_take in Hitem.
  rewrite (sorted_desc_perm fe_rrf_score) in Hitem.
  apply list_elem_of_fmap in Hitem. destruct Hitem as (p & -> & Hp).
  assert (H : Forall (fun p => doc_score (fe_result p.2) = None)
                (fuse bm25_results vector_results)).
  { unfold fuse.
    apply (add_results_results (fun d => doc_score d = None)); [|exact Hv].
    apply (add_results_results (fun d => doc_score d = None)); [constructor | exact Hb]. }
  rewrite Forall_forall in H. exact (H p Hp).
Qed.

End HybridFacts.

(** ** The reranker *)

Module RerankFacts.
Import PyFacts Rerank.

Section Reranker.
Variable CrossEncoder : Type.
Variable predict : CrossEncoder -> list (string * string) -> result (list Q).

(** [rerank] returns a list whatever the model does. *)
Lemma rerank_returns (self : Reranker CrossEncoder) query documents top_k :
  exists results, rerank _ predict self query documents top_k = Ok results.
Proof.
  unfold rerank. destruct (model _ self) as [m|]; [|eauto].
  destruct documents as [|d ds]; [eauto|].
  destruct (rerank_body _ _ _ _ _ _) as [documents' [results|e]]; eauto.
Qed.

Lemma rerank_without_model (self : Reranker CrossEncoder) query documents top_k :
  model _ self = None ->
  rerank _ predict self query documents top_k
  = Ok (match top_k with
        | Some k => if k =? 0 then documents else py_take k documents
        | None => documents
        end).
Proof. intros H. unfold rerank. now rewrite H. Qed.

Lemma rerank_predict_fails (self : Reranker CrossEncoder) query documents top_k
    m pairs e :
  model _ self = Some m ->
  make_pairs query documents = Ok pairs ->
  predict m pairs = Raise e ->
  rerank _ predict self query documents top_k
  = Ok (py_take (int_or top_k RERANK_TOP_K) documents).
Proof.
  intros Hm Hpairs Hpredict. unfold rerank. rewrite Hm.
  destruct documents as [|d ds]; [unfold py_take; now rewrite take_nil|].
  unfold rerank_body. now rewrite Hpairs, Hpredict.
Qed.

Lemma int_or_positive (k : Z) (default : Z) : 0 < k -> int_or (Some k) default = k.
Proof. intros Hk. unfold int_or. destruct (Z.eqb_spec k 0); [lia | reflexivity]. Qed.

(** C5, as amended.  [rerank] never raises.  Without a model it returns the
    input documents themselves, so no [rerank_score] is attached: the first
    [top_k] of them when [top_k] is a positive integer, and all of them when
    [top_k] is [None] or [0].  When the model's scoring call fails it
    returns the input documents truncated to [top_k], where a [top_k] of
    [None] or [0] stands for [RERANK_TOP_K = 3]. *)
Theorem rerank_degradation (self : Reranker CrossEncoder) (query : string)
    (documents : list doc) (top_k : option Z) :
  (exists results, rerank _ predict self query documents top_k = Ok results)
  /\ (model _ self = None ->
      rerank _ predict self query documents top_k
      = Ok (match top_k with
            | Some k => if k =? 0 then documents else py_take k documents
            | None => documents
            end)
      /\ forall k, top_k = Some k -> 0 < k ->
           rerank _ predict self query documents top_k
           = Ok (take (Z.to_nat k) documents))
  /\ (forall m pairs e,
        model _ self = Some m ->
        make_pairs query documents = Ok pairs ->
        predict m pairs = Raise e ->
        rerank _ predict self query documents top_k
        = Ok (py_take (int_or top_k RERANK_TOP_K) documents)
        /\ forall k, top_k = Some k -> 0 < k ->
             rerank _ predict self query documents top_k
             = Ok (take (Z.to_nat k) documents)).
Proof.
  split; [apply rerank_returns|]. split.
  - intros Hm. split; [now apply rerank_without_model|].
    intros k -> Hk. rewrite rerank_without_model by assumption.
    destruct (Z.eqb_spec k 0); [lia|]. now rewrite py_take_nonneg by lia.
  - intros m pairs e Hm Hpairs Hpredict.
    rewrite (rerank_predict_fails self query documents top_k m pairs e) by assumption.
    split; [reflexivity|].
    intros k -> Hk. rewrite int_or_positive by assumption.
    now rewrite py_take_nonneg by lia.
Qed.

End Reranker.

(** [rerank_degradation] at three documents and [top_k = 2], once without a
    model and once with a model whose scoring call fails. *)
Lemma rerank_degradation_witness :
  rerank unit failing_predict {| model := None |} "q"
    [BM25.stored_chunk "a" 0; BM25.stored_chunk "b" 1; BM25.stored_chunk "c" 2] (Some 2)
  = Ok [BM25.stored_chunk "a" 0; BM25.stored_chunk "b" 1]
  /\ rerank unit failing_predict {| model := Some tt |} "q"
       [BM25.stored_chunk "a" 0; BM25.stored_chunk "b" 1; BM25.stored_chunk "c" 2] (Some 2)
     = Ok [BM25.stored_chunk "a" 0; BM25.stored_chunk "b" 1].
Proof.
  split.
  - destruct (rerank_degradation unit failing_predict {| model := None |} "q"
                [BM25.stored_chunk "a" 0; BM25.stored_chunk "b" 1; BM25.stored_chunk "c" 2]
                (Some 2)) as (_ & Hnone & _).
    destruct (Hnone eq_refl) as [_ Hk]. apply (Hk 2); [reflexivity | lia].
  - destruct (rerank_degradation unit failing_predict {| model := Some tt |} "q"
                [BM25.stored_chunk "a" 0; BM25.stored_chunk "b" 1; BM25.stored_chunk "c" 2]
                (Some 2)) as (_ & _ & Hfail).
    destruct (Hfail tt [("q", "a"); ("q", "b"); ("q", "c")]
                (Exn RuntimeError "model failure") eq_refl eq_refl eq_refl) as [_ Hk].
    apply (Hk 2); [reflexivity | lia].
Defined.

(** The claim of C5 fails for [top_k = 0]: without a model [rerank] returns
    both input documents, not the first zero of them. *)
Lemma rerank_zero_counterexample :
  rerank unit failing_predict {| model := None |} "q"
    [BM25.stored_chunk "a" 0; BM25.stored_chunk "b" 1] (Some 0)
  = Ok [BM25.stored_chunk "a" 0; BM25.stored_chunk "b" 1]
  /\ take (Z.to_nat 0) [BM25.stored_chunk "a" 0; BM25.stored_chunk "b" 1] = []
  /\ rerank unit failing_predict {| model := Some tt |} "q"
       [BM25.stored_chunk "a" 0; BM25.stored_chunk "b" 1] (Some 0)
     = Ok [BM25.stored_chunk "a" 0; BM25.stored_chunk "b" 1].
Proof. repeat split. Qed.

(** With a working model the documents come back scored and in descending
    order of the score. *)
Example rerank_scores :
  exists results,
    rerank unit length_predict {| model := Some tt |} "q"
      [BM25.stored_chunk "a" 0; BM25.stored_chunk "ccc" 1; BM25.stored_chunk "bb" 2] (Some 2)
    = Ok results
    /\ map (fun d => (doc_content d, doc_rerank_score d)) results
      = [(Some "ccc", Some (3 # 1)); (Some "bb", Some (2 # 1))].
Proof. eexists. split; reflexivity. Qed.

(** *** Scores and selection *)

Lemma make_pairs_spec (query : string) (documents : list doc) :
  match make_pairs query documents with
  | Ok pairs =>
      Forall2 (fun d p => doc_content d = Some p.2 /\ p.1 = query) documents pairs
  | Raise e =>
      e = Exn KeyError "'content'" /\ Exists (fun d => doc_content d = None) documents
  end.
Proof.
  induction documents as [|d ds IH]; simpl; [constructor|].
  destruct (doc_content d) as [text|] eqn:Hd.
  - destruct (make_pairs query ds) as [pairs|e]; simpl.
    + constructor; [now split | exact IH].
    + destruct IH as [-> IH]. split; [reflexivity | now apply Exists_cons_tl].
  - split; [reflexivity | now apply Exists_cons_hd].
Qed.

Lemma attach_scores_length (documents : list doc) (scores : list Q) :
  length (attach_scores documents scores) = length documents.
Proof.
  revert scores. induction documents as [|d ds IH]; intros [|s ss]; simpl;
    try reflexivity. now rewrite IH.
Qed.

Lemma attach_scores_unscored (documents : list doc) (scores : list Q) :
  map unscored (attach_scores documents scores) = map unscored documents.
Proof.
  revert scores. induction documents as [|d ds IH]; intros [|s ss]; simpl;
    try reflexivity. now rewrite IH.
Qed.

(** Every document that has a score at its position carries it. *)
Lemma attach_scores_all (documents : list doc) (scores : list Q) :
  (length documents <= length scores)%nat ->
  map doc_rerank_score (attach_scores documents scores)
  = map Some (take (length documents) scores).
Proof.
  revert scores. induction documents as [|d ds IH]; intros [|s ss]; simpl;
    try reflexivity; try lia.
  intros H. rewrite IH by lia. reflexivity.
Qed.

(** With fewer scores than documents the last document is left without
    one. *)
Lemma attach_scores_short (documents : list doc) (scores : list Q) :
  Forall (fun d => doc_rerank_score d = None) documents ->
  (length scores < length documents)%nat ->
  forallb (fun d => bool_decide (is_Some (doc_rerank_score d)))
    (attach_scores documents scores) = false.
Proof.
  intros Hnone. revert scores.
  induction Hnone as [|d ds Hd _ IH]; intros [|s ss]; simpl; try lia.
  - intros _. rewrite Hd. reflexivity.
  - intros H. rewrite IH by lia. reflexivity.
Qed.

Section Scores.
Variable CrossEncoder : Type.
Variable predict : CrossEncoder -> list (string * string) -> result (list Q).

(** [rerank] with a model whose scoring call returns.  When there is a
    score for every document, each document gets the score at its
    position, and the result is the first [top_k] documents in descending
    order of the score, documents with equal scores in their input order.
    When the model returns fewer scores than there are documents that had
    no score before, sorting fails on the first document without one, and
    the result is the first [top_k] documents in their input order, those
    with a score now carrying it.  A [top_k] of [None] or [0] stands for
    [RERANK_TOP_K]. *)
Theorem rerank_with_scores (self : Reranker CrossEncoder) (query : string)
    (documents : list doc) (top_k : option Z) (m : CrossEncoder)
    (pairs : list (string * string)) (scores : list Q) :
  model _ self = Some m ->
  make_pairs query documents = Ok pairs ->
  predict m pairs = Ok scores ->
  let k := int_or top_k RERANK_TOP_K in
  let scored := attach_scores documents scores in
  map unscored scored = map unscored documents
  /\ ((length documents <= length scores)%nat ->
      map doc_rerank_score scored = map Some (take (length documents) scores)
      /\ rerank _ predict self query documents top_k
         = Ok (py_take k (sorted_desc rerank_key scored))
      /\ StronglySorted (fun a b => (rerank_key b <= rerank_key a)%Q)
           (py_take k (sorted_desc rerank_key scored))
      /\ (0 <= k ->
          length (py_take k (sorted_desc rerank_key scored))
          = Nat.min (Z.to_nat k) (length documents)))
  /\ ((length scores < length documents)%nat ->
      Forall (fun d => doc_rerank_score d = None) documents ->
      rerank _ predict self query documents top_k = Ok (py_take k scored)).
Proof.
  intros Hm Hpairs Hpredict k scored.
  split; [apply attach_scores_unscored|]. split.
  - intros Hlen.
    pose proof (attach_scores_all documents scores Hlen) as Hall.
    split; [exact Hall|].
    assert (Hsome : forallb (fun d => bool_decide (is_Some (doc_rerank_score d))) scored
                    = true).
    { apply forallb_forall. intros d Hd. apply bool_decide_eq_true_2.
      apply (in_map doc_rerank_score) in Hd. fold scored in Hall. rewrite Hall in Hd.
      apply in_map_iff in Hd. destruct Hd as (s & <- & _). eauto. }
    split; [|split].
    + unfold rerank. rewrite Hm. destruct documents as [|d ds].
      * subst scored. simpl. unfold py_take. now rewrite take_nil.
      * unfold rerank_body. rewrite Hpairs, Hpredict.
        fold scored. unfold sort_by_rerank_score. rewrite Hsome. reflexivity.
    + unfold py_take. apply StronglySorted_take, sorted_desc_sorted.
    + intros Hk. rewrite py_take_nonneg, length_take, sorted_desc_length by assumption.
      unfold scored. now rewrite attach_scores_length.
  - intros Hlen Hnone. unfold rerank. rewrite Hm.
    destruct documents as [|d ds]; [simpl in Hlen; lia|].
    subst scored. unfold rerank_body. rewrite Hpairs, Hpredict.
    unfold sort_by_rerank_score.
    now rewrite (attach_scores_short _ _ Hnone Hlen).
Qed.

(** Whatever the model does and whatever [top_k] is, [rerank] returns a
    selection of the input documents. *)
Lemma rerank_selects (self : Reranker CrossEncoder) (query : string)
    (documents : list doc) (top_k : option Z) :
  exists results,
    rerank _ predict self query documents top_k = Ok results
    /\ (length results <= length documents)%nat
    /\ Forall (fun r => unscored r ∈ map unscored documents) results
    /\ (forall k, top_k = Some k -> 0 < k -> (length results <= Z.to_nat k)%nat).
Proof.
  assert (Htake : forall (k : Z) (l : list doc),
             map unscored l ≡ₚ map unscored documents ->
             (length (py_take k l) <= length documents)%nat
             /\ Forall (fun r => unscored r ∈ map unscored documents) (py_take k l)
             /\ (0 < k -> (length (py_take k l) <= Z.to_nat k)%nat)).
  { intros k l Hl. split; [|split].
    - rewrite <- (length_map unscored documents), <- Hl, length_map.
      apply py_take_le_length.
    - apply Forall_forall. intros r Hr. rewrite <- Hl.
      apply list_elem_of_fmap. exists r. split; [reflexivity|].
      unfold py_take in Hr. eapply subseteq_take. exact Hr.
    - intros Hk. apply py_take_length. lia. }
  assert (Hall : Forall (fun r => unscored r ∈ map unscored documents) documents).
  { apply Forall_forall. intros r Hr. apply list_elem_of_fmap. now exists r. }
  assert (Hk : forall k, top_k = Some k -> 0 < k -> int_or top_k RERANK_TOP_K = k)
    by (intros k -> Hk; now apply int_or_positive).
  unfold rerank. destruct (model _ self) as [m|].
  - destruct documents as [|d ds].
    { exists []. repeat split; simpl; try lia. constructor. }
    assert (Hout : forall l : list doc,
               map unscored l ≡ₚ map unscored (d :: ds) ->
               exists results,
                 Ok (py_take (int_or top_k RERANK_TOP_K) l) = Ok results
                 /\ (length results <= length (d :: ds))%nat
                 /\ Forall (fun r => unscored r ∈ map unscored (d :: ds)) results
                 /\ (forall k, top_k = Some k -> 0 < k ->
                       (length results <= Z.to_nat k)%nat)).
    { intros l Hl. eexists. split; [reflexivity|].
      destruct (Htake (int_or top_k RERANK_TOP_K) l Hl) as (H1 & H2 & H3).
      split; [exact H1|]. split; [exact H2|].
      intros k Htop Hpos. rewrite (Hk k Htop Hpos) in *. now apply H3. }
    unfold rerank_body.
    destruct (make_pairs query (d :: ds)) as [pairs|e]; [|now apply Hout].
    destruct (predict m pairs) as [scores|e]; [|now apply Hout].
    destruct (sort_by_rerank_score (attach_scores (d :: ds) scores))
      as [reranked|e] eqn:Hsort.
    + apply Hout. unfold sort_by_rerank_score in Hsort.
      destruct (forallb _ _); [|discriminate]. injection Hsort as <-.
      etransitivity; [apply Permutation_map, sorted_desc_perm|].
      rewrite <- (attach_scores_unscored (d :: ds) scores). reflexivity.
    + apply Hout.
      rewrite <- (attach_scores_unscored (d :: ds) scores). reflexivity.
  - destruct top_k as [k|]; [destruct (Z.eqb_spec k 0) as [->|Hne]|].
    + exists documents. split; [reflexivity|]. split; [lia|]. split; [exact Hall|].
      intros k [= <-]. lia.
    + eexists. split; [reflexivity|].
      destruct (Htake k documents ltac:(reflexivity)) as (H1 & H2 & H3).
      split; [exact H1|]. split; [exact H2|]. now intros k' [= <-].
    + exists documents. split; [reflexivity|]. split; [lia|]. split; [exact Hall|].
      discriminate.
Qed.

(** Whatever the model does, a call with a positive [top_k] returns at
    most [top_k] documents, and each of them is one of the input documents
    in every entry but ["rerank_score"]. *)
Theorem rerank_bounded (self : Reranker CrossEncoder) (query : string)
    (documents : list doc) (k : Z) :
  0 < k ->
  exists results,
    rerank _ predict self query documents (Some k) = Ok results
    /\ (length results <= Z.to_nat k)%nat
    /\ (length results <= length documents)%nat
    /\ Forall (fun r => unscored r ∈ map unscored documents) results.
Proof.
  intros Hk.
  destruct (rerank_selects self query documents (Some k))
    as (results & Hres & Hlen & Hsub & Hbound).
  exists results. split; [exact Hres|].
  split; [now apply (Hbound k) | split; assumption].
Qed.

End Scores.

Lemma rerank_with_scores_witness :
  exists results,
    rerank unit length_predict {| model := Some tt |} "q"
      [BM25.stored_chunk "a" 0; BM25.stored_chunk "ccc" 1; BM25.stored_chunk "bb" 2]
      (Some 2) = Ok results
    /\ map (fun d => (doc_content d, doc_rerank_score d)) results
       = [(Some "ccc", Some (3 # 1)); (Some "bb", Some (2 # 1))].
Proof.
  destruct (rerank_with_scores unit length_predict {| model := Some tt |} "q"
              [BM25.stored_chunk "a" 0; BM25.stored_chunk "ccc" 1; BM25.stored_chunk "bb" 2]
              (Some 2) tt [("q", "a"); ("q", "ccc"); ("q", "bb")] [1#1; 3#1; 2#1]%Q
              eq_refl eq_refl eq_refl) as (_ & Hfull & _).
  destruct (Hfull ltac:(simpl; lia)) as (_ & Hres & _).
  eexists. split; [exact Hres | reflexivity].
Defined.

Lemma rerank_bounded_witness :
  exists results,
    rerank unit failing_predict {| model := Some tt |} "q"
      [BM25.stored_chunk "a" 0; BM25.stored_chunk "b" 1; BM25.stored_chunk "c" 2]
      (Some 2) = Ok results
    /\ (length results <= 2)%nat.
Proof.
  destruct (rerank_bounded unit failing_predict {| model := Some tt |} "q"
              [BM25.stored_chunk "a" 0; BM25.stored_chunk "b" 1; BM25.stored_chunk "c" 2]
              2 ltac:(lia)) as (results & Hres & Hlen & _).
  exists results. split; [exact Hres | exact Hlen].
Defined.

End RerankFacts.

(** ** The evaluator *)

Module ToolsFacts.
Import PyStr Tools.

Lemma is_letter_not_allowed (c : ascii) : is_letter c = true -> is_allowed c = false.
Proof.
  destruct c as [[] [] [] [] [] [] [] []]; vm_compute; congruence.
Qed.

Lemma forallb_false_intro {A : Type} (f : A -> bool) (l : list A) (x : A) :
  x ∈ l -> f x = false -> forallb f l = false.
Proof.
  intros Hin Hx. destruct (forallb f l) eqn:E; [|reflexivity].
  rewrite forallb_forall in E. apply list_elem_of_In in Hin.
  rewrite (E x Hin) in Hx. discriminate.
Qed.

Lemma named_failure_caught (e : exn) :
  named_failure e = true -> caught_by_safe_eval e = true.
Proof.
  unfold named_failure, caught_by_safe_eval, exn_isinstance.
  destruct (exn_cls e); simpl; congruence.
Qed.

(** One step of each parsing function. *)
Lemma parse_sum_step fuel ts :
  parse_sum (S fuel) ts = (p ← parse_term fuel ts; sum_rest fuel p.1 p.2).
Proof. reflexivity. Qed.

Lemma parse_term_step fuel ts :
  parse_term (S fuel) ts = (p ← parse_factor fuel ts; term_rest fuel p.1 p.2).
Proof. reflexivity. Qed.

Lemma parse_primary_step fuel ts :
  parse_primary (S fuel) ts = (p ← parse_atom fuel ts; trailers fuel p.1 p.2).
Proof. reflexivity. Qed.

Lemma parse_power_step fuel ts :
  parse_power (S fuel) ts
  = (p ← parse_primary fuel ts;
     match p.2 with
     | TDoubleStar :: ts' => q ← parse_factor fuel ts'; Ok (BinOp p.1 Pow q.1, q.2)
     | _ => Ok p
     end).
Proof. reflexivity. Qed.

Lemma sum_rest_step fuel left ts :
  sum_rest (S fuel) left ts
  = match ts with
    | TPlus :: ts' => p ← parse_term fuel ts'; sum_rest fuel (BinOp left Add p.1) p.2
    | TMinus :: ts' => p ← parse_term fuel ts'; sum_rest fuel (BinOp left Sub p.1) p.2
    | _ => Ok (left, ts)
    end.
Proof. reflexivity. Qed.

Lemma term_rest_step fuel left ts :
  term_rest (S fuel) left ts
  = match ts with
    | TStar :: ts' => p ← parse_factor fuel ts'; term_rest fuel (BinOp left Mult p.1) p.2
    | TSlash :: ts' => p ← parse_factor fuel ts'; term_rest fuel (BinOp left Div p.1) p.2
    | TDoubleSlash :: ts' =>
        p ← parse_factor fuel ts'; term_rest fuel (BinOp left FloorDiv p.1) p.2
    | TPercent :: ts' => p ← parse_factor fuel ts'; term_rest fuel (BinOp left Mod p.1) p.2
    | _ => Ok (left, ts)
    end.
Proof. reflexivity. Qed.

Lemma parse_factor_step fuel ts :
  parse_factor (S fuel) ts
  = match ts with
    | TPlus :: ts' => p ← parse_factor fuel ts'; Ok (UnaryOp UAdd p.1, p.2)
    | TMinus :: ts' => p ← parse_factor fuel ts'; Ok (UnaryOp USub p.1, p.2)
    | _ => parse_power fuel ts
    end.
Proof. reflexivity. Qed.

Lemma trailers_step fuel func ts :
  trailers (S fuel) func ts
  = match ts with
    | TLpar :: TRpar :: ts' => trailers fuel (Call func [] []) ts'
    | TLpar :: TStar :: ts' =>
        p ← parse_sum fuel ts';
        match p.2 with
        | TRpar :: ts'' => trailers fuel (Call func [Starred p.1] []) ts''
        | _ => Raise (syntax_error "invalid syntax")
        end
    | TLpar :: TDoubleStar :: ts' =>
        p ← parse_sum fuel ts';
        match p.2 with
        | TRpar :: ts'' => trailers fuel (Call func [] [p.1]) ts''
        | _ => Raise (syntax_error "invalid syntax")
        end
    | TLpar :: ts' =>
        p ← parse_sum fuel ts';
        match p.2 with
        | TRpar :: ts'' => trailers fuel (Call func [p.1] []) ts''
        | _ => Raise (syntax_error "invalid syntax")
        end
    | _ => Ok (func, ts)
    end.
Proof. reflexivity. Qed.

Lemma parse_atom_step fuel ts :
  parse_atom (S fuel) ts
  = match ts with
    | TInt z :: ts' => Ok (Constant (CInt z), ts')
    | TFloat literal :: ts' => Ok (Constant (CFloat literal), ts')
    | TEllipsis :: ts' => Ok (Constant CEllipsis, ts')
    | TLpar :: TRpar :: ts' => Ok (Tuple [], ts')
    | TLpar :: ts' =>
        p ← parse_sum fuel ts';
        match p.2 with
        | TRpar :: ts'' => Ok (p.1, ts'')
        | _ => Raise (syntax_error "'(' was never closed")
        end
    | _ => Raise (syntax_error "invalid syntax")
    end.
Proof. reflexivity. Qed.

(** Uses the bound [IH] of a parsing function on its call at [ts']: the
    call either fails without passing the depth bound, which settles the
    goal, or returns a tree and the tokens left. *)
Ltac sub_parse IH ts' :=
  let Hd := fresh "Hd" in
  let Hl := fresh "Hl" in
  let E := fresh "E" in
  simpl;
  destruct (IH ts') as [Hd Hl]; [simpl in *; lia|];
  match type of Hd with
  | is_depth_error ?call = false =>
      destruct call as [[? ?]|?] eqn:E;
      [specialize (Hl _ _ eq_refl); simpl in Hl
      |clear Hl; simpl; split; [exact Hd | discriminate]]
  end.

(** Ends with a call whose bound [IH] gives the goal. *)
Ltac tail_parse IH ts' :=
  let Hd := fresh "Hd" in
  let Hl := fresh "Hl" in
  let Hr := fresh "Hr" in
  simpl;
  destruct (IH ts') as [Hd Hl]; [simpl in *; lia|];
  simpl; split; [exact Hd|];
  intros ? ? Hr; specialize (Hl _ _ Hr); simpl in *; lia.

Ltac done_parse :=
  simpl; split; [reflexivity | intros ? ? [= <- <-]; simpl in *; lia].

Ltac fail_parse := simpl; split; [reflexivity | discriminate].

Lemma parsers_within_depth (fuel : nat) :
  within_depth 6 true (parse_sum fuel) fuel
  /\ (forall left, within_depth 1 false (sum_rest fuel left) fuel)
  /\ within_depth 5 true (parse_term fuel) fuel
  /\ (forall left, within_depth 1 false (term_rest fuel left) fuel)
  /\ within_depth 4 true (parse_factor fuel) fuel
  /\ within_depth 3 true (parse_power fuel) fuel
  /\ within_depth 2 true (parse_primary fuel) fuel
  /\ (forall func, within_depth 1 false (trailers fuel func) fuel)
  /\ within_depth 1 true (parse_atom fuel) fuel.
Proof.
  induction fuel as [|fuel IH].
  { repeat split; unfold within_depth; intros; lia. }
  destruct IH as (IHsum & IHsum' & IHterm & IHterm' & IHfactor & IHpower
                  & IHprimary & IHtrailers & IHatom).
  split.
  { intros ts Hfuel. rewrite parse_sum_step.
    sub_parse IHterm ts. tail_parse (IHsum' e) l. }
  split.
  { intros left ts Hfuel. rewrite sum_rest_step.
    destruct ts as [|[] ts']; try done_parse.
    - sub_parse IHterm ts'. tail_parse (IHsum' (BinOp left Add e)) l.
    - sub_parse IHterm ts'. tail_parse (IHsum' (BinOp left Sub e)) l. }
  split.
  { intros ts Hfuel. rewrite parse_term_step.
    sub_parse IHfactor ts. tail_parse (IHterm' e) l. }
  split.
  { intros left ts Hfuel. rewrite term_rest_step.
    destruct ts as [|[] ts']; try done_parse.
    - sub_parse IHfactor ts'. tail_parse (IHterm' (BinOp left Mult e)) l.
    - sub_parse IHfactor ts'. tail_parse (IHterm' (BinOp left Div e)) l.
    - sub_parse IHfactor ts'. tail_parse (IHterm' (BinOp left FloorDiv e)) l.
    - sub_parse IHfactor ts'. tail_parse (IHterm' (BinOp left Mod e)) l. }
  split.
  { intros ts Hfuel. rewrite parse_factor_step.
    destruct ts as [|t ts']; [tail_parse IHpower (@nil token)|].
    destruct t; try (tail_parse IHpower (t :: ts')).
    all: try match goal with |- context [parse_power _ ?l] => tail_parse IHpower l end.
    - sub_parse IHfactor ts'. done_parse.
    - sub_parse IHfactor ts'. done_parse. }
  split.
  { intros ts Hfuel. rewrite parse_power_step.
    sub_parse IHprimary ts.
    destruct l as [|[] ts']; try done_parse.
    sub_parse IHfactor ts'. done_parse. }
  split.
  { intros ts Hfuel. rewrite parse_primary_step.
    sub_parse IHatom ts. tail_parse (IHtrailers e) l. }
  split.
  { intros func ts Hfuel. rewrite trailers_step.
    destruct ts as [|[] ts']; try done_parse.
    destruct ts' as [|t' ts''].
    - sub_parse IHsum (@nil token). lia.
    - destruct t'; simpl;
        try (tail_parse (IHtrailers (Call func [] [])) ts'');
        match goal with
        | |- context [mbind _ (parse_sum _ ?l)] =>
            sub_parse IHsum l;
            match goal with
            | H : parse_sum _ _ = Ok (_, ?r) |- _ =>
                destruct r as [|[] ?]; try fail_parse
            end
        end.
      all: simpl; match goal with
           | |- context [trailers _ ?f ?l] => tail_parse (IHtrailers f) l
           end. }
  intros ts Hfuel. rewrite parse_atom_step.
  destruct ts as [|[] ts']; try done_parse; try fail_parse.
  destruct ts' as [|t' ts''].
  - sub_parse IHsum (@nil token). lia.
  - destruct t'; simpl; try done_parse;
      match goal with
      | |- context [mbind _ (parse_sum _ ?l)] =>
          sub_parse IHsum l;
          match goal with
          | H : parse_sum _ _ = Ok (_, ?r) |- _ =>
              destruct r as [|[] ?]; try fail_parse; try done_parse
          end
      end.
Qed.

(** The tokenizer fails with syntax errors only. *)
Lemma finish_number_syntax (cur : option numstate) :
  is_depth_error (finish_number cur) = false.
Proof.
  destruct cur as [[ds|t]|]; simpl; try reflexivity.
  destruct (_ && _); reflexivity.
Qed.

Lemma lex_syntax (n : nat) :
  forall (l : list ascii) (cur : option numstate),
    (length l <= n)%nat -> is_depth_error (lex cur l) = false.
Proof.
  induction n as [|n IH]; intros l cur Hlen.
  - destruct l; [apply finish_number_syntax | simpl in Hlen; lia].
  - destruct l as [|c rest]; [apply finish_number_syntax|].
    simpl in Hlen. simpl.
    assert (Hrest : forall cur', is_depth_error (lex cur' rest) = false)
      by (intros cur'; apply IH; lia).
    assert (Hcons : forall (t : token) (l' : list ascii),
               (length l' <= n)%nat ->
               is_depth_error (toks ← lex None l'; Ok (t :: toks)) = false).
    { intros t l' Hl'. pose proof (IH l' None Hl') as Hd.
      destruct (lex None l'); [reflexivity | exact Hd]. }
    assert (Hnum : forall (r : result (list token)),
               is_depth_error r = false ->
               is_depth_error (num ← finish_number cur; toks ← r; Ok (num ++ toks)) = false).
    { intros r Hr. pose proof (finish_number_syntax cur) as Hd.
      destruct (finish_number cur); [|exact Hd]. simpl.
      destruct r; [reflexivity | exact Hr]. }
    destruct (is_digit c); [apply Hrest|].
    destruct (Ascii.eqb c dot_char).
    + destruct cur as [[ds|t]|]; [apply Hrest | |]; apply Hnum;
        (destruct rest as [|d rest1]; [reflexivity|]; simpl in Hlen;
         destruct (is_digit d); [apply IH; simpl; lia|];
         destruct (Ascii.eqb d dot_char); [|apply Hcons; simpl; lia];
         destruct rest1 as [|d2 rest2]; [apply Hcons; simpl; lia|];
         simpl in Hlen;
         destruct (Ascii.eqb d2 dot_char); apply Hcons; simpl; lia).
    + apply Hnum. destruct (Ascii.eqb c space_char); [apply Hrest|].
      destruct (single_char_token c) as [[]|]; try reflexivity;
        try (apply Hcons; lia);
        (destruct rest as [|d rest1]; [apply Hcons; simpl; lia|]; simpl in Hlen;
         destruct (Ascii.eqb d c); apply Hcons; simpl; lia).
Qed.

(** The depth bound of [ast_parse] is never what makes a parse fail: nine
    levels for every token are enough. *)
Lemma ast_parse_within_depth (expression : string) :
  is_depth_error (ast_parse expression) = false.
Proof.
  unfold ast_parse.
  pose proof (lex_syntax _ (chars expression) None (Nat.le_refl _)) as Hlex.
  destruct (lex None (chars expression)) as [tokens|e]; [|exact Hlex]. simpl.
  destruct tokens as [|t tokens]; [reflexivity|].
  destruct (chars expression) as [|c cs]; [reflexivity|].
  destruct (Ascii.eqb c space_char); [reflexivity|].
  destruct (parsers_within_depth (9 * length (t :: tokens) + 9)) as [Hsum _].
  destruct (Hsum (t :: tokens)) as [Hd _]; [lia|].
  destruct (parse_sum _ _) as [[e rest]|e]; [|exact Hd]. simpl.
  destruct rest; reflexivity.
Qed.

Section Evaluator.
Context {F : Inexact}.

(** The pre-filter: one character outside [allowed_chars] is enough, and
    the answer does not depend on the rest of the expression. *)
Lemma calculate_rejects (expression : string) (c : ascii) :
  c ∈ chars expression -> is_allowed c = false ->
  calculate expression = Ok "Error: Invalid characters in expression".
Proof.
  intros Hin Hc. unfold calculate.
  now rewrite (forallb_false_intro _ _ _ Hin Hc).
Qed.

Lemma calculate_returns (expression : string) :
  exists s, calculate expression = Ok s.
Proof.
  unfold calculate. destruct (forallb is_allowed (chars expression)); [|eauto].
  destruct (_safe_eval expression); simpl; eauto.
Qed.

Lemma calculate_surfaces (expression : string) (e : exn) :
  forallb is_allowed (chars expression) = true ->
  _safe_eval expression = Raise e ->
  calculate expression = Ok ("Error: " +:+ exn_str e).
Proof. intros Hall He. unfold calculate. now rewrite Hall, He. Qed.

Lemma safe_eval_parse_failure (expression : string) (e : exn) :
  ast_parse expression = Raise e -> named_failure e = true ->
  _safe_eval expression = Raise (Exn ValueError ("Invalid expression: " +:+ exn_str e)).
Proof.
  intros He Hnamed. unfold _safe_eval. rewrite He. simpl.
  now rewrite named_failure_caught.
Qed.

Lemma safe_eval_eval_failure (expression : string) (tree : expr) (e : exn) :
  ast_parse expression = Ok tree -> _eval tree = Raise e -> named_failure e = true ->
  _safe_eval expression = Raise (Exn ValueError ("Invalid expression: " +:+ exn_str e)).
Proof.
  intros Htree He Hnamed. unfold _safe_eval. rewrite Htree. simpl. rewrite He.
  now rewrite named_failure_caught.
Qed.

(** What [_eval] raises for the failures the specification names. *)
Lemma int_division_by_zero (a : Z) :
  exists e, apply_binop Div (VInt a) (VInt 0) = Raise e
            /\ exn_cls e = ZeroDivisionError /\ exn_str e = "division by zero".
Proof. eexists. repeat split. Qed.

Lemma int_modulo_by_zero (a : Z) :
  exists e, apply_binop Mod (VInt a) (VInt 0) = Raise e
            /\ exn_cls e = ZeroDivisionError.
Proof. eexists. repeat split. Qed.

Lemma eval_unsupported_node (node : expr) :
  match node with
  | Tuple _ | Call _ _ _ | Starred _ | Constant CEllipsis => True
  | _ => False
  end ->
  exists e, _eval node = Raise e /\ exn_cls e = TypeError.
Proof.
  destruct node as [[| |]| | | | |]; simpl; intros H; try contradiction;
    eexists; split; reflexivity.
Qed.

Lemma eval_floor_division (l r : expr) :
  exists e, _eval (BinOp l FloorDiv r) = Raise e /\ exn_cls e = KeyError.
Proof. eexists. split; reflexivity. Qed.

(** C1, as amended.  ["1+2*3"] evaluates to ["7"], and ["1/0"] gives the
    error string for a division by zero.  [calculate] returns a string for
    every expression and never raises.  An expression with a character
    outside [0-9 + - * / % ( ) .] and the space -- any letter in
    particular -- is answered with the invalid-characters error string,
    whatever the rest of it is.  Whatever [_safe_eval] raises comes back as
    ["Error: "] followed by its message; a syntax error, a division or
    modulo by zero and an unsupported node come back as
    ["Error: Invalid expression: "] followed by the message. *)
Theorem calculate_safety (expression : string) :
  calculate "1+2*3" = Ok "7"
  /\ calculate "1/0" = Ok "Error: Invalid expression: division by zero"
  /\ (exists s, calculate expression = Ok s)
  /\ (forall c, c ∈ chars expression -> is_allowed c = false ->
       calculate expression = Ok "Error: Invalid characters in expression")
  /\ (forall c, c ∈ chars expression -> is_letter c = true ->
       calculate expression = Ok "Error: Invalid characters in expression")
  /\ (forall e, forallb is_allowed (chars expression) = true ->
       _safe_eval expression = Raise e ->
       calculate expression = Ok ("Error: " +:+ exn_str e))
  /\ (forall e, forallb is_allowed (chars expression) = true ->
       ast_parse expression = Raise e -> named_failure e = true ->
       calculate expression = Ok ("Error: Invalid expression: " +:+ exn_str e))
  /\ (forall tree e, forallb is_allowed (chars expression) = true ->
       ast_parse expression = Ok tree -> _eval tree = Raise e ->
       named_failure e = true ->
       calculate expression = Ok ("Error: Invalid expression: " +:+ exn_str e)).
Proof.
  split; [reflexivity|]. split; [reflexivity|].
  split; [apply calculate_returns|].
  split; [apply calculate_rejects|].
  split.
  { intros c Hin Hc. eapply calculate_rejects; [exact Hin|].
    now apply is_letter_not_allowed. }
  split; [apply calculate_surfaces|].
  split.
  - intros e Hall He Hnamed.
    now rewrite (calculate_surfaces _ _ Hall (safe_eval_parse_failure _ _ He Hnamed)).
  - intros tree e Hall Htree He Hnamed.
    now rewrite (calculate_surfaces _ _ Hall (safe_eval_eval_failure _ _ _ Htree He Hnamed)).
Qed.

End Evaluator.

(** [calculate_safety] at a call of a named function, a modulo by zero, an
    unfinished sum and a call of a number, for every floating-point
    arithmetic. *)
Lemma calculate_safety_witness :
  is_letter "a" = true
  /\ forall F : Inexact,
      calculate "abs(1)" = Ok "Error: Invalid characters in expression"
      /\ calculate "7 % 0" = Ok "Error: Invalid expression: integer modulo by zero"
      /\ calculate "1+"
         = Ok "Error: Invalid expression: invalid syntax (<unknown>, line 1)"
      /\ calculate "1(2)"
         = Ok "Error: Invalid expression: Unsupported AST node: <class 'ast.Call'>".
Proof.
  split; [reflexivity|]. intros F. split; [|split; [|split]].
  - destruct (@calculate_safety F "abs(1)") as (_ & _ & _ & _ & Hletter & _).
    apply (Hletter "a"%char); [|reflexivity].
    apply list_elem_of_In. simpl. tauto.
  - destruct (@calculate_safety F "7 % 0") as (_ & _ & _ & _ & _ & _ & _ & Heval).
    exact (Heval (BinOp (Constant (CInt 7)) Mod (Constant (CInt 0)))
             (Exn ZeroDivisionError "integer modulo by zero")
             eq_refl eq_refl eq_refl eq_refl).
  - destruct (@calculate_safety F "1+") as (_ & _ & _ & _ & _ & _ & Hparse & _).
    exact (Hparse (syntax_error "invalid syntax") eq_refl eq_refl eq_refl).
  - destruct (@calculate_safety F "1(2)") as (_ & _ & _ & _ & _ & _ & _ & Heval).
    exact (Heval (Call (Constant (CInt 1)) [Constant (CInt 2)] [])
             (Exn TypeError "Unsupported AST node: <class 'ast.Call'>")
             eq_refl eq_refl eq_refl eq_refl).
Defined.

(** The claim of C1 fails for the space: it is outside the set
    [0-9 + - * / % ( ) .] of the specification, and [calculate] accepts and
    evaluates an expression that contains it. *)
Lemma calculate_space_counterexample :
  (" "%char ∈ chars "1 + 2" /\ " "%char ∉ chars spec_allowed_chars)
  /\ forall F : Inexact, calculate "1 + 2" = Ok "3".
Proof.
  split; [|reflexivity]. split.
  - apply list_elem_of_In. simpl. tauto.
  - rewrite list_elem_of_In. simpl. intuition discriminate.
Qed.

Import PyStrFacts NumeralFacts.

(** *** Numerals and arithmetic trees *)

Lemma lex_digits (ds acc rest : list ascii) :
  Forall (fun c => is_digit c = true) ds ->
  lex (Some (InInt acc)) (ds ++ rest) = lex (Some (InInt (rev ds ++ acc))) rest.
Proof.
  intros H. revert acc. induction H as [|d ds Hd _ IH]; intros acc; simpl; [reflexivity|].
  rewrite Hd. simpl. rewrite IH, <- app_assoc. reflexivity.
Qed.

Lemma lex_number (d : ascii) (ds rest : list ascii) :
  Forall (fun c => is_digit c = true) (d :: ds) ->
  lex None (d :: ds ++ rest) = lex (Some (InInt (rev (d :: ds)))) rest.
Proof.
  intros H. apply Forall_cons in H. destruct H as [Hd Hds].
  simpl. rewrite Hd. simpl. rewrite lex_digits by assumption. reflexivity.
Qed.

Lemma finish_int (d : ascii) (ds : list ascii) :
  (Ascii.eqb d zero_char && negb (forallb (Ascii.eqb zero_char) (d :: ds))) = false ->
  finish_number (Some (InInt (rev (d :: ds)))) = Ok [TInt (int_of_digits (d :: ds))].
Proof.
  intros H. unfold finish_number. rewrite rev_involutive.
  cbn [hd]. now rewrite H.
Qed.

Lemma lex_natural (n : Z) :
  0 <= n -> lex None (chars (str_of_int n)) = Ok [TInt n].
Proof.
  intros Hn. destruct (str_of_int_digits n Hn) as (d & ds & Hchars & Hdig & Hlead & Hval).
  rewrite Hchars, <- (app_nil_r ds), lex_number by assumption.
  cbn [lex]. rewrite finish_int by assumption. now rewrite Hval.
Qed.

(** One tokenizer step at an operator character. *)
Lemma lex_operator (cur : option numstate) (c : ascii) (tok : token) (rest : list ascii) :
  (c, tok) ∈ [("+"%char, TPlus); ("-"%char, TMinus); ("%"%char, TPercent)] ->
  lex cur (c :: rest)
  = (num ← finish_number cur; toks ← (toks ← lex None rest; Ok (tok :: toks));
     Ok (num ++ toks)).
Proof.
  rewrite !elem_of_cons, elem_of_nil.
  intros [[= -> ->]|[[= -> ->]|[[= -> ->]|[]]]]; destruct rest; reflexivity.
Qed.

Lemma lex_star_or_slash (cur : option numstate) (c d : ascii) (tok : token)
    (rest : list ascii) :
  (c, tok) ∈ [("*"%char, TStar); ("/"%char, TSlash)] -> Ascii.eqb d c = false ->
  lex cur (c :: d :: rest)
  = (num ← finish_number cur; toks ← (toks ← lex None (d :: rest); Ok (tok :: toks));
     Ok (num ++ toks)).
Proof.
  rewrite !elem_of_cons, elem_of_nil.
  intros [[= -> ->]|[[= -> ->]|[]]] Hdc; simpl; rewrite Hdc; reflexivity.
Qed.

Lemma lex_doubled (cur : option numstate) (c : ascii) (tok : token) (rest : list ascii) :
  (c, tok) ∈ [("*"%char, TDoubleStar); ("/"%char, TDoubleSlash)] ->
  lex cur (c :: c :: rest)
  = (num ← finish_number cur; toks ← (toks ← lex None rest; Ok (tok :: toks));
     Ok (num ++ toks)).
Proof.
  rewrite !elem_of_cons, elem_of_nil.
  intros [[= -> ->]|[[= -> ->]|[]]]; reflexivity.
Qed.

Lemma digit_not_operator (d c : ascii) :
  is_digit d = true -> is_digit c = false -> Ascii.eqb d c = false.
Proof. intros Hd Hc. destruct (Ascii.eqb_spec d c); [congruence | reflexivity]. Qed.

Lemma lex_binary (a b : Z) (op : string) (tok : token) :
  0 <= a -> 0 <= b -> (op, tok) ∈ operator_tokens ->
  lex None (chars (str_of_int a +:+ op +:+ str_of_int b)) = Ok [TInt a; tok; TInt b].
Proof.
  intros Ha Hb Hop.
  destruct (str_of_int_digits a Ha) as (d & ds & Hchars & Hdig & Hlead & Hval).
  pose proof (lex_natural b Hb) as Hlexb.
  destruct (str_of_int_digits b Hb) as (d' & ds' & Hchars' & Hdig' & _ & _).
  apply Forall_cons in Hdig'. destruct Hdig' as [Hd' _].
  rewrite !chars_app, Hchars. cbn [app]. rewrite lex_number by assumption.
  pose proof (finish_int d ds Hlead) as Hfin. rewrite Hval in Hfin.
  unfold operator_tokens in Hop. rewrite !elem_of_cons, elem_of_nil in Hop.
  repeat match goal with H : _ \/ _ |- _ => destruct H as [H|H] end;
    try contradiction; injection Hop as -> ->.
  - change (chars "+" ++ ?r) with ("+"%char :: r).
    rewrite (lex_operator _ _ TPlus), Hfin, Hlexb; [reflexivity|].
    rewrite !elem_of_cons. auto.
  - change (chars "-" ++ ?r) with ("-"%char :: r).
    rewrite (lex_operator _ _ TMinus), Hfin, Hlexb; [reflexivity|].
    rewrite !elem_of_cons. auto.
  - change (chars "*" ++ ?r) with ("*"%char :: r). rewrite Hchars' in *.
    rewrite (lex_star_or_slash _ _ _ TStar), Hfin, Hlexb; [reflexivity| |].
    + rewrite !elem_of_cons. auto.
    + now apply digit_not_operator.
  - change (chars "/" ++ ?r) with ("/"%char :: r). rewrite Hchars' in *.
    rewrite (lex_star_or_slash _ _ _ TSlash), Hfin, Hlexb; [reflexivity| |].
    + rewrite !elem_of_cons. auto.
    + now apply digit_not_operator.
  - change (chars "%" ++ ?r) with ("%"%char :: r).
    rewrite (lex_operator _ _ TPercent), Hfin, Hlexb; [reflexivity|].
    rewrite !elem_of_cons. auto.
  - change (chars "**" ++ ?r) with ("*"%char :: "*"%char :: r).
    rewrite (lex_doubled _ _ TDoubleStar), Hfin, Hlexb; [reflexivity|].
    rewrite !elem_of_cons. auto.
  - change (chars "//" ++ ?r) with ("/"%char :: "/"%char :: r).
    rewrite (lex_doubled _ _ TDoubleSlash), Hfin, Hlexb; [reflexivity|].
    rewrite !elem_of_cons. auto.
Qed.

Lemma digit_allowed (c : ascii) : is_digit c = true -> is_allowed c = true.
Proof.
  destruct c as [[] [] [] [] [] [] [] []]; try discriminate; reflexivity.
Qed.

Lemma digits_allowed (l : list ascii) :
  Forall (fun c => is_digit c = true) l -> forallb is_allowed l = true.
Proof.
  induction 1 as [|c l Hc _ IH]; simpl; [reflexivity|].
  now rewrite (digit_allowed c Hc), IH.
Qed.

Lemma natural_allowed (n : Z) :
  0 <= n -> forallb is_allowed (chars (str_of_int n)) = true.
Proof.
  intros Hn. destruct (str_of_int_digits n Hn) as (d & ds & Hchars & Hdig & _).
  rewrite Hchars. now apply digits_allowed.
Qed.

Lemma natural_first (n : Z) :
  0 <= n ->
  exists d rest, chars (str_of_int n) = d :: rest /\ Ascii.eqb d space_char = false.
Proof.
  intros Hn. destruct (str_of_int_digits n Hn) as (d & ds & Hchars & Hdig & _).
  exists d, ds. split; [exact Hchars|].
  apply Forall_cons in Hdig. destruct Hdig as [Hd _].
  now apply digit_not_operator.
Qed.

Lemma ast_parse_natural (n : Z) :
  0 <= n -> ast_parse (str_of_int n) = Ok (Constant (CInt n)).
Proof.
  intros Hn. unfold ast_parse. rewrite lex_natural by assumption.
  destruct (natural_first n Hn) as (d & rest & -> & Hd).
  cbn [mbind result_bind]. rewrite Hd. reflexivity.
Qed.

Lemma ast_parse_binary (a b : Z) (op : string) (tok : token) (o : operator) :
  0 <= a -> 0 <= b -> (op, tok, o) ∈ operator_nodes ->
  ast_parse (binary a op b) = Ok (BinOp (Constant (CInt a)) o (Constant (CInt b))).
Proof.
  intros Ha Hb Hop. unfold ast_parse, binary.
  assert (Htok : (op, tok) ∈ operator_tokens).
  { unfold operator_nodes in Hop. unfold operator_tokens.
    rewrite !elem_of_cons, elem_of_nil in Hop. rewrite !elem_of_cons.
    repeat match goal with H : _ \/ _ |- _ => destruct H as [H|H] end;
      try contradiction; injection Hop as -> -> ->; auto 10. }
  rewrite (lex_binary a b op tok) by assumption.
  destruct (natural_first a Ha) as (d & rest & Hchars & Hd).
  rewrite chars_app, Hchars.
  cbn [mbind result_bind app]. rewrite Hd.
  unfold operator_nodes in Hop. rewrite !elem_of_cons, elem_of_nil in Hop.
  repeat match goal with H : _ \/ _ |- _ => destruct H as [H|H] end;
    try contradiction; injection Hop as -> -> ->; reflexivity.
Qed.

Lemma binary_allowed (a b : Z) (op : string) :
  0 <= a -> 0 <= b -> forallb is_allowed (chars op) = true ->
  forallb is_allowed (chars (binary a op b)) = true.
Proof.
  intros Ha Hb Hop. unfold binary.
  rewrite !chars_app, !forallb_app, Hop, !natural_allowed by assumption.
  reflexivity.
Qed.

Section Calculate.
Context {F : Inexact}.

Lemma calculate_binary (a b : Z) (op : string) (tok : token) (o : operator) :
  0 <= a -> 0 <= b -> (op, tok, o) ∈ operator_nodes ->
  calculate (binary a op b)
  = match f ← operators o; f (VInt a) (VInt b) with
    | Ok v => Ok (str_value v)
    | Raise e =>
        Ok ("Error: " +:+
            (if caught_by_safe_eval e then "Invalid expression: " +:+ exn_str e
             else exn_str e))
    end.
Proof.
  intros Ha Hb Hop. unfold calculate.
  rewrite binary_allowed; try assumption.
  - unfold _safe_eval. rewrite (ast_parse_binary a b op tok o) by assumption.
    cbn [mbind result_bind _eval].
    destruct (operators o) as [f|e]; cbn [mbind result_bind].
    + destruct (f (VInt a) (VInt b)) as [v|e]; [reflexivity|].
      destruct (caught_by_safe_eval e); reflexivity.
    + destruct (caught_by_safe_eval e); reflexivity.
  - unfold operator_nodes in Hop. rewrite !elem_of_cons, elem_of_nil in Hop.
    repeat match goal with H : _ \/ _ |- _ => destruct H as [H|H] end;
      try contradiction; injection Hop as -> -> ->; reflexivity.
Qed.

(** [calculate] on the decimal numerals of natural numbers [a] and [b],
    within the 4300 digits up to which the interpreter converts between
    integers and decimal strings: a numeral alone evaluates to itself, and
    [a+b], [a-b], [a*b], [a**b] and, for [b] other than zero, [a%b] evaluate
    to the numeral of the integer result, computed exactly whenever that
    result has at most 4300 digits too.  Division and modulo by a zero are
    answered with an error string, and so is [a//b]: the two slashes pass
    the character filter, but the evaluator has no entry for floor
    division. *)
Theorem calculate_naturals (a b : Z) :
  0 <= a -> 0 <= b -> convertible a -> convertible b ->
  calculate (str_of_int a) = Ok (str_of_int a)
  /\ (convertible (a + b) -> calculate (binary a "+" b) = Ok (str_of_int (a + b)))
  /\ calculate (binary a "-" b) = Ok (str_of_int (a - b))
  /\ (convertible (a * b) -> calculate (binary a "*" b) = Ok (str_of_int (a * b)))
  /\ (convertible (a ^ b) -> calculate (binary a "**" b) = Ok (str_of_int (a ^ b)))
  /\ (b <> 0 -> calculate (binary a "%" b) = Ok (str_of_int (a mod b)))
  /\ calculate (binary a "/" 0) = Ok "Error: Invalid expression: division by zero"
  /\ calculate (binary a "%" 0) = Ok "Error: Invalid expression: integer modulo by zero"
  /\ calculate (binary a "//" b) = Ok "Error: Invalid expression: <class 'ast.FloorDiv'>".
Proof.
  intros Ha Hb _ _.
  assert (Hin : forall x, x ∈ operator_nodes <-> In x operator_nodes)
    by (intros x; apply list_elem_of_In).
  split.
  { unfold calculate, _safe_eval.
    rewrite natural_allowed, ast_parse_natural by assumption. reflexivity. }
  split.
  { intros _.
    rewrite (calculate_binary a b "+" TPlus Add) by (try apply Hin; simpl; auto 10).
    reflexivity. }
  split.
  { rewrite (calculate_binary a b "-" TMinus Sub) by (try apply Hin; simpl; auto 10).
    reflexivity. }
  split.
  { intros _.
    rewrite (calculate_binary a b "*" TStar Mult) by (try apply Hin; simpl; auto 10).
    reflexivity. }
  split.
  { intros _.
    rewrite (calculate_binary a b "**" TDoubleStar Pow) by (try apply Hin; simpl; auto 10).
    cbn [operators mbind result_bind apply_binop int_binop].
    destruct (Z.leb_spec 0 b); [reflexivity | lia]. }
  split.
  { intros Hne.
    rewrite (calculate_binary a b "%" TPercent Mod) by (try apply Hin; simpl; auto 10).
    cbn [operators mbind result_bind apply_binop int_binop].
    destruct (Z.eqb_spec b 0); [contradiction | reflexivity]. }
  split.
  { rewrite (calculate_binary a 0 "/" TSlash Div) by (try apply Hin; simpl; auto 10 || lia).
    reflexivity. }
  split.
  { rewrite (calculate_binary a 0 "%" TPercent Mod) by (try apply Hin; simpl; auto 10 || lia).
    reflexivity. }
  rewrite (calculate_binary a b "//" TDoubleSlash FloorDiv)
    by (try apply Hin; simpl; auto 10).
  reflexivity.
Qed.

End Calculate.

Lemma calculate_naturals_witness :
  0 <= 12
  /\ forall F : Inexact,
      calculate "12+30" = Ok "42"
      /\ calculate "12-30" = Ok "-18"
      /\ calculate "2**100" = Ok "1267650600228229401496703205376"
      /\ calculate "12//5" = Ok "Error: Invalid expression: <class 'ast.FloorDiv'>".
Proof.
  assert (Hsmall : forall n, Z.abs n < 10 ^ 40 -> convertible n).
  { intros n Hn. unfold convertible, int_max_str_digits.
    apply Z.lt_le_trans with (1 := Hn). apply Z.pow_le_mono_r; lia. }
  split; [lia|]. intros F.
  destruct (@calculate_naturals F 12 30 ltac:(lia) ltac:(lia)
              ltac:(apply Hsmall; vm_compute; reflexivity)
              ltac:(apply Hsmall; vm_compute; reflexivity))
    as (_ & Hadd & Hsub & _).
  destruct (@calculate_naturals F 2 100 ltac:(lia) ltac:(lia)
              ltac:(apply Hsmall; vm_compute; reflexivity)
              ltac:(apply Hsmall; vm_compute; reflexivity))
    as (_ & _ & _ & _ & Hpow & _).
  destruct (@calculate_naturals F 12 5 ltac:(lia) ltac:(lia)
              ltac:(apply Hsmall; vm_compute; reflexivity)
              ltac:(apply Hsmall; vm_compute; reflexivity))
    as (_ & _ & _ & _ & _ & _ & _ & _ & Hfloor).
  split; [apply Hadd, Hsmall; vm_compute; reflexivity|].
  split; [exact Hsub|].
  split; [apply Hpow, Hsmall; vm_compute; reflexivity | exact Hfloor].
Defined.

Section Arithmetic.
Context {F : Inexact}.

Lemma eval_arithmetic (node : expr) (v : value inexact) :
  _eval node = Ok v -> arithmetic node = true.
Proof.
  revert v. induction node as [c|l IHl op r IHr|op operand IH|elts|func args kws|e IH];
    intros v; simpl; try discriminate.
  - destruct c; [reflexivity | reflexivity | discriminate].
  - destruct op; cbn [operators mbind result_bind]; try discriminate;
      (destruct (_eval l) as [a|]; [|discriminate]);
      (destruct (_eval r) as [b|]; [|discriminate]);
      intros _; now rewrite (IHl a), (IHr b).
  - destruct (_eval operand) as [a|]; [|discriminate].
    intros _. now apply (IH a).
Qed.

Lemma eval_int_value (node : expr) (z : Z) :
  int_value node = Some z -> _eval node = Ok (VInt z).
Proof.
  revert z. induction node as [c|l IHl op r IHr|op operand IH|elts|func args kws|e IH];
    intros z; simpl; try discriminate.
  - destruct c; try discriminate. now intros [= ->].
  - destruct op; try discriminate;
      (destruct (int_value l) as [a|]; [|discriminate]);
      (destruct (int_value r) as [b|]; [|discriminate]);
      simpl; intros [= <-]; rewrite (IHl a), (IHr b) by reflexivity; reflexivity.
  - destruct op.
    + intros H. now rewrite (IH z).
    + destruct (int_value operand) as [a|]; [|discriminate].
      simpl. intros [= <-]. now rewrite (IH a).
Qed.

(** What [_safe_eval] evaluates.  It returns a value only for an
    expression that parses to a tree of numbers, signs and the operators
    [+ - * / % **]: a call, a tuple, an ellipsis or a floor division
    anywhere in the tree makes it raise.  And on an expression of at most
    a hundred characters -- which keeps the numerals, the nesting of the
    parentheses and the depth of the tree far from the limits of the
    interpreter -- that parses to a tree of integer literals, signs, sums,
    differences and products, it computes the exact integer. *)
Theorem safe_eval_arithmetic_only (expression : string) :
  (forall v, _safe_eval expression = Ok v ->
     exists tree,
       ast_parse expression = Ok tree /\ arithmetic tree = true /\ _eval tree = Ok v)
  /\ (forall tree z,
        (String.length expression <= 100)%nat ->
        ast_parse expression = Ok tree -> int_value tree = Some z ->
        _safe_eval expression = Ok (VInt z)
        /\ (forallb is_allowed (chars expression) = true ->
            calculate expression = Ok (str_of_int z))).
Proof.
  split.
  - intros v. unfold _safe_eval.
    destruct (ast_parse expression) as [tree|e] eqn:Hparse; cbn [mbind result_bind].
    + destruct (_eval tree) as [v'|e] eqn:Heval.
      * intros [= <-]. exists tree. split; [reflexivity|].
        split; [now apply (eval_arithmetic tree v') | exact Heval].
      * now destruct (caught_by_safe_eval e).
    + now destruct (caught_by_safe_eval e).
  - intros tree z _ Hparse Hz. apply eval_int_value in Hz.
    assert (Hsafe : _safe_eval expression = Ok (VInt z)).
    { unfold _safe_eval. rewrite Hparse. cbn [mbind result_bind]. now rewrite Hz. }
    split; [exact Hsafe|]. intros Hallowed.
    unfold calculate. now rewrite Hallowed, Hsafe.
Qed.

End Arithmetic.

Lemma safe_eval_arithmetic_only_witness :
  int_value (BinOp (Constant (CInt 2)) Mult
               (BinOp (Constant (CInt 3)) Add (UnaryOp USub (Constant (CInt 4)))))
  = Some (-2)
  /\ forall F : Inexact,
      calculate "2*(3+-4)" = Ok "-2"
      /\ exists tree, ast_parse "2*(3+-4)" = Ok tree /\ arithmetic tree = true.
Proof.
  split; [reflexivity|]. intros F.
  destruct (@safe_eval_arithmetic_only F "2*(3+-4)") as [Honly Hint].
  destruct (Hint _ (-2) ltac:(simpl; lia) eq_refl eq_refl) as [Hsafe Hcalc].
  split; [exact (Hcalc eq_refl)|].
  destruct (Honly _ Hsafe) as (tree & Hparse & Harith & _). eauto.
Defined.

End ToolsFacts.

(** ** The tool executor *)

Module ToolExecFacts.
Import PyStr Tools ToolExec.

(** C9, as amended.  [execute_tool] returns a string for every tool name
    and argument map and never raises.  For a name that is not registered
    the string is ["Error: Tool '<name>' not found"].  When the registered
    tool raises, the exception is caught and the string is
    ["Error executing tool: "] followed by the exception's message; the
    tool's name is not part of it. *)
Theorem execute_tool_errors (registry : gmap string tool) (tool_name : string)
    (args : option (gmap string pyval)) :
  (exists s, execute_tool registry tool_name args = Ok s)
  /\ (registry !! tool_name = None ->
      execute_tool registry tool_name args
      = Ok ("Error: Tool '" +:+ tool_name +:+ "' not found"))
  /\ (forall (f : tool) e,
        registry !! tool_name = Some f -> f (default ∅ args) = Raise e ->
        execute_tool registry tool_name args
        = Ok ("Error executing tool: " +:+ exn_str e))
  /\ (forall (f : tool) r,
        registry !! tool_name = Some f -> f (default ∅ args) = Ok r ->
        execute_tool registry tool_name args = Ok r).
Proof.
  split.
  - unfold execute_tool, get_tool.
    destruct (registry !! tool_name) as [f|]; [|eauto].
    destruct (f (default ∅ args)); eauto.
  - split; [|split].
    + intros H. unfold execute_tool, get_tool. now rewrite H.
    + intros f e H He. unfold execute_tool, get_tool. now rewrite H, He.
    + intros f r H Hr. unfold execute_tool, get_tool. now rewrite H, Hr.
Qed.

(** [execute_tool_errors] on a registry with one tool that always raises. *)
Lemma execute_tool_errors_witness :
  execute_tool {["boom" := failing_tool "bad input"]} "nope" None
  = Ok "Error: Tool 'nope' not found"
  /\ execute_tool {["boom" := failing_tool "bad input"]} "boom" None
     = Ok "Error executing tool: bad input".
Proof.
  split.
  - destruct (execute_tool_errors {["boom" := failing_tool "bad input"]} "nope" None)
      as (_ & Hmissing & _).
    apply Hmissing. reflexivity.
  - destruct (execute_tool_errors {["boom" := failing_tool "bad input"]} "boom" None)
      as (_ & _ & Hraise & _).
    apply (Hraise (failing_tool "bad input") (Exn ValueError "bad input"));
      reflexivity.
Defined.

(** The claim of C9 fails in its last part: the string returned for a tool
    that raises does not name the tool. *)
Lemma execute_tool_name_counterexample :
  ({["boom" := failing_tool "bad input"]} : gmap string tool) !! "boom"
  = Some (failing_tool "bad input")
  /\ failing_tool "bad input" ∅ = Raise (Exn ValueError "bad input")
  /\ execute_tool {["boom" := failing_tool "bad input"]} "boom" None
     = Ok "Error executing tool: bad input"
  /\ contains "boom" "Error executing tool: bad input" = false.
Proof. repeat split. Qed.

(** The two tools of the default registry, for every floating-point
    arithmetic and reading of the clock. *)
Example execute_default_tools :
  forall (F : Inexact) (now : string),
    execute_tool (tool_registry now) "calculate"
      (Some {["expression" := PStr "6+7"]}) = Ok "13"
    /\ execute_tool (tool_registry now) "get_current_date" None = Ok (now +:+ ":S")
    /\ execute_tool (tool_registry now) "calculate" None
       = Ok "Error executing tool: ToolRegistry.calculate() missing 1 required positional argument: 'expression'".
Proof. intros F now. repeat split. Qed.

(** *** The default registry *)

Section DefaultRegistry.
Context {F : Inexact}.
Variable now : string.

Lemma calculate_tool_expression (expression : string) :
  calculate_tool {["expression" := PStr expression]} = calculate expression.
Proof.
  unfold calculate_tool. rewrite lookup_singleton_eq, map_to_list_singleton.
  reflexivity.
Qed.

Lemma execute_calculate (expression : string) :
  execute_tool (tool_registry now) "calculate"
    (Some {["expression" := PStr expression]}) = calculate expression.
Proof.
  unfold execute_tool, get_tool, tool_registry, register_tool.
  rewrite lookup_insert_eq. cbn [from_option id]. rewrite calculate_tool_expression.
  unfold calculate. now destruct (forallb _ _); [destruct (_safe_eval _)|].
Qed.

(** The registry.  [register_tool] makes the name answer with the new
    function, replacing what was registered under it, and leaves every
    other name as it was.  The module-level registry has the two default
    tools and nothing else: executing ["calculate"] with an expression
    gives exactly what [calculate] returns for it, executing
    ["get_current_date"] without arguments gives the formatted clock
    reading, and every other name is answered with the not-found string. *)
Theorem default_registry (name : string) (args : option (gmap string pyval)) :
  (forall (tools : gmap string tool) (func : tool),
      get_tool (register_tool tools name func) name = Some func
      /\ forall other, other <> name ->
           get_tool (register_tool tools name func) other = get_tool tools other)
  /\ (forall expression,
      execute_tool (tool_registry now) "calculate"
        (Some {["expression" := PStr expression]}) = calculate expression)
  /\ execute_tool (tool_registry now) "get_current_date" None
     = Ok (get_current_date now)
  /\ (name <> "calculate" -> name <> "get_current_date" ->
      execute_tool (tool_registry now) name args
      = Ok ("Error: Tool '" +:+ name +:+ "' not found"))
  /\ dom (tool_registry now) = {["calculate"; "get_current_date"]}.
Proof.
  split; [|split; [|split; [|split]]].
  - intros tools func. unfold get_tool, register_tool.
    rewrite lookup_insert_eq. split; [reflexivity|].
    intros other Hne. now rewrite lookup_insert_ne by congruence.
  - apply execute_calculate.
  - reflexivity.
  - intros H1 H2. unfold execute_tool, get_tool, tool_registry, register_tool.
    now rewrite !lookup_insert_ne, lookup_empty by congruence.
  - unfold tool_registry, register_tool. rewrite !dom_insert_L, dom_empty_L.
    set_solver.
Qed.

End DefaultRegistry.

End ToolExecFacts.

(** ** The workflow *)

Module WorkflowFacts.
Import PyStr Workflow.

Lemma append_nonempty (a b : string) : a <> "" -> a +:+ b <> "".
Proof. destruct a; [congruence | discriminate]. Qed.

Section Nodes.
Variable svc : Services.

(** The retrieval node sets a non-empty error exactly when the search
    raises, and never touches the query. *)
Lemma retrieval_node_raise st e :
  hybrid_search svc (query st) (user_id st) (Some 10) = Raise e ->
  truthy_str (error (retrieval_node svc st)) = true.
Proof.
  intros H. unfold retrieval_node. rewrite H.
  destruct (exn_isinstance e ValueError || exn_isinstance e RuntimeError); reflexivity.
Qed.

Lemma retrieval_node_ok st results :
  hybrid_search svc (query st) (user_id st) (Some 10) = Ok results ->
  error (retrieval_node svc st) = error st.
Proof. intros H. unfold retrieval_node. now rewrite H. Qed.

Lemma retrieval_node_query st : query (retrieval_node svc st) = query st.
Proof.
  unfold retrieval_node. destruct (hybrid_search svc _ _ _) as [results|e]; [reflexivity|].
  destruct (exn_isinstance e ValueError || exn_isinstance e RuntimeError); reflexivity.
Qed.

Lemma reranking_node_query st : query (reranking_node svc st) = query st.
Proof.
  unfold reranking_node. destruct (hybrid_results st) as [[|d ds]|]; try reflexivity.
  destruct (rerank svc _ _ _); reflexivity.
Qed.

Lemma tool_analysis_node_query st : query (tool_analysis_node st) = query st.
Proof. reflexivity. Qed.

Lemma tool_execution_node_query st : query (tool_execution_node svc st) = query st.
Proof.
  unfold tool_execution_node.
  destruct (tool_execution_body svc st) as [st1|e] eqn:Hbody; [|reflexivity].
  unfold tool_execution_body in Hbody.
  destruct (contains "date" _ || contains "today" _).
  - destruct (execute_tool svc _ _); [|discriminate]. now injection Hbody as <-.
  - destruct (contains "calculate" _ || contains "compute" _); [|now injection Hbody as <-].
    destruct (findall_digits _) as [|n0 [|n1 rest]]; try (now injection Hbody as <-).
    destruct (execute_tool svc _ _); [|discriminate]. now injection Hbody as <-.
Qed.

Lemma tool_analysis_node_needed st :
  tool_needed (tool_analysis_node st) = Some (has_trigger (lower (query st))).
Proof. reflexivity. Qed.

(** The two ways through the graph. *)
Lemma invoke_error_path st :
  truthy_str (error (retrieval_node svc st)) = true ->
  invoke svc st = Some ([Retrieval; Error], error_node (retrieval_node svc st)).
Proof.
  intros H. unfold invoke. cbn [run_from run_node next_node].
  unfold check_error. rewrite H. reflexivity.
Qed.

Lemma invoke_main_path st :
  truthy_str (error (retrieval_node svc st)) = false ->
  invoke svc st
  = Some (if has_trigger (lower (query st))
          then ([Retrieval; Reranking; ToolAnalysis; ToolExecution; Generation],
                generation_node svc
                  (tool_execution_node svc
                     (tool_analysis_node (reranking_node svc (retrieval_node svc st)))))
          else ([Retrieval; Reranking; ToolAnalysis; Generation],
                generation_node svc
                  (tool_analysis_node (reranking_node svc (retrieval_node svc st))))).
Proof.
  intros H. unfold invoke. cbn [run_from run_node next_node].
  unfold check_error. rewrite H. cbn [run_node next_node].
  unfold should_use_tool. rewrite tool_analysis_node_needed.
  rewrite reranking_node_query, retrieval_node_query.
  destruct (has_trigger (lower (query st))); reflexivity.
Qed.

(** The graph has no cycle: every run ends after at most five nodes. *)
Lemma invoke_terminates st :
  exists visited final, invoke svc st = Some (visited, final).
Proof.
  destruct (truthy_str (error (retrieval_node svc st))) eqn:E.
  - rewrite invoke_error_path by assumption. eauto.
  - rewrite invoke_main_path by assumption.
    destruct (has_trigger (lower (query st))); eauto.
Qed.

Lemma error_node_answer st :
  exists a, answer (error_node st) = Some a /\ a <> "".
Proof. eexists. split; [reflexivity|]. discriminate. Qed.

Lemma generation_node_query st : query (generation_node svc st) = query st.
Proof.
  unfold generation_node.
  destruct (negb (truthy_list (context_documents st)) && negb (truthy_str (tool_result st)));
    [reflexivity|].
  destruct (context_documents st) as [docs|].
  - destruct (generate_with_context svc _ _) as [text|e]; [reflexivity|].
    destruct (exn_isinstance e ValueError || exn_isinstance e RuntimeError); reflexivity.
  - reflexivity.
Qed.

(** The generation node always sets an answer, and an empty one only by
    passing on an empty text of the language model. *)
Lemma generation_node_answer st :
  exists a,
    answer (generation_node svc st) = Some a
    /\ (a = "" ->
        exists docs, generate_with_context svc (query st) docs = Ok "").
Proof.
  unfold generation_node.
  destruct (negb (truthy_list (context_documents st)) && negb (truthy_str (tool_result st))).
  { eexists. split; [reflexivity | discriminate]. }
  destruct (context_documents st) as [docs|].
  - destruct (generate_with_context svc (query st) docs) as [text|e] eqn:Hgen.
    + destruct (tool_result st) as [r|]; cbn [answer append_step set_answer set_metadata].
      * destruct (String.eqb_spec r "") as [->|Hr].
        -- eexists. split; [reflexivity|]. intros ->. eauto.
        -- eexists. split; [reflexivity|]. intros Ha.
           exfalso. revert Ha. now apply append_nonempty.
      * eexists. split; [reflexivity|]. intros ->. eauto.
    + destruct (exn_isinstance e ValueError || exn_isinstance e RuntimeError);
        eexists; (split; [reflexivity | discriminate]).
  - eexists. split; [reflexivity | discriminate].
Qed.

End Nodes.

(** C3, as amended.  Every run of the graph terminates.  When the retrieval
    stage raises, and so sets an error, the run is
    [retrieval -> error] and never reaches [reranking].  When the
    lower-cased query contains none of the trigger phrases, the run never
    reaches [tool_execution].  Every run ends with an answer string in the
    final state; the string is non-empty except when the language model
    returned an empty text that the generation stage passed on. *)
Theorem workflow_routing (svc : Services) (q : string) (uid : Z)
    (tid : option string) :
  exists visited final,
    invoke svc (create_initial_state q uid tid) = Some (visited, final)
    /\ (truthy_str (error (retrieval_node svc (create_initial_state q uid tid))) = true ->
        visited = [Retrieval; Error] /\ Reranking ∉ visited)
    /\ (forall e, hybrid_search svc q uid (Some 10) = Raise e ->
        visited = [Retrieval; Error] /\ Reranking ∉ visited)
    /\ (has_trigger (lower q) = false -> ToolExecution ∉ visited)
    /\ exists a,
        answer final = Some a
        /\ (a = "" -> exists docs, generate_with_context svc q docs = Ok "")
        /\ ((forall docs, generate_with_context svc q docs <> Ok "") -> a <> "").
Proof.
  set (st := create_initial_state q uid tid).
  assert (Herr : truthy_str (error (retrieval_node svc st)) = true ->
                 invoke svc st = Some ([Retrieval; Error], error_node (retrieval_node svc st)))
    by apply invoke_error_path.
  assert (Hnot : Reranking ∉ [Retrieval; Error])
    by (rewrite !not_elem_of_cons; repeat split; (discriminate || apply not_elem_of_nil)).
  assert (Hanswer : forall final,
             (exists a, answer final = Some a
                        /\ (a = "" -> exists docs, generate_with_context svc q docs = Ok "")) ->
             exists a, answer final = Some a
                       /\ (a = "" -> exists docs, generate_with_context svc q docs = Ok "")
                       /\ ((forall docs, generate_with_context svc q docs <> Ok "") -> a <> "")).
  { intros final (a & Ha & Hempty). exists a. split; [exact Ha|]. split; [exact Hempty|].
    intros Hgen ->. destruct (Hempty eq_refl) as [docs Hdocs]. now apply (Hgen docs). }
  destruct (truthy_str (error (retrieval_node svc st))) eqn:E.
  - exists [Retrieval; Error], (error_node (retrieval_node svc st)).
    split; [now apply Herr|]. split; [now split|]. split; [now split|].
    split.
    { intros _. rewrite !not_elem_of_cons. repeat split; (discriminate || apply not_elem_of_nil). }
    apply Hanswer. destruct (error_node_answer (retrieval_node svc st)) as (a & Ha & Hne).
    exists a. split; [exact Ha | congruence].
  - pose proof (invoke_main_path svc st E) as Hmain.
    assert (Hok : forall e, hybrid_search svc q uid (Some 10) = Raise e -> False).
    { intros e He. pose proof (retrieval_node_raise svc st e He). congruence. }
    destruct (has_trigger (lower (query st))) eqn:Htrigger.
    + eexists _, _. split; [exact Hmain|].
      split; [discriminate|]. split; [intros e He; destruct (Hok e He)|].
      split; [intros Hq; change (query st) with q in Htrigger; congruence|].
      apply Hanswer.
      destruct (generation_node_answer svc
                  (tool_execution_node svc
                     (tool_analysis_node (reranking_node svc (retrieval_node svc st)))))
        as (a & Ha & Hempty).
      exists a. split; [exact Ha|]. intros Hnil. destruct (Hempty Hnil) as [docs Hdocs].
      exists docs. rewrite <- Hdocs. f_equal.
      now rewrite tool_execution_node_query, tool_analysis_node_query,
        reranking_node_query, retrieval_node_query.
    + eexists _, _. split; [exact Hmain|].
      split; [discriminate|]. split; [intros e He; destruct (Hok e He)|].
      split.
      { intros _. rewrite !not_elem_of_cons.
        repeat split; (discriminate || apply not_elem_of_nil). }
      apply Hanswer.
      destruct (generation_node_answer svc
                  (tool_analysis_node (reranking_node svc (retrieval_node svc st))))
        as (a & Ha & Hempty).
      exists a. split; [exact Ha|]. intros Hnil. destruct (Hempty Hnil) as [docs Hdocs].
      exists docs. rewrite <- Hdocs. f_equal.
      now rewrite tool_analysis_node_query, reranking_node_query, retrieval_node_query.
Qed.

(** [workflow_routing] on a run whose retrieval fails and on a run of a
    query without trigger phrase. *)
Lemma workflow_routing_witness :
  (exists final,
      invoke (failing_retrieval_services "Paris.")
        (create_initial_state "What is the capital of France?" 1 None)
      = Some ([Retrieval; Error], final)
      /\ answer final
        = Some "An error occurred: Retrieval error: vector store unavailable")
  /\ (exists visited final,
        invoke (example_services [BM25.stored_chunk "Paris is the capital of France." 0]
                  "Paris.")
          (create_initial_state "What is the capital of France?" 1 None)
        = Some (visited, final)
        /\ (ToolExecution ∉ visited)
        /\ answer final = Some "Paris.").
Proof.
  split.
  - destruct (workflow_routing (failing_retrieval_services "Paris.")
                "What is the capital of France?" 1 None)
      as (visited & final & Hinv & _ & Hraise & _).
    destruct (Hraise (Exn RuntimeError "vector store unavailable") eq_refl) as [-> _].
    exists final. split; [exact Hinv|].
    vm_compute in Hinv. injection Hinv as <-. reflexivity.
  - destruct (workflow_routing
                (example_services [BM25.stored_chunk "Paris is the capital of France." 0]
                   "Paris.")
                "What is the capital of France?" 1 None)
      as (visited & final & Hinv & _ & _ & Htrigger & _).
    exists visited, final. split; [exact Hinv|]. split; [now apply Htrigger|].
    vm_compute in Hinv. injection Hinv as _ <-. reflexivity.
Defined.

(** The claim of C3 fails in its last part: when the language model returns
    an empty text for a query that needs no tool, the run ends in the
    generation state with the empty string as its answer. *)
Lemma workflow_empty_answer_counterexample :
  exists final,
    invoke (example_services [BM25.stored_chunk "Paris is the capital of France." 0] "")
      (create_initial_state "hello" 1 None)
    = Some ([Retrieval; Reranking; ToolAnalysis; Generation], final)
    /\ answer final = Some "".
Proof. eexists. split; [vm_compute; reflexivity | reflexivity]. Qed.

Section ToolExecution.
Variable svc : Services.

Lemma tool_execution_arithmetic_branch st :
  (contains "date" (lower (query st)) || contains "today" (lower (query st))) = false ->
  (contains "calculate" (lower (query st)) || contains "compute" (lower (query st))) = true ->
  tool_execution_body svc st
  = match findall_digits (lower (query st)) with
    | n0 :: n1 :: _ =>
        r ← execute_tool svc "calculate"
              (Some {["expression" := PStr (n0 +:+ "+" +:+ n1)]});
        Ok (set_tool_result st ("Calculation result: " +:+ r))
    | _ => Ok st
    end.
Proof. intros Hdate Hcalc. unfold tool_execution_body. now rewrite Hdate, Hcalc. Qed.

(** C10.  In the arithmetic branch of [tool_execution_node] -- the
    lower-cased query contains ["calculate"] or ["compute"] and neither
    ["date"] nor ["today"] -- a query with at least two runs of digits has
    the expression [n0+n1] evaluated, where [n0] and [n1] are the first two
    runs, whatever operation its words ask for, and the outcome is stored
    as the tool result.  A query with fewer than two runs of digits leaves
    the tool result as it was, and only records the stage. *)
Theorem tool_execution_adds_first_two (st : RAGState) :
  (contains "date" (lower (query st)) || contains "today" (lower (query st))) = false ->
  (contains "calculate" (lower (query st)) || contains "compute" (lower (query st))) = true ->
  (forall n0 n1 rest,
      findall_digits (lower (query st)) = n0 :: n1 :: rest ->
      (forall r,
          execute_tool svc "calculate"
            (Some {["expression" := PStr (n0 +:+ "+" +:+ n1)]}) = Ok r ->
          tool_execution_node svc st
          = append_step (set_tool_result st ("Calculation result: " +:+ r))
              "tool_execution")
      /\ (forall e,
            execute_tool svc "calculate"
              (Some {["expression" := PStr (n0 +:+ "+" +:+ n1)]}) = Raise e ->
            tool_execution_node svc st
            = set_tool_result st ("Tool execution error: " +:+ exn_str e)))
  /\ ((length (findall_digits (lower (query st))) < 2)%nat ->
      tool_execution_node svc st = append_step st "tool_execution"
      /\ tool_result (tool_execution_node svc st) = tool_result st).
Proof.
  intros Hdate Hcalc. unfold tool_execution_node.
  rewrite (tool_execution_arithmetic_branch st Hdate Hcalc). split.
  - intros n0 n1 rest ->. split.
    + intros r ->. reflexivity.
    + intros e ->. reflexivity.
  - intros Hlen. destruct (findall_digits (lower (query st))) as [|n0 [|n1 rest]];
      [split; reflexivity | split; reflexivity | simpl in Hlen; lia].
Qed.

End ToolExecution.

(** [tool_execution_adds_first_two] with the tool executor on the registry
    of [tools.py], for every floating-point arithmetic and reading of the
    clock: a query that asks for a product gets the sum of its first two
    numbers, and a query without numbers gets no tool result. *)
Lemma tool_execution_adds_first_two_witness :
  findall_digits (lower "Compute 6 times 7 and then 8") = ["6"; "7"; "8"]
  /\ forall (F : Tools.Inexact) (now : string),
      tool_result
        (tool_execution_node (tool_services now [] "")
           (create_initial_state "Compute 6 times 7 and then 8" 1 None))
      = Some "Calculation result: 13"
      /\ tool_result
           (tool_execution_node (tool_services now [] "")
              (create_initial_state "Please calculate it" 1 None))
         = None.
Proof.
  split; [reflexivity|]. intros F now. split.
  - destruct (tool_execution_adds_first_two (tool_services now [] "")
                (create_initial_state "Compute 6 times 7 and then 8" 1 None)
                eq_refl eq_refl) as [Htwo _].
    destruct (Htwo "6" "7" ["8"] eq_refl) as [Hok _].
    now rewrite (Hok "13" eq_refl).
  - destruct (tool_execution_adds_first_two (tool_services now [] "")
                (create_initial_state "Please calculate it" 1 None)
                eq_refl eq_refl) as [_ Hfew].
    destruct Hfew as [_ ->]; [simpl; lia | reflexivity].
Defined.

(** Digits with a leading zero make the sum a syntax error, which comes
    back inside the tool result. *)
Example tool_execution_leading_zero :
  forall (F : Tools.Inexact) (now : string),
    tool_result
      (tool_execution_node (tool_services now [] "")
         (create_initial_state "calculate 007 plus 5" 1 None))
    = Some "Calculation result: Error: Invalid expression: leading zeros in decimal integer literals are not permitted; use an 0o prefix for octal integers (<unknown>, line 1)".
Proof. intros F now. reflexivity. Qed.

Import Tools.

(** *** Steps, tools and failures *)

Section Runs.
Variable svc : Services.

(** Each node appends its own name to the steps, or nothing. *)
Lemma run_node_steps (n : node) (st : RAGState) :
  steps (metadata (run_node svc n st)) = steps (metadata st)
  \/ steps (metadata (run_node svc n st)) = steps (metadata st) ++ [node_name n].
Proof.
  destruct n; cbn [run_node node_name].
  - unfold retrieval_node. destruct (hybrid_search svc _ _ _) as [results|e].
    + now right.
    + left. now destruct (exn_isinstance e ValueError || exn_isinstance e RuntimeError).
  - unfold reranking_node. destruct (hybrid_results st) as [[|d ds]|]; try now left.
    destruct (rerank svc _ _ _); [now right | now left].
  - now right.
  - unfold tool_execution_node.
    destruct (tool_execution_body svc st) as [st1|e] eqn:Hbody; [|now left].
    right. unfold tool_execution_body in Hbody.
    destruct (contains "date" _ || contains "today" _).
    + destruct (execute_tool svc _ _); [|discriminate]. now injection Hbody as <-.
    + destruct (contains "calculate" _ || contains "compute" _); [|now injection Hbody as <-].
      destruct (findall_digits _) as [|n0 [|n1 rest]]; try (now injection Hbody as <-).
      destruct (execute_tool svc _ _); [|discriminate]. now injection Hbody as <-.
  - unfold generation_node.
    destruct (negb (truthy_list (context_documents st)) && negb (truthy_str (tool_result st)));
      [now left|].
    destruct (context_documents st) as [docs|]; [|now left].
    destruct (generate_with_context svc _ _) as [text|e]; [now right|].
    left. now destruct (exn_isinstance e ValueError || exn_isinstance e RuntimeError).
  - now right.
Qed.

Lemma run_from_steps (fuel : nat) (n : node) (st : RAGState) visited final :
  run_from svc fuel n st = Some (visited, final) ->
  exists recorded,
    steps (metadata final) = steps (metadata st) ++ recorded
    /\ sublist recorded (map node_name visited).
Proof.
  revert n st visited final. induction fuel as [|fuel IH]; intros n st visited final;
    simpl; [discriminate|].
  assert (Hstep : exists r, steps (metadata (run_node svc n st)) = steps (metadata st) ++ r
                            /\ sublist r [node_name n]).
  { destruct (run_node_steps n st) as [H|H].
    - exists []. split; [now rewrite app_nil_r | apply sublist_nil_l].
    - exists [node_name n]. split; [exact H | reflexivity]. }
  destruct Hstep as (r & Hr & Hsub).
  destruct (next_node n (run_node svc n st)) as [n'|].
  - destruct (run_from svc fuel n' (run_node svc n st)) as [[visited' final']|] eqn:Hrun;
      [|discriminate].
    intros [= <- <-]. destruct (IH _ _ _ _ Hrun) as (recorded & Hrec & Hsub').
    exists (r ++ recorded). split.
    + now rewrite Hrec, Hr, app_assoc.
    + change (map node_name (n :: visited')) with ([node_name n] ++ map node_name visited').
      now apply sublist_app.
  - intros [= <- <-]. exists r. split; [exact Hr | exact Hsub].
Qed.

(** The steps a run records are names of nodes the run went through, in
    the order in which it went through them, each at most once.  Not
    every node that ran is among them: a node that fails, a reranking
    without documents and a generation without context record nothing. *)
Theorem steps_follow_the_run (q : string) (uid : Z) (tid : option string) :
  exists visited final,
    invoke svc (create_initial_state q uid tid) = Some (visited, final)
    /\ sublist (steps (metadata final)) (map node_name visited)
    /\ NoDup (steps (metadata final))
    /\ (ToolAnalysis ∈ visited -> "tool_analysis" ∈ steps (metadata final))
    /\ (Error ∈ visited -> steps (metadata final) = ["error"]).
Proof.
  set (st0 := create_initial_state q uid tid).
  destruct (invoke_terminates svc st0) as (visited & final & Hrun).
  exists visited, final. split; [exact Hrun|].
  destruct (run_from_steps _ _ _ _ _ Hrun) as (recorded & Hrec & Hsub).
  simpl in Hrec. subst recorded.
  split; [exact Hsub|].
  assert (Hpaths : visited = [Retrieval; Error]
                   \/ visited = [Retrieval; Reranking; ToolAnalysis; ToolExecution; Generation]
                   \/ visited = [Retrieval; Reranking; ToolAnalysis; Generation]).
  { destruct (truthy_str (error (retrieval_node svc st0))) eqn:E.
    - rewrite invoke_error_path in Hrun by assumption. injection Hrun as <- _. auto.
    - rewrite invoke_main_path in Hrun by assumption.
      destruct (has_trigger (lower (query st0))); injection Hrun as <- _; auto. }
  split.
  { apply (sublist_NoDup _ (map node_name visited)); [|exact Hsub].
    destruct Hpaths as [->|[->| ->]]; simpl; repeat constructor;
      rewrite ?elem_of_cons, ?elem_of_nil; intuition discriminate. }
  split.
  - intros Hin.
    destruct (truthy_str (error (retrieval_node svc st0))) eqn:E.
    + rewrite invoke_error_path in Hrun by assumption. injection Hrun as <- _.
      rewrite !elem_of_cons, elem_of_nil in Hin. intuition discriminate.
    + rewrite invoke_main_path in Hrun by assumption.
      set (st3 := tool_analysis_node (reranking_node svc (retrieval_node svc st0))) in *.
      assert (H3 : "tool_analysis" ∈ steps (metadata st3))
        by (subst st3; cbn; apply elem_of_app; right; apply elem_of_cons; now left).
      assert (Hkeep : forall n st, "tool_analysis" ∈ steps (metadata st) ->
                        "tool_analysis" ∈ steps (metadata (run_node svc n st))).
      { intros n st Hst. destruct (run_node_steps n st) as [-> | ->]; [exact Hst|].
        apply elem_of_app. now left. }
      destruct (has_trigger (lower (query st0))); injection Hrun as _ <-.
      * apply (Hkeep Generation), (Hkeep ToolExecution), H3.
      * apply (Hkeep Generation), H3.
  - intros Hin.
    destruct (truthy_str (error (retrieval_node svc st0))) eqn:E.
    + rewrite invoke_error_path in Hrun by assumption. injection Hrun as _ <-.
      unfold retrieval_node in *.
      destruct (hybrid_search svc (query st0) (user_id st0) (Some 10)) as [results|e];
        [discriminate|].
      now destruct (exn_isinstance e ValueError || exn_isinstance e RuntimeError).
    + rewrite invoke_main_path in Hrun by assumption.
      destruct (has_trigger (lower (query st0))); injection Hrun as <- _;
        rewrite !elem_of_cons, elem_of_nil in Hin; intuition discriminate.
Qed.


Lemma retrieval_node_tool_result st :
  tool_result (retrieval_node svc st) = tool_result st.
Proof.
  unfold retrieval_node. destruct (hybrid_search svc _ _ _) as [results|e]; [reflexivity|].
  now destruct (exn_isinstance e ValueError || exn_isinstance e RuntimeError).
Qed.

Lemma reranking_node_tool_result st :
  tool_result (reranking_node svc st) = tool_result st.
Proof.
  unfold reranking_node. destruct (hybrid_results st) as [[|d ds]|]; try reflexivity.
  now destruct (rerank svc _ _ _).
Qed.

Lemma generation_node_tool_result st :
  tool_result (generation_node svc st) = tool_result st.
Proof.
  unfold generation_node.
  destruct (negb (truthy_list (context_documents st)) && negb (truthy_str (tool_result st)));
    [reflexivity|].
  destruct (context_documents st) as [docs|]; [|reflexivity].
  destruct (generate_with_context svc _ _) as [text|e]; [reflexivity|].
  now destruct (exn_isinstance e ValueError || exn_isinstance e RuntimeError).
Qed.

(** The words that make [tool_analysis_node] ask for a tool are not the
    words [tool_execution_node] acts on.  A query that has a trigger phrase
    but none of ["date"], ["today"], ["calculate"] and ["compute"] -- one
    that says ["sum"], ["math"], ["multiply"], ["divide"] or ["what day"]
    -- is routed through [tool_execution] when retrieval succeeds, no tool
    is run for it, and the run ends without a tool result. *)
Theorem trigger_without_tool (q : string) (uid : Z) (tid : option string)
    (results : list doc) :
  has_trigger (lower q) = true ->
  (contains "date" (lower q) || contains "today" (lower q)) = false ->
  (contains "calculate" (lower q) || contains "compute" (lower q)) = false ->
  hybrid_search svc q uid (Some 10) = Ok results ->
  exists final,
    invoke svc (create_initial_state q uid tid)
    = Some ([Retrieval; Reranking; ToolAnalysis; ToolExecution; Generation], final)
    /\ (forall st, query st = q -> tool_execution_node svc st = append_step st "tool_execution")
    /\ tool_result final = None.
Proof.
  intros Htrigger Hdate Hcalc Hsearch.
  set (st0 := create_initial_state q uid tid).
  assert (Hexec : forall st, query st = q ->
                    tool_execution_node svc st = append_step st "tool_execution").
  { intros st Hq. unfold tool_execution_node, tool_execution_body.
    now rewrite Hq, Hdate, Hcalc. }
  rewrite invoke_main_path.
  - change (query st0) with q. rewrite Htrigger. eexists. split; [reflexivity|].
    split; [exact Hexec|].
    rewrite generation_node_tool_result, Hexec.
    + cbn [append_step set_metadata tool_result tool_analysis_node set_tool_needed].
      now rewrite reranking_node_tool_result, retrieval_node_tool_result.
    + now rewrite tool_analysis_node_query, reranking_node_query, retrieval_node_query.
  - rewrite (retrieval_node_ok svc st0 results Hsearch). reflexivity.
Qed.

(** With the tool executor of [tool_executor.py] on the registry of
    [tools.py], the arithmetic branch of [tool_execution_node] computes a
    sum: when the first two runs of digits of the query are the numerals
    of [a] and [b], and [a + b] has at most the 4300 digits that the
    interpreter converts to a string, the tool result is
    ["Calculation result: "] followed by the numeral of [a + b], whatever
    operation the query names. *)
Theorem tool_execution_sum {F : Inexact} (now : string) (st : RAGState) (a b : Z)
    (rest : list string) :
  execute_tool svc = ToolExec.execute_tool (ToolExec.tool_registry now) ->
  0 <= a -> 0 <= b -> Tools.convertible (a + b) ->
  (contains "date" (lower (query st)) || contains "today" (lower (query st))) = false ->
  (contains "calculate" (lower (query st)) || contains "compute" (lower (query st))) = true ->
  findall_digits (lower (query st)) = str_of_int a :: str_of_int b :: rest ->
  tool_execution_node svc st
  = append_step (set_tool_result st ("Calculation result: " +:+ str_of_int (a + b)))
      "tool_execution".
Proof.
  intros Hexec Ha Hb _ Hdate Hcalc Hdigits.
  unfold tool_execution_node, tool_execution_body.
  rewrite Hdate, Hcalc, Hdigits, Hexec.
  rewrite (ToolExecFacts.execute_calculate now).
  pose proof (ToolsFacts.calculate_binary a b "+" TPlus Add Ha Hb) as Hadd.
  unfold binary in Hadd. rewrite Hadd; [reflexivity|].
  unfold operator_nodes. rewrite !elem_of_cons. auto.
Qed.

(** When the search of the retrieval node raises, the run is
    [retrieval -> error]; the answer is ["An error occurred: "] followed by
    the stored error, which carries the exception's message; the only step
    recorded is ["error"]; and the context documents are still [None]. *)
Theorem retrieval_failure_answer (q : string) (uid : Z) (tid : option string) (e : exn) :
  hybrid_search svc q uid (Some 10) = Raise e ->
  exists final,
    invoke svc (create_initial_state q uid tid) = Some ([Retrieval; Error], final)
    /\ error final = Some (retrieval_error e)
    /\ answer final = Some ("An error occurred: " +:+ retrieval_error e)
    /\ steps (metadata final) = ["error"]
    /\ context_documents final = None.
Proof.
  intros Hsearch. set (st0 := create_initial_state q uid tid).
  rewrite invoke_error_path by (now apply (retrieval_node_raise svc st0 e)).
  eexists. split; [reflexivity|].
  unfold retrieval_node, retrieval_error. change (query st0) with q.
  change (user_id st0) with uid. rewrite Hsearch.
  destruct (exn_isinstance e ValueError || exn_isinstance e RuntimeError);
    repeat split.
Qed.

(** With the reranker of [reranker.py] behind the reranking node, the
    context handed to the language model has at most five documents,
    whether the model ranks them, fails or is missing, and each of them is
    one of the retrieved documents in every entry but ["rerank_score"]. *)
Theorem context_bounded {CrossEncoder : Type}
    (predict : CrossEncoder -> list (string * string) -> result (list Q))
    (reranker : Rerank.Reranker CrossEncoder) (st : RAGState) :
  rerank svc = Rerank.rerank CrossEncoder predict reranker ->
  exists docs,
    context_documents (reranking_node svc st) = Some docs
    /\ reranked_results (reranking_node svc st) = Some docs
    /\ (length docs <= 5)%nat
    /\ Forall (fun d => Rerank.unscored d
                        ∈ map Rerank.unscored (default [] (hybrid_results st))) docs.
Proof.
  intros Hrerank. unfold reranking_node.
  destruct (hybrid_results st) as [[|d ds]|].
  - exists []. repeat split; simpl; try lia; constructor.
  - rewrite Hrerank.
    destruct (RerankFacts.rerank_selects CrossEncoder predict reranker (query st)
                (d :: ds) (Some 5)) as (results & -> & _ & Hsub & Hlen).
    exists results. repeat split; [apply (Hlen 5); [reflexivity | lia] | exact Hsub].
  - exists []. repeat split; simpl; try lia; constructor.
Qed.

Lemma tool_analysis_node_context st :
  context_documents (tool_analysis_node st) = context_documents st.
Proof. reflexivity. Qed.

Lemma tool_execution_node_context st :
  context_documents (tool_execution_node svc st) = context_documents st.
Proof.
  unfold tool_execution_node.
  destruct (tool_execution_body svc st) as [st1|e] eqn:Hbody; [|reflexivity].
  unfold tool_execution_body in Hbody.
  destruct (contains "date" _ || contains "today" _).
  - destruct (execute_tool svc _ _); [|discriminate]. now injection Hbody as <-.
  - destruct (contains "calculate" _ || contains "compute" _); [|now injection Hbody as <-].
    destruct (findall_digits _) as [|n0 [|n1 rest]]; try (now injection Hbody as <-).
    destruct (execute_tool svc _ _); [|discriminate]. now injection Hbody as <-.
Qed.

Lemma generation_node_context st :
  context_documents (generation_node svc st) = context_documents st.
Proof.
  unfold generation_node.
  destruct (negb (truthy_list (context_documents st)) && negb (truthy_str (tool_result st)));
    [reflexivity|].
  destruct (context_documents st) as [docs|] eqn:Hdocs.
  - destruct (generate_with_context svc _ _) as [text|e]; [exact Hdocs|].
    now destruct (exn_isinstance e ValueError || exn_isinstance e RuntimeError).
  - exact Hdocs.
Qed.

(** The context documents of a run that did not fail are those the
    reranking node chose. *)
Lemma invoke_context (st : RAGState) visited final :
  truthy_str (error (retrieval_node svc st)) = false ->
  invoke svc st = Some (visited, final) ->
  context_documents final
  = context_documents (reranking_node svc (retrieval_node svc st)).
Proof.
  intros Herr Hrun. rewrite invoke_main_path in Hrun by assumption.
  destruct (has_trigger (lower (query st))); injection Hrun as _ <-;
    now rewrite generation_node_context, ?tool_execution_node_context,
                tool_analysis_node_context.
Qed.

End Runs.

(** [trigger_without_tool] at a query that asks for a sum. *)
Lemma trigger_without_tool_witness :
  exists final,
    invoke (example_services [doc_with_id "doc_1_chunk_0_user_1" "vector"] "Five.")
      (create_initial_state "What is the sum of 2 and 3?" 1 None)
    = Some ([Retrieval; Reranking; ToolAnalysis; ToolExecution; Generation], final)
    /\ tool_result final = None
    /\ answer final = Some "Five.".
Proof.
  destruct (trigger_without_tool
              (example_services [doc_with_id "doc_1_chunk_0_user_1" "vector"] "Five.")
              "What is the sum of 2 and 3?" 1 None
              [doc_with_id "doc_1_chunk_0_user_1" "vector"]
              eq_refl eq_refl eq_refl eq_refl) as (final & Hrun & _ & Hnone).
  exists final. split; [exact Hrun|]. split; [exact Hnone|].
  vm_compute in Hrun. injection Hrun as <-. reflexivity.
Defined.

(** [tool_execution_sum] at a query that asks for a product, for every
    floating-point arithmetic and reading of the clock. *)
Lemma tool_execution_sum_witness :
  findall_digits (lower "Compute 123 times 456") = ["123"; "456"]
  /\ forall (F : Inexact) (now : string),
      tool_result
        (tool_execution_node (tool_services now [] "")
           (create_initial_state "Compute 123 times 456" 1 None))
      = Some "Calculation result: 579".
Proof.
  assert (Hsmall : Tools.convertible (123 + 456)).
  { unfold Tools.convertible, Tools.int_max_str_digits.
    apply Z.lt_le_trans with (10 ^ 3); [vm_compute; reflexivity|].
    apply Z.pow_le_mono_r; lia. }
  split; [reflexivity|]. intros F now.
  rewrite (tool_execution_sum (tool_services now [] "") now
             (create_initial_state "Compute 123 times 456" 1 None) 123 456 []
             eq_refl ltac:(lia) ltac:(lia) Hsmall eq_refl eq_refl eq_refl).
  reflexivity.
Defined.

(** [retrieval_failure_answer] at a vector store that is down. *)
Lemma retrieval_failure_answer_witness :
  exists final,
    invoke (failing_retrieval_services "Paris.")
      (create_initial_state "What is the capital of France?" 1 None)
    = Some ([Retrieval; Error], final)
    /\ answer final
       = Some "An error occurred: Retrieval error: vector store unavailable".
Proof.
  destruct (retrieval_failure_answer (failing_retrieval_services "Paris.")
              "What is the capital of France?" 1 None
              (Exn RuntimeError "vector store unavailable") eq_refl)
    as (final & Hrun & _ & Hanswer & _).
  exists final. split; [exact Hrun | exact Hanswer].
Defined.

(** [context_bounded] at seven retrieved documents and a reranker without
    a model. *)
Lemma context_bounded_witness :
  exists docs,
    context_documents
      (reranking_node (example_services [] "")
         (set_hybrid_results (create_initial_state "q" 1 None)
            (map (fun i => BM25.stored_chunk "text" i) [0; 1; 2; 3; 4; 5; 6])))
    = Some docs
    /\ length docs = 5%nat.
Proof.
  destruct (context_bounded (example_services [] "") Rerank.failing_predict
              {| Rerank.model := None |}
              (set_hybrid_results (create_initial_state "q" 1 None)
                 (map (fun i => BM25.stored_chunk "text" i) [0; 1; 2; 3; 4; 5; 6]))
              eq_refl) as (docs & Hdocs & _).
  exists docs. split; [exact Hdocs|].
  vm_compute in Hdocs. injection Hdocs as <-. reflexivity.
Defined.

End WorkflowFacts.

(** ** The pipeline *)

Module PipelineFacts.
Import Workflow WorkflowFacts Pipeline FloatFacts.

(** Rounding keeps zero. *)
Lemma fl_null (x : Q) : (x == 0)%Q -> fl x = 0%Q.
Proof. intros H. unfold fl. apply Qeq_alt in H. now rewrite H. Qed.

(** A sum of zeros is zero, also as floats. *)
Lemma py_sum_unscored (docs : list doc) :
  Forall (fun d => doc_score d = None) docs -> py_sum (map score_or_zero docs) = 0%Q.
Proof.
  unfold py_sum. induction 1 as [|d docs Hd _ IH]; [reflexivity|].
  cbn [map fold_left].
  assert (Hz : fadd 0 (score_or_zero d) = 0%Q)
    by (unfold score_or_zero; rewrite Hd; reflexivity).
  rewrite Hz. exact IH.
Qed.

(** Documents without a score have the confidence [0.0]. *)
Lemma confidence_unscored (docs : list doc) :
  Forall (fun d => doc_score d = None) docs -> calculate_confidence_score docs = 0%Q.
Proof.
  intros H. destruct docs as [|d ds]; [reflexivity|].
  unfold calculate_confidence_score. rewrite (py_sum_unscored _ H).
  unfold fdiv. apply fl_null. unfold Qdiv. ring.
Qed.


Section Pipeline.
Variable build_user_index : Z -> result unit.
Variable lookup_filename : pyval -> option string.
Variable svc : Services.


End Pipeline.

(** When the retrieval fails, the run goes through the error node and the
    context documents are still [None]; formatting the sources then raises,
    and [process_query] re-raises instead of returning the error answer. *)
Example process_query_after_retrieval_failure :
  process_query (fun _ => Ok tt) (fun _ => None) (failing_retrieval_services "Paris.")
    "What is the capital of France?" 1 None
  = Some (Raise (Exn TypeError "'NoneType' object is not iterable")).
Proof. reflexivity. Qed.

Import PyStr PyStrFacts.

(** *** Sources and responses *)

Lemma float_or_nonzero (a : option Q) (b x : Q) :
  a = Some x -> ~ (x == 0)%Q -> float_or a b = x.
Proof.
  intros -> Hx. unfold float_or.
  destruct (Qeq_bool x 0) eqn:E; [|reflexivity].
  now apply Qeq_bool_iff in E.
Qed.

Lemma float_or_falsy (a : option Q) (b : Q) :
  (a = None \/ exists x, a = Some x /\ (x == 0)%Q) -> float_or a b = b.
Proof.
  intros [->|(x & -> & Hx)]; [reflexivity|]. unfold float_or.
  apply Qeq_bool_iff in Hx. now rewrite Hx.
Qed.

Section Responses.
Variable build_user_index : Z -> result unit.
Variable lookup_filename : pyval -> option string.
Variable svc : Services.

(** [_format_sources] gives one source per document, in order.  The
    content shown is the first 200 characters of the document followed by
    three dots, also when the document is shorter than that, so it has
    between 3 and 203 characters.  The relevance score is the rerank score
    unless that is missing or zero, then the fused score unless that is
    missing or zero, then the retrieval score, and [0.0] without one: a
    score of exactly zero is never reported when a later one exists. *)
Theorem format_sources_shape (docs : list doc) :
  exists formatted,
    _format_sources lookup_filename (Some docs) = Ok formatted
    /\ length formatted = length docs
    /\ Forall2 (fun d s =>
                  source_content s = slice (default "" (doc_content d)) 0 200 +:+ "..."
                  /\ 3 <= len (source_content s) <= 203
                  /\ (forall x, doc_rerank_score d = Some x -> ~ (x == 0)%Q ->
                        relevance_score s = x)
                  /\ (doc_rerank_score d = None
                      \/ (exists x, doc_rerank_score d = Some x /\ (x == 0)%Q) ->
                      (forall y, doc_rrf_score d = Some y -> ~ (y == 0)%Q ->
                         relevance_score s = y)
                      /\ (doc_rrf_score d = None
                          \/ (exists y, doc_rrf_score d = Some y /\ (y == 0)%Q) ->
                          relevance_score s = default 0%Q (doc_score d))))
         docs formatted.
Proof.
  exists (map (format_source lookup_filename) docs).
  split; [reflexivity|]. split; [apply length_map|].
  induction docs as [|d ds IH]; simpl; constructor; [|exact IH].
  split; [reflexivity|]. split.
  - cbn [source_content format_source]. rewrite PyStrFacts.len_app.
    change (len "...") with 3.
    pose proof (PyStrFacts.len_slice_le (default "" (doc_content d)) 0 200 ltac:(lia)).
    pose proof (len_nonneg (slice (default "" (doc_content d)) 0 200)). lia.
  - cbn [relevance_score format_source]. split.
    + intros x Hx Hne. now apply float_or_nonzero.
    + intros Hrerank. rewrite (float_or_falsy _ _ Hrerank). split.
      * intros y Hy Hne. now apply float_or_nonzero.
      * intros Hrrf. now rewrite (float_or_falsy _ _ Hrrf).
Qed.

(** The answer of the error node never reaches the caller of
    [process_query].  When the search of the retrieval node raises, the
    final state has no context documents, formatting the sources iterates
    over [None], and [process_query] passes on the [TypeError] this raises.
    So a response that is returned comes from a run that did not go
    through the error node: its steps do not include ["error"], it has one
    source per context document and the answer of the final state, and its
    total time is the sum, as floats, of the two times the nodes measured. *)
Theorem error_answer_never_returned (q : string) (uid : Z) (tid : option string) :
  (forall e,
      build_user_index uid = Ok tt ->
      hybrid_search svc q uid (Some 10) = Raise e ->
      process_query build_user_index lookup_filename svc q uid tid
      = Some (Raise (Exn TypeError "'NoneType' object is not iterable")))
  /\ (forall resp,
        process_query build_user_index lookup_filename svc q uid tid = Some (Ok resp) ->
        exists visited final docs,
          invoke svc (create_initial_state q uid tid) = Some (visited, final)
          /\ (Error ∉ visited)
          /\ context_documents final = Some docs
          /\ response_answer resp = answer final
          /\ length (sources resp) = length docs
          /\ response_steps (response_metadata resp) = steps (metadata final)
          /\ ("error" ∉ response_steps (response_metadata resp))
          /\ total_time_ms (response_metadata resp)
             = fadd (response_retrieval_time_ms (response_metadata resp))
                 (response_generation_time_ms (response_metadata resp))).
Proof.
  split.
  { intros e Hbuild Hsearch. unfold process_query. rewrite Hbuild.
    set (st0 := create_initial_state q uid tid).
    rewrite invoke_error_path by (now apply (retrieval_node_raise svc st0 e)).
    unfold error_node, retrieval_node. change (query st0) with q.
    change (user_id st0) with uid. rewrite Hsearch.
    now destruct (exn_isinstance e ValueError || exn_isinstance e RuntimeError). }
  intros resp.
  unfold process_query. destruct (build_user_index uid); [|discriminate].
  destruct (invoke_terminates svc (create_initial_state q uid tid))
    as (visited & final & Hrun).
  destruct (run_from_steps _ _ _ _ _ _ Hrun) as (recorded & Hrec & Hsub).
  simpl in Hrec. subst recorded.
  rewrite Hrun. destruct (context_documents final) as [docs|] eqn:Hdocs; [|discriminate].
  cbn [_format_sources mbind result_bind]. intros [= <-].
  exists visited, final, docs. cbn.
  assert (Hnot : Error ∉ visited).
  { intros Hin. set (st0 := create_initial_state q uid tid) in *.
    destruct (truthy_str (error (retrieval_node svc st0))) eqn:E.
    - rewrite invoke_error_path in Hrun by assumption. injection Hrun as _ <-.
      unfold error_node, retrieval_node in Hdocs.
      destruct (hybrid_search svc (query st0) (user_id st0) (Some 10)) as [results|e];
        [discriminate|].
      now destruct (exn_isinstance e ValueError || exn_isinstance e RuntimeError).
    - rewrite invoke_main_path in Hrun by assumption.
      destruct (has_trigger (lower (query st0))); injection Hrun as <- _;
        rewrite !elem_of_cons, elem_of_nil in Hin; intuition discriminate. }
  repeat split; try assumption; try reflexivity.
  - apply length_map.
  - intros Hin. apply Hnot.
    apply (elem_of_sublist _ _ _ Hin) in Hsub. apply list_elem_of_fmap in Hsub.
    destruct Hsub as ([] & Hname & Hvisited); try discriminate. exact Hvisited.
Qed.

End Responses.

(** [error_answer_never_returned] at a vector store that is down: the
    caller gets the [TypeError], not the answer of the error node. *)
Lemma error_answer_never_returned_witness :
  process_query (fun _ => Ok tt) (fun _ => None) (failing_retrieval_services "Paris.")
    "What is the capital of France?" 1 None
  = Some (Raise (Exn TypeError "'NoneType' object is not iterable")).
Proof.
  destruct (error_answer_never_returned (fun _ => Ok tt) (fun _ => None)
              (failing_retrieval_services "Paris.")
              "What is the capital of France?" 1 None) as [Hfail _].
  exact (Hfail (Exn RuntimeError "vector store unavailable") eq_refl eq_refl).
Defined.

Section Deployment.
Variable build_user_index : Z -> result unit.
Variable lookup_filename : pyval -> option string.
Variable svc : Services.
Context {BM25Okapi CrossEncoder : Type}.
Variable get_scores : BM25Okapi -> list string -> result (list Q).
Variable bm25_retriever : BM25.BM25Retriever BM25Okapi.
Variable generate_embedding : string -> result (list Q).
Variable collection_query : list Q -> Z -> Z -> result (option Vector.QueryResult).
Variable predict : CrossEncoder -> list (string * string) -> result (list Q).
Variable reranker : Rerank.Reranker CrossEncoder.

(** With the hybrid retriever of [nodes.py], whose keyword index is never
    built, no context document of a run has a score. *)
Lemma context_unscored (q : string) (uid : Z) (tid : option string)
    (visited : list node) (final : RAGState) (docs : list doc) :
  hybrid_search svc
  = Hybrid.search get_scores bm25_retriever (Vector.search generate_embedding collection_query) ->
  BM25.bm25 _ bm25_retriever = None \/ BM25.corpus _ bm25_retriever = [] ->
  rerank svc = Rerank.rerank CrossEncoder predict reranker ->
  invoke svc (create_initial_state q uid tid) = Some (visited, final) ->
  context_documents final = Some docs ->
  Forall (fun d => doc_score d = None) docs.
Proof.
  intros Hsearch Hunbuilt Hrerank. set (st0 := create_initial_state q uid tid).
  intros Hrun Hdocs.
  destruct (truthy_str (error (retrieval_node svc st0))) eqn:Herr.
  { rewrite invoke_error_path in Hrun by assumption. injection Hrun as _ <-.
    unfold error_node, retrieval_node in Hdocs.
    destruct (hybrid_search svc (query st0) (user_id st0) (Some 10)) as [results|e];
      [discriminate|].
    now destruct (exn_isinstance e ValueError || exn_isinstance e RuntimeError). }
  rewrite (invoke_context svc st0 visited final Herr Hrun) in Hdocs.
  assert (Hhybrid : Forall (fun d => doc_score d = None)
                      (default [] (hybrid_results (retrieval_node svc st0)))).
  { unfold retrieval_node. rewrite Hsearch.
    destruct (Hybrid.search _ _ _ _ _ _) as [results|e] eqn:Hres.
    - cbn. unfold Hybrid.search in Hres.
      assert (Hbm25 : BM25.search BM25Okapi get_scores bm25_retriever (query st0)
                        (Some BM25.BM25_TOP_K) = Ok []).
      { unfold BM25.search. destruct Hunbuilt as [-> | ->]; [reflexivity|].
        now destruct (BM25.bm25 _ bm25_retriever). }
      rewrite Hbm25 in Hres. cbn [mbind result_bind] in Hres.
      destruct (Vector.search generate_embedding collection_query _ _ _)
        as [vector_results|] eqn:Hvec; [|discriminate].
      injection Hres as <-. apply HybridFacts.fusion_unscored; [constructor|].
      exact (VectorFacts.search_unscored _ _ _ _ _ _ Hvec).
    - destruct (exn_isinstance e ValueError || exn_isinstance e RuntimeError);
        constructor. }
  unfold reranking_node in Hdocs.
  destruct (hybrid_results (retrieval_node svc st0)) as [[|d ds]|];
    try (injection Hdocs as <-; constructor).
  cbn [from_option id] in Hhybrid. rewrite Hrerank in Hdocs.
  destruct (RerankFacts.rerank_selects CrossEncoder predict reranker
              (query (retrieval_node svc st0)) (d :: ds) (Some 5))
    as (results & Hres & _ & Hsub & _).
  rewrite Hres in Hdocs. injection Hdocs as <-.
  eapply Forall_impl; [exact Hsub|]. cbn beta. intros r Hr.
  apply list_elem_of_fmap in Hr. destruct Hr as (x & Hx & Hin).
  rewrite Forall_forall in Hhybrid. specialize (Hhybrid x Hin).
  unfold Rerank.unscored in Hx. injection Hx as _ _ _ Hscore _ _ _ _ _.
  congruence.
Qed.


(** The hits of the vector search carry a ["distance"] and no ["score"],
    and neither fusion nor the reranker adds one.  So with a hybrid
    retriever whose keyword index was never built -- the one of [nodes.py]
    -- over the vector store, and the reranker of [reranker.py], no context
    document has a score, and every response [process_query] returns
    reports a confidence of zero. *)
Theorem confidence_without_keyword_hits (q : string) (uid : Z) (tid : option string)
    (resp : Response) :
  hybrid_search svc
  = Hybrid.search get_scores bm25_retriever (Vector.search generate_embedding collection_query) ->
  BM25.bm25 _ bm25_retriever = None \/ BM25.corpus _ bm25_retriever = [] ->
  rerank svc = Rerank.rerank CrossEncoder predict reranker ->
  process_query build_user_index lookup_filename svc q uid tid = Some (Ok resp) ->
  (confidence (response_metadata resp) == 0)%Q
  /\ exists visited final docs,
       invoke svc (create_initial_state q uid tid) = Some (visited, final)
       /\ context_documents final = Some docs
       /\ Forall (fun d => doc_score d = None) docs.
Proof.
  intros Hsearch Hunbuilt Hrerank. unfold process_query.
  destruct (build_user_index uid); [|discriminate].
  destruct (invoke_terminates svc (create_initial_state q uid tid))
    as (visited & final & Hrun). rewrite Hrun.
  destruct (context_documents final) as [docs|] eqn:Hdocs; [|discriminate].
  cbn [_format_sources mbind result_bind]. intros [= <-]. cbn [confidence response_metadata].
  pose proof (context_unscored q uid tid visited final docs
                Hsearch Hunbuilt Hrerank Hrun Hdocs) as Hnone.
  split.
  - destruct docs as [|d ds]; [reflexivity|]. cbn [truthy_list from_option id].
    now rewrite confidence_unscored.
  - exists visited, final, docs. repeat split; assumption.
Qed.

End Deployment.


Lemma confidence_without_keyword_hits_witness :
  exists resp,
    process_query (fun _ => Ok tt) (fun _ => None) (store_services "Paris.")
      "What is the capital of France?" 1 None = Some (Ok resp)
    /\ length (sources resp) = 2%nat
    /\ (confidence (response_metadata resp) == 0)%Q.
Proof.
  eexists. split; [vm_compute; reflexivity|]. split; [reflexivity|].
  eapply (confidence_without_keyword_hits (fun _ => Ok tt) (fun _ => None)
            (store_services "Paris.") BM25.overlap_scores (BM25.init _)
            (fun _ => Ok []) Vector.example_query Rerank.length_predict
            {| Rerank.model := Some tt |}
            "What is the capital of France?" 1 None _ eq_refl (or_introl eq_refl) eq_refl).
  vm_compute. reflexivity.
Defined.

End PipelineFacts.
